(** * Document-reference reconciliation of the insurance brokerage backend

  A shallow embedding of the document handling code of
  [routes/clients.ts], [models/Client.ts] and [server.ts]: the upload
  handlers that write document paths into client rows, the promotion
  of a temporary upload folder to the folder of the new client, the
  diagnostic endpoints that scan and repair the stored paths, and the
  deletion of a document.

  The record store is a list of rows (a row maps column names to
  strings), the file store is a finite map from normalised paths to
  nodes, and a handler is a function of the world that returns an
  outcome together with the new world. *)

From Stdlib Require Import String Ascii.
From stdpp Require Import base strings list gmap fin_maps.

Local Open Scope string_scope.
Local Open Scope list_scope.

(** ** JavaScript strings *)

Module Js.

(** [s.startsWith(p)] *)
Definition startsWith (p s : string) : bool := String.prefix p s.

(** [s.includes(p)] *)
Fixpoint includes (p s : string) : bool :=
  String.prefix p s ||
  match s with
  | EmptyString => false
  | String _ s' => includes p s'
  end.

(** [s.substring(n)] *)
Fixpoint drop (n : nat) (s : string) : string :=
  match n, s with
  | O, _ => s
  | S n', String _ s' => drop n' s'
  | S _, EmptyString => EmptyString
  end.

(** The expansion of a replacement string, for a string pattern (no
    capture groups): [$$] is a dollar, [$&] the matched text, [$`] the
    text before the match and [$'] the text after it; any other
    character, a dollar included, stands for itself. *)
Fixpoint substitution (matched before after repl : string) : string :=
  match repl with
  | EmptyString => EmptyString
  | String c r =>
      if Ascii.eqb c "$" then
        match r with
        | String d r' =>
            if Ascii.eqb d "$" then String "$" (substitution matched before after r')
            else if Ascii.eqb d "&" then matched +:+ substitution matched before after r'
            else if Ascii.eqb d "`" then before +:+ substitution matched before after r'
            else if Ascii.eqb d "'" then after +:+ substitution matched before after r'
            else String c (substitution matched before after r)
        | EmptyString => String c (substitution matched before after r)
        end
      else String c (substitution matched before after r)
  end.

(** [s.replace(pat, repl)] with a string pattern: the first occurrence
    of [pat], from the left, is replaced; [before] is the text already
    passed over. *)
Fixpoint replace_from (before pat repl s : string) : string :=
  if String.prefix pat s
  then substitution pat before (drop (String.length pat) s) repl
         +:+ drop (String.length pat) s
  else match s with
       | EmptyString => EmptyString
       | String c s' => String c (replace_from (before +:+ String c EmptyString) pat repl s')
       end.

Definition replace (pat repl s : string) : string :=
  replace_from EmptyString pat repl s.

(** [s.split('/')] *)
Fixpoint split_slash (s : string) : list string :=
  match s with
  | EmptyString => [EmptyString]
  | String c s' =>
      if Ascii.eqb c "/" then EmptyString :: split_slash s'
      else match split_slash s' with
           | x :: xs => String c x :: xs
           | [] => [String c EmptyString]
           end
  end.

(** A value is truthy when it is neither [null]/[undefined] nor the
    empty string. *)
Definition truthy (v : option string) : option string :=
  match v with
  | Some EmptyString => None
  | _ => v
  end.

(** The names a row inherits from [Object.prototype]: read at one of
    them, a row yields a function or an object and not the value of a
    column. *)
Definition inherited : list string :=
  [ "constructor"; "__proto__"; "hasOwnProperty"; "isPrototypeOf";
    "propertyIsEnumerable"; "toLocaleString"; "toString"; "valueOf";
    "__defineGetter__"; "__defineSetter__"; "__lookupGetter__"; "__lookupSetter__" ].

End Js.

(** ** Paths *)

(** A path is the list of its segments below the file system root; a
    slash at the end of a name, which tells the operating system that a
    directory is meant, is not kept. *)
Abbreviation path := (list string).

Module Path.

Definition step (acc : path) (seg : string) : path :=
  if decide (seg = "" ∨ seg = ".") then acc
  else if decide (seg = "..") then removelast acc
  else acc ++ [seg].

(** [path.join(base, s)] for an absolute, normalised [base]: the
    segments of [s] are applied from the left, empty and [.] segments
    are dropped and [..] removes the last segment. *)
Definition join (base : path) (s : string) : path :=
  fold_left step (Js.split_slash s) base.

(** [path.dirname(p)] *)
Definition dirname (p : path) : path := removelast p.

(** A plain segment: a name that [join] appends as it is. *)
Definition segment (s : string) : Prop :=
  Js.split_slash s = [s] ∧ s ≠ "" ∧ s ≠ "." ∧ s ≠ "..".

Global Instance segment_dec s : Decision (segment s).
Proof. unfold segment. apply _. Defined.

End Path.


(** ** The file store *)

Inductive node :=
  | Dir
  | File (content : string).

Inductive errno :=
  | ENOENT | ENOTDIR | EISDIR | EEXIST | ENOTEMPTY | EINVAL | EACCES
  | EDB.

Global Instance node_eq_dec : EqDecision node.
Proof. solve_decision. Defined.

Global Instance errno_eq_dec : EqDecision errno.
Proof. solve_decision. Defined.

(** What the code does not decide: where the project lives, which paths
    the operating system refuses to modify, and which updates the
    database rejects. *)
Record Env := {
  root : path;
  io_fault : path → bool;
  db_fault : string → list (string * option string) → bool
}.

Module Fs.

(** The root directory always exists. *)
Definition stat (fs : gmap path node) (p : path) : option node :=
  match p with
  | [] => Some Dir
  | _ => fs !! p
  end.

(** [fs.existsSync(p)] *)
Definition existsSync (fs : gmap path node) (p : path) : bool :=
  match stat fs p with
  | Some _ => true
  | None => false
  end.

(** [fs.mkdirSync(p, { recursive: true })]: the missing directories are
    made from the top; the directories made before a failure stay. *)
Fixpoint mkdirs (fault : path → bool) (done todo : path) (fs : gmap path node)
  : gmap path node * option errno :=
  match todo with
  | [] => (fs, None)
  | s :: rest =>
      let q := done ++ [s] in
      match fs !! q with
      | Some Dir => mkdirs fault q rest fs
      | Some (File _) => (fs, Some (match rest with [] => EEXIST | _ => ENOTDIR end))
      | None =>
          if fault q then (fs, Some EACCES)
          else mkdirs fault q rest (<[q := Dir]> fs)
      end
  end.

Definition mkdirSync (fault : path → bool) (p : path) (fs : gmap path node)
  : gmap path node * option errno :=
  mkdirs fault [] p fs.

Definition under (p : path) (kv : path * node) : Prop := p `prefix_of` kv.1.

Global Instance under_dec p kv : Decision (under p kv).
Proof. unfold under. apply _. Defined.

(** The entries below [p], [p] itself excluded. *)
Definition inside (p : path) (kv : path * node) : Prop := p `prefix_of` kv.1 ∧ kv.1 ≠ p.

Global Instance inside_dec p kv : Decision (inside p kv).
Proof. unfold inside. apply _. Defined.

(** [fs.rmSync(p, { recursive: true, force: true })] *)
Definition rmSync (fault : path → bool) (p : path) (fs : gmap path node)
  : gmap path node * option errno :=
  if fault p then (fs, Some EACCES)
  else (filter (λ kv, ¬ under p kv) fs, None).

(** [strip p k] is the rest of [k] after the prefix [p]. *)
Fixpoint strip (p k : path) : option path :=
  match p, k with
  | [], _ => Some k
  | a :: p', b :: k' => if decide (a = b) then strip p' k' else None
  | _ :: _, [] => None
  end.

(** The entries below [src], moved below [dst]. *)
Definition reroot (src dst : path) (fs : gmap path node) : gmap path node :=
  map_fold (λ k v acc,
              match strip src k with
              | Some r => <[dst ++ r := v]> acc
              | None => acc
              end) ∅ fs.

Definition move (src dst : path) (fs : gmap path node) : gmap path node :=
  reroot src dst fs ∪ filter (λ kv, ¬ under src kv ∧ ¬ under dst kv) fs.

Definition parent_is_dir (fs : gmap path node) (p : path) : option errno :=
  match stat fs (removelast p) with
  | Some Dir => None
  | Some (File _) => Some ENOTDIR
  | None => Some ENOENT
  end.

(** [fs.renameSync(src, dst)] *)
Definition renameSync (fault : path → bool) (src dst : path) (fs : gmap path node)
  : gmap path node * option errno :=
  match stat fs src with
  | None => (fs, Some ENOENT)
  | Some s =>
      if decide (src = dst) then (fs, None)
      else if decide (src `prefix_of` dst) then (fs, Some EINVAL)
      else match parent_is_dir fs dst with
           | Some e => (fs, Some e)
           | None =>
               if fault src || fault dst then (fs, Some EACCES)
               else match s, stat fs dst with
                    | _, None => (move src dst fs, None)
                    | File _, Some (File _) => (move src dst fs, None)
                    | File _, Some Dir => (fs, Some EISDIR)
                    | Dir, Some (File _) => (fs, Some ENOTDIR)
                    | Dir, Some Dir =>
                        if decide (map_Forall (λ k v, ¬ inside dst (k, v)) fs)
                        then (move src dst fs, None)
                        else (fs, Some ENOTEMPTY)
                    end
           end
  end.

(** Writing [c] at [p]: the parent is a directory and [p] is not one. *)
Definition put (fault : path → bool) (p : path) (c : string) (fs : gmap path node)
  : gmap path node * option errno :=
  match stat fs p with
  | Some Dir => (fs, Some EISDIR)
  | _ =>
      match parent_is_dir fs p with
      | Some e => (fs, Some e)
      | None => if fault p then (fs, Some EACCES) else (<[p := File c]> fs, None)
      end
  end.

(** [fs.writeFileSync(p, c)] *)
Definition writeFileSync := put.

(** [fs.copyFileSync(src, dst)] *)
Definition copyFileSync (fault : path → bool) (src dst : path) (fs : gmap path node)
  : gmap path node * option errno :=
  match stat fs src with
  | None => (fs, Some ENOENT)
  | Some Dir => (fs, Some EISDIR)
  | Some (File c) => put fault dst c fs
  end.

(** [fs.unlinkSync(p)] *)
Definition unlinkSync (fault : path → bool) (p : path) (fs : gmap path node)
  : gmap path node * option errno :=
  match stat fs p with
  | None => (fs, Some ENOENT)
  | Some Dir => (fs, Some EISDIR)
  | Some (File _) => if fault p then (fs, Some EACCES) else (delete p fs, None)
  end.

(** The names of the entries of the directory [p]. *)
Definition children (p : path) (fs : gmap path node) : list string :=
  omap (λ kv, match strip p kv.1 with
              | Some [n] => Some n
              | _ => None
              end) (map_to_list fs).

(** [fs.readdirSync(p)] *)
Definition readdirSync (p : path) (fs : gmap path node) : list string + errno :=
  match stat fs p with
  | None => inr ENOENT
  | Some (File _) => inr ENOTDIR
  | Some Dir => inl (children p fs)
  end.

End Fs.

(** ** The world and the handler monad *)

(** A row of the [clients] table, as [SELECT *] returns it: a map from
    column names to values; a [NULL] column is absent.  The lookup
    [r !! k] is the property access [r[k]] for every name [k] outside
    [Js.inherited]. *)
Abbreviation row := (gmap string string).

(** The data of an [UPDATE]: column names with their new value, [None]
    for [null]. *)
Abbreviation update := (list (string * option string)).

(** The calls that change the stores, in the order they were issued. *)
Inductive event :=
  | EvMkdir (p : path)
  | EvRm (p : path)
  | EvRename (src dst : path)
  | EvWrite (p : path)
  | EvCopy (src dst : path)
  | EvUnlink (p : path)
  | EvInsert (id : string)
  | EvUpdate (id : string) (data : update).

Record World := {
  w_db : list row;
  w_fs : gmap path node;
  w_trace : list event
}.

Inductive outcome (A : Type) :=
  | Ret (a : A)
  | Throw (e : errno).

Arguments Ret {A} a.
Arguments Throw {A} e.

(** A computation returns or throws, and leaves a world in both cases. *)
Definition M (A : Type) : Type := World → outcome A * World.

Definition ret {A} (a : A) : M A := λ w, (Ret a, w).

Definition bind {A B} (m : M A) (f : A → M B) : M B := λ w,
  match m w with
  | (Ret a, w') => f a w'
  | (Throw e, w') => (Throw e, w')
  end.

Notation "'do' x <- m ; k" := (bind m (λ x, k))
  (at level 10, x name, m at level 100, k at level 200, only parsing).
Notation "'do' ' p <- m ; k" := (bind m (λ x, match x with p => k end))
  (at level 10, p pattern, m at level 100, k at level 200, only parsing).
Notation "m >> k" := (bind m (λ _, k))
  (at level 100, k at level 200, right associativity, only parsing).

Definition throw {A} (e : errno) : M A := λ w, (Throw e, w).

(** [try { m } catch (e) { h e }] *)
Definition try_catch {A} (m : M A) (h : errno → M A) : M A := λ w,
  match m w with
  | (Throw e, w') => h e w'
  | r => r
  end.

(** [for (const x of l) { b = f b x }] *)
Fixpoint foldM {A B} (f : B → A → M B) (l : list A) (b : B) : M B :=
  match l with
  | [] => ret b
  | x :: l' => do b' <- f b x; foldM f l' b'
  end.

Definition get_fs : M (gmap path node) := λ w, (Ret (w_fs w), w).
Definition get_db : M (list row) := λ w, (Ret (w_db w), w).

(** A call that changes the file store. *)
Definition fs_call (ev : event) (op : gmap path node → gmap path node * option errno)
  : M unit := λ w,
  let w' := {| w_db := w_db w; w_fs := (op (w_fs w)).1; w_trace := w_trace w ++ [ev] |} in
  match (op (w_fs w)).2 with
  | None => (Ret tt, w')
  | Some e => (Throw e, w')
  end.

Section Calls.
Variable E : Env.

Definition existsSync (p : path) : M bool :=
  do fs <- get_fs; ret (Fs.existsSync fs p).

Definition mkdirSync (p : path) : M unit :=
  fs_call (EvMkdir p) (Fs.mkdirSync (io_fault E) p).

Definition rmSync (p : path) : M unit :=
  fs_call (EvRm p) (Fs.rmSync (io_fault E) p).

Definition renameSync (src dst : path) : M unit :=
  fs_call (EvRename src dst) (Fs.renameSync (io_fault E) src dst).

Definition writeFileSync (p : path) (c : string) : M unit :=
  fs_call (EvWrite p) (Fs.writeFileSync (io_fault E) p c).

Definition copyFileSync (src dst : path) : M unit :=
  fs_call (EvCopy src dst) (Fs.copyFileSync (io_fault E) src dst).

Definition unlinkSync (p : path) : M unit :=
  fs_call (EvUnlink p) (Fs.unlinkSync (io_fault E) p).

(** [if (!fs.existsSync(p)) { fs.mkdirSync(p, { recursive: true }); }];
    the result tells whether the directory was made. *)
Definition ensure_dir (p : path) : M bool :=
  do ex <- existsSync p;
  if ex then ret false else (mkdirSync p >> ret true).

(** [path.join(__dirname, '../../uploads/documents')] *)
Definition documents_dir : path := root E ++ ["uploads"; "documents"].

End Calls.

(** ** The record store: [models/Client.ts] *)

Module Client.

Definition has_id (id : string) (r : row) : bool := bool_decide (r !! "id" = Some id).

(** [SET k = v, ...] on one row. *)
Definition apply (data : update) (r : row) : row :=
  foldl (λ r kv, match kv.2 with
                 | Some v => <[kv.1 := v]> r
                 | None => delete kv.1 r
                 end) r data.

(** The data that sets every column of [d]. *)
Definition set_all (d : row) : update := (λ kv, (kv.1, Some kv.2)) <$> map_to_list d.

(** [UPDATE clients SET ... WHERE id = ?] *)
Definition update_rows (id : string) (data : update) (db : list row) : list row :=
  (λ r, if has_id id r then apply data r else r) <$> db.

Section WithEnv.
Variable E : Env.

(** The query of [Client.update] and of the repair endpoint; the result
    is [affectedRows > 0], the number of rows the condition found. *)
Definition update_query (id : string) (data : update) : M bool := λ w,
  if db_fault E id data then (Throw EDB, w)
  else (Ret (existsb (has_id id) (w_db w)),
        {| w_db := update_rows id data (w_db w);
           w_fs := w_fs w;
           w_trace := w_trace w ++ [EvUpdate id data] |}).

(** [Client.update(id, data)]: no query when there is nothing to set. *)
Definition update (id : string) (data : update) : M bool :=
  match data with
  | [] => ret true
  | _ => update_query id data
  end.

(** [Client.getById(id)] *)
Definition getById (id : string) : M (option row) :=
  do db <- get_db; ret (find (has_id id) db).

(** [Client.getAll()]: the hundred newest rows, the store being kept
    newest first. *)
Definition getAll : M (list row) :=
  do db <- get_db; ret (take 100 db).

(** [Client.create(data)]: the id of the data when it has one, else [C]
    and the first eight characters of a fresh uuid; the insertion fails
    on a taken id. *)
Definition create (data : row) (uuid : string) : M string := λ w,
  let clientId := match Js.truthy (data !! "id") with
                  | Some i => i
                  | None => "C" +:+ String.substring 0 8 uuid
                  end in
  let r := <["id" := clientId]> data in
  if existsb (has_id clientId) (w_db w)
     || db_fault E clientId (set_all (delete "id" data))
  then (Throw EDB, w)
  else (Ret clientId,
        {| w_db := r :: w_db w; w_fs := w_fs w; w_trace := w_trace w ++ [EvInsert clientId] |}).

End WithEnv.
End Client.

(** [obj[k] = v] on an object kept as the list of its properties. *)
Fixpoint set_prop {V} (k : string) (v : V) (o : list (string * V)) : list (string * V) :=
  match o with
  | [] => [(k, v)]
  | (k', v') :: o' => if decide (k' = k) then (k, v) :: o' else (k', v') :: set_prop k v o'
  end.

(** The document columns the diagnostic endpoints go through. *)
Definition documentFields : list string :=
  [ "coverage_proof"; "sum_insured_proof"; "policy_fee_invoice";
    "vat_debit_note"; "payment_receipt"; "nic_proof";
    "dob_proof"; "business_registration_proof"; "svat_proof"; "vat_proof" ].

(** ** The shapes of stored paths *)

Module Shape.

(** [[a-f0-9-]] *)
Definition hexdash (c : ascii) : bool :=
  let n := nat_of_ascii c in
  (Nat.leb 97 n && Nat.leb n 102) || (Nat.leb 48 n && Nat.leb n 57) || Nat.eqb n 45.

Fixpoint all_chars (f : ascii → bool) (s : string) : bool :=
  match s with
  | EmptyString => true
  | String c s' => f c && all_chars f s'
  end.

(** [temp-[a-f0-9-]+], the whole of a segment. *)
Definition temp_hex (seg : string) : bool :=
  String.prefix "temp-" seg
  && negb (String.eqb (Js.drop 5 seg) "")
  && all_chars hexdash (Js.drop 5 seg).

(** [temp-[^\/]+], the whole of a segment. *)
Definition temp_any (seg : string) : bool :=
  String.prefix "temp-" seg && negb (String.eqb (Js.drop 5 seg) "").

(** The two patterns have the form
    [/\/uploads\/documents\/(T)\/([^\/]+)$/]: they match when the path
    ends with a slash, [uploads], [documents], a segment of the form [T]
    and a last, non-empty segment.  The result is the two segments. *)
Definition staged (t : string → bool) (docPath : string) : option (string * string) :=
  match rev (Js.split_slash docPath) with
  | filename :: tempId :: d :: u :: _ :: _ =>
      if String.eqb d "documents" && String.eqb u "uploads"
         && t tempId && negb (String.eqb filename "")
      then Some (tempId, filename)
      else None
  | _ => None
  end.

(** [docPath.match(/\/uploads\/documents\/(temp-[a-f0-9-]+)\/([^\/]+)$/)] *)
Definition match_repair : string → option (string * string) := staged temp_hex.

(** [docPath.match(/\/uploads\/documents\/temp-[^\/]+\/([^\/]+)$/)] *)
Definition match_scan (docPath : string) : option string :=
  snd <$> staged temp_any docPath.

(** [docPath.startsWith('/documents/') &&
     !docPath.startsWith('/uploads/documents/')] *)
Definition missing_prefix (docPath : string) : bool :=
  Js.startsWith "/documents/" docPath && negb (Js.startsWith "/uploads/documents/" docPath).

(** The form [/uploads/documents/<namespace>/<file>] with a non-empty
    namespace and a non-empty file name. *)
Definition canonical (docPath : string) : bool :=
  match Js.split_slash docPath with
  | [e; u; d; ns; f] =>
      String.eqb e "" && String.eqb u "uploads" && String.eqb d "documents"
      && negb (String.eqb ns "") && negb (String.eqb f "")
  | _ => false
  end.

(** The namespace and the file name of a path of that form. *)
Definition decode (docPath : string) : option (string * string) :=
  match Js.split_slash docPath with
  | [_; _; _; ns; f] => if canonical docPath then Some (ns, f) else None
  | _ => None
  end.

End Shape.

(** ** What the endpoints report *)

Inductive message :=
  | MsgClientNoId (name : option string)
  | MsgCopyError (e : errno)
  | MsgTempError (e : errno)
  | MsgUpdateFailed (clientId : string) (e : errno)
  | MsgPlaceholderFailed (p : path) (e : errno)
  | MsgDatabaseError (clientId : string) (e : errno)
  | MsgFileNotFound (p : path)
  | MsgTempFileNotFound (p : path)
  | MsgNotAtNewLocation (field : string) (p : path).

(** ** [GET /api/repair-all-documents] *)

Module Repair.

Record Results := {
  clientsProcessed : nat;
  fixedPaths : nat;
  createdDirectories : nat;
  errors : list message
}.

Definition fixed (r : Results) : Results :=
  {| clientsProcessed := clientsProcessed r; fixedPaths := S (fixedPaths r);
     createdDirectories := createdDirectories r; errors := errors r |}.

Definition created (r : Results) : Results :=
  {| clientsProcessed := clientsProcessed r; fixedPaths := fixedPaths r;
     createdDirectories := S (createdDirectories r); errors := errors r |}.

Definition failed (m : message) (r : Results) : Results :=
  {| clientsProcessed := clientsProcessed r; fixedPaths := fixedPaths r;
     createdDirectories := createdDirectories r; errors := errors r ++ [m] |}.

Definition placeholder : string := "Document placeholder created by repair tool".

Section WithEnv.
Variable E : Env.

(** The body of the loop over the document columns of one client. *)
Definition field_step (client : row) (acc : Results * update) (field : string)
  : M (Results * update) :=
  match Js.truthy (client !! field) with
  | None => ret acc
  | Some docPath =>
      match Shape.match_repair docPath with
      | Some (tempId, filename) =>
          let tempDir := Path.join (documents_dir E) tempId in
          do made <- ensure_dir E tempDir;
          let res := if made then created acc.1 else acc.1 in
          let tempFilePath := Path.join tempDir filename in
          do ex <- existsSync tempFilePath;
          if ex then ret (res, acc.2)
          else try_catch
                 (writeFileSync E tempFilePath placeholder >> ret (fixed res, acc.2))
                 (λ e, ret (failed (MsgPlaceholderFailed tempFilePath e) res, acc.2))
      | None =>
          if Shape.missing_prefix docPath
          then ret (fixed acc.1, set_prop field (Some ("/uploads" +:+ docPath)) acc.2)
          else ret acc
      end
  end.

(** The body of the loop over the clients. *)
Definition client_step (res : Results) (client : row) : M Results :=
  match Js.truthy (client !! "id") with
  | None => ret res
  | Some clientId =>
      let clientDir := Path.join (documents_dir E) clientId in
      do made <- ensure_dir E clientDir;
      let res := if made then created res else res in
      do acc <- foldM (field_step client) documentFields (res, []);
      match acc.2 with
      | [] => ret acc.1
      | _ =>
          try_catch
            (Client.update_query E clientId acc.2 >> ret acc.1)
            (λ e, ret (failed (MsgDatabaseError clientId e) acc.1))
      end
  end.

(** The handler: all rows are read, then repaired one after the other;
    a throw is the answer [500]. *)
Definition run : M Results :=
  do clients <- get_db;
  foldM client_step clients
    {| clientsProcessed := length clients; fixedPaths := 0;
       createdDirectories := 0; errors := [] |}.

End WithEnv.
End Repair.

(** ** [POST /api/clients/diagnostic/check-documents] *)

Module Scan.

Inductive status :=
  | StOk | StTempPath | StFixed | StError | StMissingTempFile | StMissingFile.

Record DocResult := {
  field : string;
  originalPath : string;
  newPath : option string;
  doc_status : status;
  error : option message
}.

Record ClientResult := {
  clientId : string;
  clientName : option string;
  documents : list DocResult;
  tempPathsFixed : nat;
  client_missingFiles : nat
}.

Record Results := {
  totalClients : nat;
  checkedDocuments : nat;
  missingFiles : nat;
  tempFiles : nat;
  fixedPaths : nat;
  errors : list message;
  details : list ClientResult
}.

(** The three things a loop body updates: the totals, the result of the
    client and the result of the document. *)
Record Acc := {
  res : Results;
  cres : ClientResult;
}.

Definition with_doc (st : status) (np : option string) (err : option message) (d : DocResult)
  : DocResult :=
  {| field := field d; originalPath := originalPath d; newPath := np;
     doc_status := st; error := err |}.

Definition checked (r : Results) : Results :=
  {| totalClients := totalClients r; checkedDocuments := S (checkedDocuments r);
     missingFiles := missingFiles r; tempFiles := tempFiles r;
     fixedPaths := fixedPaths r; errors := errors r; details := details r |}.

Definition temp_seen (r : Results) : Results :=
  {| totalClients := totalClients r; checkedDocuments := checkedDocuments r;
     missingFiles := missingFiles r; tempFiles := S (tempFiles r);
     fixedPaths := fixedPaths r; errors := errors r; details := details r |}.

Definition missing (r : Results) : Results :=
  {| totalClients := totalClients r; checkedDocuments := checkedDocuments r;
     missingFiles := S (missingFiles r); tempFiles := tempFiles r;
     fixedPaths := fixedPaths r; errors := errors r; details := details r |}.

Definition fixed (r : Results) : Results :=
  {| totalClients := totalClients r; checkedDocuments := checkedDocuments r;
     missingFiles := missingFiles r; tempFiles := tempFiles r;
     fixedPaths := S (fixedPaths r); errors := errors r; details := details r |}.

Definition failed (m : message) (r : Results) : Results :=
  {| totalClients := totalClients r; checkedDocuments := checkedDocuments r;
     missingFiles := missingFiles r; tempFiles := tempFiles r;
     fixedPaths := fixedPaths r; errors := errors r ++ [m]; details := details r |}.

Definition detailed (c : ClientResult) (r : Results) : Results :=
  {| totalClients := totalClients r; checkedDocuments := checkedDocuments r;
     missingFiles := missingFiles r; tempFiles := tempFiles r;
     fixedPaths := fixedPaths r; errors := errors r; details := details r ++ [c] |}.

Definition client_fixed (c : ClientResult) : ClientResult :=
  {| clientId := clientId c; clientName := clientName c; documents := documents c;
     tempPathsFixed := S (tempPathsFixed c); client_missingFiles := client_missingFiles c |}.

Definition client_missing (c : ClientResult) : ClientResult :=
  {| clientId := clientId c; clientName := clientName c; documents := documents c;
     tempPathsFixed := tempPathsFixed c; client_missingFiles := S (client_missingFiles c) |}.

Definition client_doc (d : DocResult) (c : ClientResult) : ClientResult :=
  {| clientId := clientId c; clientName := clientName c; documents := documents c ++ [d];
     tempPathsFixed := tempPathsFixed c; client_missingFiles := client_missingFiles c |}.

Section WithEnv.
Variable E : Env.

(** The inner [try]: the staged file is copied to the folder of the
    client and the column is set to the new path. *)
Definition copy_and_update (cid fld newRelativePath : string) (fullTempPath newFullPath : path)
  (r : Results) (c : ClientResult) (d : DocResult) : M (Results * ClientResult * DocResult) :=
  try_catch
    (ensure_dir E (Path.dirname newFullPath) >>
     copyFileSync E fullTempPath newFullPath >>
     Client.update E cid [(fld, Some newRelativePath)] >>
     ret (fixed r, client_fixed c, with_doc StFixed (Some newRelativePath) (error d) d))
    (λ e, ret (failed (MsgCopyError e) r, c,
               with_doc StError (newPath d) (Some (MsgCopyError e)) d)).

(** A path that contains [temp-]. *)
Definition temp_branch (cid fld docPath : string)
  (r : Results) (c : ClientResult) (d : DocResult) : M (Results * ClientResult * DocResult) :=
  try_catch
    (match Shape.match_scan docPath with
     | Some filename =>
         let fullTempPath := Path.join (root E) docPath in
         let newRelativePath := "/uploads/documents/" +:+ cid +:+ "/" +:+ filename in
         let newFullPath := Path.join (root E) newRelativePath in
         do ex <- existsSync fullTempPath;
         if ex then copy_and_update cid fld newRelativePath fullTempPath newFullPath r c d
         else ret (missing r, client_missing c,
                   with_doc StMissingTempFile (newPath d)
                     (Some (MsgTempFileNotFound fullTempPath)) d)
     | None => ret (r, c, d)
     end)
    (λ e, ret (failed (MsgTempError e) r, c,
               with_doc StError (newPath d) (Some (MsgTempError e)) d)).

(** The body of the loop over the document columns of one client. *)
Definition field_step (cid : string) (client : row) (acc : Acc) (fld : string) : M Acc :=
  match Js.truthy (client !! fld) with
  | None => ret acc
  | Some docPath =>
      let r := checked (res acc) in
      let d := {| field := fld; originalPath := docPath; newPath := None;
                  doc_status := StOk; error := None |} in
      do out <-
        (if Js.includes "temp-" docPath
         then temp_branch cid fld docPath (temp_seen r) (cres acc)
                (with_doc StTempPath None None d)
         else
           let fullPath := Path.join (root E) docPath in
           do ex <- existsSync fullPath;
           if ex then ret (r, cres acc, d)
           else ret (missing r, client_missing (cres acc),
                     with_doc StMissingFile None (Some (MsgFileNotFound fullPath)) d));
      ret {| res := out.1.1; cres := client_doc out.2 out.1.2 |}
  end.

(** The body of the loop over the clients. *)
Definition client_step (r : Results) (client : row) : M Results :=
  match Js.truthy (client !! "id") with
  | None => ret (failed (MsgClientNoId (client !! "client_name")) r)
  | Some cid =>
      let c := {| clientId := cid; clientName := client !! "client_name";
                  documents := []; tempPathsFixed := 0; client_missingFiles := 0 |} in
      ensure_dir E (Path.join (documents_dir E) cid) >>
      do acc <- foldM (field_step cid client) documentFields {| res := r; cres := c |};
      match documents (cres acc) with
      | [] => ret (res acc)
      | _ => ret (detailed (cres acc) (res acc))
      end
  end.

(** The handler; a throw is the answer [500]. *)
Definition run : M Results :=
  do allClients <- Client.getAll;
  foldM client_step allClients
    {| totalClients := length allClients; checkedDocuments := 0; missingFiles := 0;
       tempFiles := 0; fixedPaths := 0; errors := []; details := [] |}.

End WithEnv.
End Scan.

(** ** [POST /api/clients/diagnostic/fix-document-paths] *)

Module Fix.

Record ClientResult := {
  clientId : string;
  clientName : option string;
  pathsChecked : nat;
  pathsFixed : nat
}.

Record Results := {
  totalClients : nat;
  checkedPaths : nat;
  fixedPaths : nat;
  errors : list message;
  details : list ClientResult
}.

Record Acc := {
  res : Results;
  cres : ClientResult;
  updates : update
}.

Definition checked (a : Acc) : Acc :=
  {| res := {| totalClients := totalClients (res a); checkedPaths := S (checkedPaths (res a));
               fixedPaths := fixedPaths (res a); errors := errors (res a);
               details := details (res a) |};
     cres := {| clientId := clientId (cres a); clientName := clientName (cres a);
                pathsChecked := S (pathsChecked (cres a)); pathsFixed := pathsFixed (cres a) |};
     updates := updates a |}.

Definition fixed (fld fixedPath : string) (a : Acc) : Acc :=
  {| res := {| totalClients := totalClients (res a); checkedPaths := checkedPaths (res a);
               fixedPaths := S (fixedPaths (res a)); errors := errors (res a);
               details := details (res a) |};
     cres := {| clientId := clientId (cres a); clientName := clientName (cres a);
                pathsChecked := pathsChecked (cres a); pathsFixed := S (pathsFixed (cres a)) |};
     updates := set_prop fld (Some fixedPath) (updates a) |}.

Definition failed (m : message) (r : Results) : Results :=
  {| totalClients := totalClients r; checkedPaths := checkedPaths r;
     fixedPaths := fixedPaths r; errors := errors r ++ [m]; details := details r |}.

Definition detailed (c : ClientResult) (r : Results) : Results :=
  {| totalClients := totalClients r; checkedPaths := checkedPaths r;
     fixedPaths := fixedPaths r; errors := errors r; details := details r ++ [c] |}.

(** The body of the loop over the document columns: no effect. *)
Definition field_step (client : row) (acc : Acc) (fld : string) : Acc :=
  match Js.truthy (client !! fld) with
  | None => acc
  | Some docPath =>
      let acc := checked acc in
      if Shape.missing_prefix docPath
      then fixed fld ("/uploads" +:+ docPath) acc
      else acc
  end.

Section WithEnv.
Variable E : Env.

(** The body of the loop over the clients. *)
Definition client_step (r : Results) (client : row) : M Results :=
  match Js.truthy (client !! "id") with
  | None => ret (failed (MsgClientNoId (client !! "client_name")) r)
  | Some cid =>
      let c := {| clientId := cid; clientName := client !! "client_name";
                  pathsChecked := 0; pathsFixed := 0 |} in
      let acc := foldl (field_step client) {| res := r; cres := c; updates := [] |}
                   documentFields in
      match updates acc with
      | [] => ret (res acc)
      | _ =>
          try_catch
            (Client.update E cid (updates acc) >> ret (detailed (cres acc) (res acc)))
            (λ e, ret (failed (MsgUpdateFailed cid e) (res acc)))
      end
  end.

(** The handler; a throw is the answer [500]. *)
Definition run : M Results :=
  do allClients <- Client.getAll;
  foldM client_step allClients
    {| totalClients := length allClients; checkedPaths := 0; fixedPaths := 0;
       errors := []; details := [] |}.

End WithEnv.
End Fix.

(** ** Requests and answers *)

Record User := {
  role : string;
  userId : string
}.

(** [req.files]: the field names with the name the storage gave to the
    file of each. *)
Abbreviation files := (list (string * string)).

Inductive response :=
  | Created (id : string)
  | Success
  | Uploaded (documentUrl : string)
  | MissingFields (fields : list string)
  | BadRequest
  | ClientNotFound
  | DocumentNotFound
  | Forbidden
  | UpdateFailed
  | ServerError (e : errno).

(** [req.user?.role === 'sales' &&
     existingClient.sales_rep_id !== req.user.userId] *)
Definition not_owner (user : option User) (existingClient : row) : bool :=
  match user with
  | Some u =>
      String.eqb (role u) "sales"
      && negb (bool_decide (existingClient !! "sales_rep_id" = Some (userId u)))
  | None => false
  end.

Definition requiredFields : list string :=
  ["customer_type"; "product"; "insurance_provider"; "client_name"; "mobile_no"].

(** ** The upload storage of [routes/clients.ts] *)

Module Storage.

(** [filename]: the document type of the body, else the field name,
    then a fresh uuid and the extension of the original name. *)
Definition filename (documentType : option string) (fieldname uniqueId fileExtension : string)
  : string :=
  match Js.truthy documentType with
  | Some t => t
  | None => fieldname
  end +:+ "-" +:+ uniqueId +:+ fileExtension.

Section WithEnv.
Variable E : Env.

(** [destination]: the folder of [req.params.id], else a folder
    [temp-<uuid>] with a uuid of its own; it is made when missing. *)
Definition destination (paramsId : option string) (uuid : string) : M path :=
  let clientId := match Js.truthy paramsId with
                  | Some i => i
                  | None => "temp-" +:+ uuid
                  end in
  let clientDir := Path.join (documents_dir E) clientId in
  ensure_dir E clientDir >> ret clientDir.

(** One uploaded file is written in its destination under its name. *)
Definition receive (paramsId : option string) (uuid name content : string) : M path :=
  do dir <- destination paramsId uuid;
  let p := Path.join dir name in
  writeFileSync E p content >> ret p.

End WithEnv.
End Storage.

(** ** [POST /api/clients/with-documents] *)

Module Promotion.

(** What the handler logs of the move. *)
Inductive report :=
  | TempDirNotFound
  | MoveFailed (e : errno)
  | Moved (allFilesUpdated : bool) (notFound : list message).

Record Acc := {
  updateData : update;
  allFilesUpdated : bool;
  notFound : list message
}.

(** [`/uploads/documents/${tempClientId}/${file.filename}`] *)
Definition staged_path (tempClientId filename : string) : string :=
  "/uploads/documents/" +:+ tempClientId +:+ "/" +:+ filename.

(** The paths of the files are added to the data of the client. *)
Definition add_paths (tempClientId : string) (fs : files) (clientData : row) : row :=
  foldl (λ d f, <[f.1 := staged_path tempClientId f.2]> d) clientData fs.

Section WithEnv.
Variable E : Env.

(** The body of the loop over the uploaded fields: the new path is the
    old one with the temporary id replaced, and it is looked up. *)
Definition field_step (tempClientId clientId : string) (clientData : row)
  (acc : Acc) (f : string * string) : M Acc :=
  match clientData !! f.1 with
  | None => throw EINVAL
  | Some oldPath =>
      let newPath := Js.replace tempClientId clientId oldPath in
      let newFilePath := Path.join (root E) newPath in
      do ex <- existsSync newFilePath;
      ret {| updateData := set_prop f.1 (Some newPath) (updateData acc);
             allFilesUpdated := allFilesUpdated acc && ex;
             notFound := if ex then notFound acc
                         else notFound acc ++ [MsgNotAtNewLocation f.1 newFilePath] |}
  end.

(** The move of the temporary folder to the folder of the client, with
    the update of the paths of the row. *)
Definition promote (tempClientId clientId : string) (clientData : row) (fs : files)
  : M report :=
  let tempDir := Path.join (documents_dir E) tempClientId in
  let clientDir := Path.join (documents_dir E) clientId in
  try_catch
    (do ex <- existsSync tempDir;
     if ex then
       ensure_dir E (Path.dirname clientDir) >>
       do there <- existsSync clientDir;
       (if there then rmSync E clientDir else ret tt) >>
       renameSync E tempDir clientDir >>
       do acc <- foldM (field_step tempClientId clientId clientData) fs
                   {| updateData := []; allFilesUpdated := true; notFound := [] |};
       Client.update E clientId (updateData acc) >>
       ret (Moved (allFilesUpdated acc) (notFound acc))
     else ret TempDirNotFound)
    (λ e, ret (MoveFailed e)).

(** The handler.  [uuidTemp] and [uuidClient] are the uuids drawn for
    the temporary id and for the id of the client; [selfCall] tells
    whether the request to the repair endpoint of the server reaches
    it. *)
Definition run (selfCall : bool) (user : option User) (body : row) (fs : files)
  (uuidTemp uuidClient : string) : M response :=
  try_catch
    (let tempClientId := "temp-" +:+ uuidTemp in
     let clientData :=
       match Js.truthy (body !! "sales_rep_id"), user with
       | None, Some u =>
           if String.eqb (role u) "sales" then <["sales_rep_id" := userId u]> body else body
       | _, _ => body
       end in
     match filter (λ f, Js.truthy (clientData !! f) = None) requiredFields with
     | _ :: _ as missingFields => ret (MissingFields missingFields)
     | [] =>
         let clientData := add_paths tempClientId fs clientData in
         do clientId <- Client.create E clientData uuidClient;
         promote tempClientId clientId clientData fs >>
         (if selfCall then try_catch (Repair.run E >> ret tt) (λ _, ret tt) else ret tt) >>
         ret (Created clientId)
     end)
    (λ e, ret (ServerError e)).

End WithEnv.
End Promotion.

(** ** The other document handlers of [routes/clients.ts] *)

Module Documents.

Section WithEnv.
Variable E : Env.

(** [if (existingClient[k]) { if (fs.existsSync(old)) fs.unlinkSync(old) }] *)
Definition delete_old (existingClient : row) (k : string) : M unit :=
  match Js.truthy (existingClient !! k) with
  | Some old =>
      let oldPath := Path.join (root E) old in
      do ex <- existsSync oldPath;
      if ex then unlinkSync E oldPath else ret tt
  | None => ret tt
  end.

(** [PUT /api/clients/:id/with-documents] *)
Definition put_with_documents (selfCall : bool) (user : option User) (id : string)
  (body : row) (fs : files) : M response :=
  try_catch
    (do existing <- Client.getById id;
     match existing with
     | None => ret ClientNotFound
     | Some existingClient =>
         if not_owner user existingClient then ret Forbidden
         else
           do clientData <-
             foldM (λ (d : row) (f : string * string),
                      let relativePath := "/uploads/documents/" +:+ f.2 in
                      delete_old existingClient f.1 >>
                      ret (<[f.1 := relativePath]> d)) fs body;
           do success <- Client.update E id (Client.set_all clientData);
           if success then
             (if selfCall then try_catch (Repair.run E >> ret tt) (λ _, ret tt) else ret tt) >>
             ret Success
           else ret UpdateFailed
     end)
    (λ e, ret (ServerError e)).

(** [POST /api/clients/:id/documents] *)
Definition post_document (user : option User) (id : string)
  (documentType : option string) (file : option string) : M response :=
  try_catch
    (match file, Js.truthy documentType with
     | Some name, Some documentType =>
         do existing <- Client.getById id;
         match existing with
         | None => ret ClientNotFound
         | Some existingClient =>
             if not_owner user existingClient then ret Forbidden
             else
               ensure_dir E (Path.join (documents_dir E) id) >>
               let relativePath := "/uploads/documents/" +:+ id +:+ "/" +:+ name in
               delete_old existingClient documentType >>
               do updated <- Client.update E id [(documentType, Some relativePath)];
               if updated then ret (Uploaded relativePath) else ret UpdateFailed
         end
     | _, _ => ret BadRequest
     end)
    (λ e, ret (ServerError e)).

(** [DELETE /api/clients/:id/documents/:documentType] *)
Definition delete_document (user : option User) (id documentType : string) : M response :=
  try_catch
    (do existing <- Client.getById id;
     match existing with
     | None => ret ClientNotFound
     | Some existingClient =>
         if not_owner user existingClient then ret Forbidden
         else
           match Js.truthy (existingClient !! documentType) with
           | Some filePath =>
               let fullPath := Path.join (root E) filePath in
               do ex <- existsSync fullPath;
               (if ex then unlinkSync E fullPath else ret tt) >>
               do updated <- Client.update E id [(documentType, None)];
               if updated then ret Success else ret UpdateFailed
           | None => ret DocumentNotFound
           end
     end)
    (λ e, ret (ServerError e)).

End WithEnv.
End Documents.

(** ** [GET /api/fix-temp-document] of [server.ts] *)

Module FixTemp.

Record Results := {
  totalFiles : nat;
  copiedFiles : nat;
  fileDetails : list (string * option errno)
}.

Inductive answer :=
  | Copied (r : Results)
  | ParametersRequired
  | TempDirectoryNotFound
  | NoFilesFound
  | Failed (e : errno).

Section WithEnv.
Variable E : Env.

Definition readdirSync (p : path) : M (list string) := λ w,
  match Fs.readdirSync p (w_fs w) with
  | inl names => (Ret names, w)
  | inr e => (Throw e, w)
  end.

(** The body of the loop over the files of the temporary folder. *)
Definition file_step (tempDir clientDir : path) (r : Results) (file : string) : M Results :=
  try_catch
    (copyFileSync E (Path.join tempDir file) (Path.join clientDir file) >>
     ret {| totalFiles := totalFiles r; copiedFiles := S (copiedFiles r);
            fileDetails := fileDetails r ++ [(file, None)] |})
    (λ e, ret {| totalFiles := totalFiles r; copiedFiles := copiedFiles r;
                 fileDetails := fileDetails r ++ [(file, Some e)] |}).

Definition run (tempId clientId : option string) : M answer :=
  match Js.truthy tempId, Js.truthy clientId with
  | Some tempId, Some clientId =>
      try_catch
        (let tempDir := Path.join (documents_dir E) tempId in
         do ex <- existsSync tempDir;
         if ex then
           let clientDir := Path.join (documents_dir E) clientId in
           ensure_dir E clientDir >>
           do names <- readdirSync tempDir;
           match names with
           | [] => ret NoFilesFound
           | _ =>
               do r <- foldM (file_step tempDir clientDir) names
                         {| totalFiles := length names; copiedFiles := 0; fileDetails := [] |};
               ret (Copied r)
           end
         else ret TempDirectoryNotFound)
        (λ e, ret (Failed e))
  | _, _ => ret ParametersRequired
  end.

End WithEnv.
End FixTemp.
(** ** More of the strings and of the [path] module *)

Module Str.

(** [s.split(d)] for a separator of one character. *)
Fixpoint split_on (d : ascii) (s : string) : list string :=
  match s with
  | EmptyString => [EmptyString]
  | String c s' =>
      if Ascii.eqb c d then EmptyString :: split_on d s'
      else match split_on d s' with
           | x :: xs => String c x :: xs
           | [] => [String c EmptyString]
           end
  end.

(** The lower case of a letter of the alphabet; the constants the code
    compares a lowered string with are made of such letters. *)
Definition lower (c : ascii) : ascii :=
  let n := nat_of_ascii c in
  if Nat.leb 65 n && Nat.leb n 90 then ascii_of_nat (n + 32) else c.

(** [s.toLowerCase()] *)
Fixpoint toLowerCase (s : string) : string :=
  match s with
  | EmptyString => EmptyString
  | String c s' => String (lower c) (toLowerCase s')
  end.

(** [s.substring(s.lastIndexOf('/') + 1)], and [s] when it has no
    slash. *)
Definition after_last_slash (s : string) : string :=
  List.last (Js.split_slash s) EmptyString.

End Str.

Module NodePath.

Fixpoint first_nonempty (l : list string) : string :=
  match l with
  | [] => EmptyString
  | s :: l' => if String.eqb s "" then first_nonempty l' else s
  end.

(** [path.basename(s)]: the last part of [s], the slashes at its end
    left aside. *)
Definition basename (s : string) : string :=
  first_nonempty (rev (Js.split_slash s)).

(** The text from the last dot of [b] on. *)
Fixpoint from_last_dot (b : string) : option string :=
  match b with
  | EmptyString => None
  | String c b' =>
      match from_last_dot b' with
      | Some e => Some e
      | None => if Ascii.eqb c "." then Some b else None
      end
  end.

(** The extension of a name: the text from its last dot on, and nothing
    when the name has no dot, begins with its only dot or is [..]. *)
Definition ext (b : string) : string :=
  match from_last_dot b with
  | Some e => if String.eqb e b || String.eqb b ".." then EmptyString else e
  | None => EmptyString
  end.

(** [path.extname(s)] *)
Definition extname (s : string) : string := ext (basename s).

(** [path.basename] and [path.extname] of a joined path. *)
Definition basename_of (p : path) : string := List.last p EmptyString.
Definition extname_of (p : path) : string := ext (basename_of p).

End NodePath.

(** ** [models/Client.ts], continued *)

Module Store.

(** [Client.delete(id)]: the rows of that id are removed and the result
    is [affectedRows > 0]; [refused] tells whether the database rejects
    the query.  The trace lists the calls of the upload and repair
    code and has no event for it. *)
Definition delete (refused : bool) (id : string) : M bool := λ w,
  if refused then (Throw EDB, w)
  else (Ret (existsb (Client.has_id id) (w_db w)),
        {| w_db := filter (λ r, Client.has_id id r = false) (w_db w);
           w_fs := w_fs w; w_trace := w_trace w |}).

End Store.

(** ** [routes/clients.ts], continued *)

(** The content of a stored file is sent or it is offered for
    download under a name. *)
Inductive disposition :=
  | Inline (filename : string)
  | Attachment (filename : string).

Inductive removal :=
  | Removed
  | RemovalClientNotFound
  | RemovalFailed
  | RemovalError (e : errno).

Inductive delivery :=
  | Stream (filePath : path) (contentType : string) (d : disposition)
  | DeliveryClientNotFound
  | DeliveryForbidden
  | DeliveryDocumentNotFound
  | DeliveryError (e : errno).

Inductive link :=
  | Link (documentType filename downloadUrl directAccessUrl : string)
  | LinkClientNotFound
  | LinkForbidden
  | LinkDocumentNotFound
  | LinkError (e : errno).

Module Routes.

(** The names shown for the kinds of documents. *)
Definition friendlyNames : gmap string string :=
  list_to_map
    [ ("coverage_proof", "Coverage Proof"); ("sum_insured_proof", "Sum Insured Proof");
      ("policy_fee_invoice", "Policy Fee Invoice"); ("vat_debit_note", "VAT Debit Note");
      ("payment_receipt", "Payment Receipt"); ("nic_proof", "NIC Proof");
      ("dob_proof", "DOB Proof"); ("business_registration_proof", "Business Registration");
      ("svat_proof", "SVAT Proof"); ("vat_proof", "VAT Proof") ].

(** [friendlyNames[documentType] || documentType], for a name outside
    [Js.inherited]. *)
Definition displayName (documentType : string) : string :=
  match Js.truthy (friendlyNames !! documentType) with
  | Some n => n
  | None => documentType
  end.

(** The content type the serving route sets for a name. *)
Definition contentType (filename : string) : string :=
  let ext := Str.toLowerCase (NodePath.extname filename) in
  if String.eqb ext ".pdf" then "application/pdf"
  else if String.eqb ext ".jpg" || String.eqb ext ".jpeg" then "image/jpeg"
  else if String.eqb ext ".png" then "image/png"
  else "application/octet-stream".

(** [`${existingClient.client_name} - ${displayName}${originalExt}`];
    a column that is [NULL] is written [null]. *)
Definition downloadFilename (existingClient : row) (filename : string) : string :=
  let documentType := hd EmptyString (Str.split_on "-" filename) in
  let originalExt := NodePath.extname filename in
  default "null" (existingClient !! "client_name")
    +:+ " - " +:+ displayName documentType +:+ originalExt.

Section WithEnv.
Variable E : Env.

(** [if (!clientData.sales_rep_id && req.user?.role === 'sales')
     clientData.sales_rep_id = req.user.userId] *)
Definition with_sales_rep (user : option User) (body : row) : row :=
  match Js.truthy (body !! "sales_rep_id"), user with
  | None, Some u =>
      if String.eqb (role u) "sales" then <["sales_rep_id" := userId u]> body else body
  | _, _ => body
  end.

(** [POST /api/clients] *)
Definition post (user : option User) (body : row) (uuid : string) : M response :=
  try_catch
    (let clientData := with_sales_rep user body in
     match filter (λ f, Js.truthy (clientData !! f) = None) requiredFields with
     | (_ :: _) as missingFields => ret (MissingFields missingFields)
     | [] =>
         do clientId <- Client.create E clientData uuid;
         ret (Created clientId)
     end)
    (λ e, ret (ServerError e)).

(** [PUT /api/clients/:id]; the body may hold [null] values. *)
Definition put (user : option User) (id : string) (clientData : update) : M response :=
  try_catch
    (do existing <- Client.getById id;
     match existing with
     | None => ret ClientNotFound
     | Some existingClient =>
         if not_owner user existingClient then ret Forbidden
         else
           do updated <- Client.update E id clientData;
           if updated then ret Success else ret UpdateFailed
     end)
    (λ e, ret (ServerError e)).

(** [DELETE /api/clients/:id]: the files of the documents are removed,
    then the row. *)
Definition delete (refused : bool) (id : string) : M removal :=
  try_catch
    (do existing <- Client.getById id;
     match existing with
     | None => ret RemovalClientNotFound
     | Some existingClient =>
         foldM (λ _ field, Documents.delete_old E existingClient field) documentFields tt >>
         do deleted <- Store.delete refused id;
         if deleted then ret Removed else ret RemovalFailed
     end)
    (λ e, ret (RemovalError e)).

(** [GET /api/clients/:id/documents/:filename] *)
Definition serve (user : option User) (id filename : string) : M delivery :=
  try_catch
    (do existing <- Client.getById id;
     match existing with
     | None => ret DeliveryClientNotFound
     | Some existingClient =>
         if not_owner user existingClient then ret DeliveryForbidden
         else
           let filePath := Path.join (Path.join (documents_dir E) id) filename in
           do ex <- existsSync filePath;
           if ex then ret (Stream filePath (contentType filename) (Inline filename))
           else ret DeliveryDocumentNotFound
     end)
    (λ e, ret (DeliveryError e)).

(** [GET /api/clients/:id/documents/:filename/download] *)
Definition download (user : option User) (id filename : string) : M delivery :=
  try_catch
    (do existing <- Client.getById id;
     match existing with
     | None => ret DeliveryClientNotFound
     | Some existingClient =>
         if not_owner user existingClient then ret DeliveryForbidden
         else
           let filePath := Path.join (Path.join (documents_dir E) id) filename in
           do ex <- existsSync filePath;
           if ex then
             ret (Stream filePath "application/octet-stream"
                    (Attachment (downloadFilename existingClient filename)))
           else ret DeliveryDocumentNotFound
     end)
    (λ e, ret (DeliveryError e)).

(** [GET /api/clients/:id/documents/:documentType/direct-link] *)
Definition direct_link (user : option User) (protocol host id documentType : string)
  : M link :=
  try_catch
    (do existing <- Client.getById id;
     match existing with
     | None => ret LinkClientNotFound
     | Some existingClient =>
         if not_owner user existingClient then ret LinkForbidden
         else
           match Js.truthy (existingClient !! documentType) with
           | None => ret LinkDocumentNotFound
           | Some docPath =>
               let filename := Str.after_last_slash docPath in
               let downloadUrl :=
                 protocol +:+ "://" +:+ host +:+ "/api/clients/" +:+ id
                   +:+ "/documents/" +:+ filename +:+ "/download" in
               ret (Link documentType filename downloadUrl
                      (protocol +:+ "://" +:+ host +:+ docPath))
           end
     end)
    (λ e, ret (LinkError e)).

End WithEnv.
End Routes.

(** ** [server.ts], continued *)

Inductive structure :=
  | Structure (uploadsExists documentsExists : bool) (tempDirExists : option bool)
  | StructureError (e : errno).

Inductive placeholder_reply :=
  | PlaceholderCreated (normalizedPath : string) (fullPath : path)
  | DocumentPathRequired
  | InvalidDocumentPath (providedPath normalizedPath : string)
  | PlaceholderError (e : errno).

Inductive access :=
  | Next
  | DocumentFileNotFound (requestPath : string).

(** What [test-file-access] tells of a file; the size and the times,
    which the operating system keeps, are not part of the file store,
    and [success] and the message of the answer are functions of
    [exists] and [altExists]. *)
Record fileInfo := {
  isDirectory : bool;
  atAlternativePath : bool
}.

Record file_access := {
  requestedPath : string;
  fa_normalizedPath : string;
  fa_fullPath : path;
  altPath : option path;
  fa_exists : bool;
  altExists : bool;
  info : option fileInfo
}.

Inductive redirect :=
  | Redirect (location : string)
  | RedirectNotFound (requested correctPath : string) (physicalPath : path).

Module Server.

(** The placeholder written for a document of type PDF. *)
Definition pdf : string :=
  "%PDF-1.4
1 0 obj
<</Type/Catalog/Pages 2 0 R>>
endobj
2 0 obj
<</Type/Pages/Kids[3 0 R]/Count 1>>
endobj
3 0 obj
<</Type/Page/MediaBox[0 0 595 842]/Parent 2 0 R/Resources<<>>>>
endobj
xref
0 4
0000000000 65535 f
0000000010 00000 n
0000000053 00000 n
0000000102 00000 n
trailer
<</Size 4/Root 1 0 R>>
startxref
178
%%EOF".

(** The bytes of the smallest image, written when there is no image
    among the assets. *)
Definition minimalPNG : string :=
  string_of_list_ascii
    (ascii_of_nat <$>
       [ 137; 80; 78; 71; 13; 10; 26; 10; 0; 0; 0; 13;
         73; 72; 68; 82; 0; 0; 0; 1; 0; 0; 0; 1;
         8; 6; 0; 0; 0; 31; 21; 196; 137; 0; 0; 0;
         13; 73; 68; 65; 84; 120; 156; 99; 96; 96; 96; 96;
         0; 0; 0; 5; 0; 1; 90; 250; 25; 77; 0; 0;
         0; 0; 73; 69; 78; 68; 174; 66; 96; 130 ]).

(** [/^\/temp-([a-f0-9-]+)\//i]: the path begins with a slash and a
    segment that is [temp-], in any case, and then hexadecimal digits
    and dashes, in any case, and a slash follows the segment.  The
    result is the text after [temp-]. *)
Definition match_temp_dir (requestPath : string) : option string :=
  match Js.split_slash requestPath with
  | e :: seg :: _ :: _ =>
      if String.eqb e ""
         && Shape.temp_hex (Str.toLowerCase seg)
      then Some (Js.drop 5 seg)
      else None
  | _ => None
  end.

Section WithEnv.
Variable E : Env.

(** [path.join(__dirname, '../uploads')] *)
Definition uploads_dir : path := root E ++ ["uploads"].

(** [path.join(__dirname, '../assets/placeholder-document.png')] *)
Definition placeholder_image : path := root E ++ ["assets"; "placeholder-document.png"].

(** The middleware of [/documents]: a request for a file that exists
    is redirected to the same path below [/uploads]. *)
Definition documents (url : string) : M redirect :=
  let targetPath := Path.join (documents_dir E) url in
  do ex <- existsSync targetPath;
  if ex then ret (Redirect ("/uploads/documents" +:+ url))
  else ret (RedirectNotFound ("/documents" +:+ url) ("/uploads/documents" +:+ url) targetPath).

(** The middleware of [/uploads/documents]: a request for a missing
    file of a temporary folder makes the folder. *)
Definition uploads_documents (requestPath : string) : M access :=
  let fullPath := Path.join (documents_dir E) requestPath in
  do ex <- existsSync fullPath;
  if ex then ret Next
  else
    match match_temp_dir requestPath with
    | Some tempId =>
        let tempDirPath := Path.join (documents_dir E) ("temp-" +:+ tempId) in
        try_catch (ensure_dir E tempDirPath >> ret tt) (λ _, ret tt)
    | None => ret tt
    end >>
    ret (DocumentFileNotFound requestPath).

(** [GET /api/repair-document-structure] *)
Definition repair_document_structure (tempId : option string) : M structure :=
  try_catch
    (let uploadsDir := uploads_dir in
     ensure_dir E uploadsDir >>
     let documentsDir := documents_dir E in
     ensure_dir E documentsDir >>
     match Js.truthy tempId with
     | Some t => ensure_dir E (Path.join documentsDir t) >> ret tt
     | None => ret tt
     end >>
     do uploadsExists <- existsSync uploadsDir;
     do documentsExists <- existsSync documentsDir;
     do tempDirExists <-
       match Js.truthy tempId with
       | Some t => do ex <- existsSync (Path.join documentsDir t); ret (Some ex)
       | None => ret None
       end;
     ret (Structure uploadsExists documentsExists tempDirExists))
    (λ e, ret (StructureError e)).

(** [fs.statSync(p).isDirectory()] *)
Definition is_directory (p : path) : M bool := λ w,
  match Fs.stat (w_fs w) p with
  | Some Dir => (Ret true, w)
  | Some (File _) => (Ret false, w)
  | None => (Throw ENOENT, w)
  end.

(** [GET /api/test-file-access]; without a path the answer is [400]. *)
Definition test_file_access (filePath : option string) : M (option file_access) :=
  match Js.truthy filePath with
  | None => ret None
  | Some filePath =>
      let normalizedPath :=
        if Js.startsWith "/" filePath then Js.drop 1 filePath else filePath in
      let fullPath := Path.join (root E) normalizedPath in
      let altPath :=
        if negb (Js.startsWith "uploads/" normalizedPath)
           && Js.includes "/documents/" normalizedPath
        then Some (Path.join (root E ++ ["uploads"]) normalizedPath)
        else None in
      do ex <- existsSync fullPath;
      do altEx <- match altPath with
                  | Some p => existsSync p
                  | None => ret false
                  end;
      do found <-
        (if ex then
           try_catch
             (do d <- is_directory fullPath;
              ret (Some {| isDirectory := d; atAlternativePath := false |}, fullPath))
             (λ _, ret (None, fullPath))
         else
           match altPath with
           | Some p =>
               if altEx then
                 try_catch
                   (do d <- is_directory p;
                    ret (Some {| isDirectory := d; atAlternativePath := true |}, p))
                   (λ _, ret (None, fullPath))
               else ret (None, fullPath)
           | None => ret (None, fullPath)
           end);
      ret (Some {| requestedPath := filePath; fa_normalizedPath := normalizedPath;
                   fa_fullPath := found.2; altPath := altPath;
                   fa_exists := ex; altExists := altEx; info := found.1 |})
  end.

(** The placeholder written at [fullPath], by its extension. *)
Definition write_placeholder (fullPath : path) : M unit :=
  let ext := Str.toLowerCase (NodePath.extname_of fullPath) in
  if String.eqb ext ".pdf" then writeFileSync E fullPath pdf
  else if String.eqb ext ".jpg" || String.eqb ext ".jpeg" || String.eqb ext ".png" then
    do ex <- existsSync placeholder_image;
    if ex then copyFileSync E placeholder_image fullPath
    else writeFileSync E fullPath minimalPNG
  else writeFileSync E fullPath ("Placeholder for " +:+ NodePath.basename_of fullPath).

(** [documentPath], with the [/uploads] prefix when it lacks it. *)
Definition normalizedPath (documentPath : string) : string :=
  if Shape.missing_prefix documentPath then "/uploads" +:+ documentPath else documentPath.

(** [POST /api/create-placeholder-document] *)
Definition create_placeholder_document (documentPath : option string) : M placeholder_reply :=
  match Js.truthy documentPath with
  | None => ret DocumentPathRequired
  | Some documentPath =>
      try_catch
        (let normalized := normalizedPath documentPath in
         if negb (Js.startsWith "/uploads/documents/" normalized)
         then ret (InvalidDocumentPath documentPath normalized)
         else
           let fullPath := Path.join (root E) normalized in
           ensure_dir E (Path.dirname fullPath) >>
           write_placeholder fullPath >>
           ret (PlaceholderCreated normalized fullPath))
        (λ e, ret (PlaceholderError e))
  end.

End WithEnv.
End Server.

(** ** Conditions used in the statements *)

(** No dollar sign, the one character a replacement string treats
    specially. *)
Definition no_dollar (s : string) : Prop :=
  Shape.all_chars (λ c, negb (Ascii.eqb c "$")) s = true.

(** The nodes from the root down to [p] are directories. *)
Definition dir_chain (fs : gmap path node) (p : path) : Prop :=
  ∀ q, q ≠ [] → q `prefix_of` p → fs !! q = Some Dir.

(** No refusal by the operating system. *)
Definition no_io_fault (E : Env) : Prop := ∀ p, io_fault E p = false.

(** The ids of the rows are distinct. *)
Definition distinct_ids (db : list row) : Prop := NoDup (omap (λ r : row, r !! "id") db).

(** The row of a client in the store. *)
Definition row_of (id : string) (db : list row) : option row := find (Client.has_id id) db.

(** The outcome of a computation, read as a postcondition: [Q] for a
    result, [X] for a throw. *)
Definition post {A} (m : M A) (w : World) (Q : A → World → Prop)
  (X : errno → World → Prop) : Prop :=
  match m w with
  | (Ret a, w') => Q a w'
  | (Throw e, w') => X e w'
  end.

(** A computation keeps a relation between the world before and the
    world after, whatever its outcome. *)
Definition keeps {A} (R : relation World) (m : M A) : Prop := ∀ w, R w (m w).2.

(** A computation that returns [a] and leaves the world as it is. *)
Definition pure_run {A} (m : M A) (w : World) (a : A) : Prop := m w = (Ret a, w).

(** *** The promotion, as a function of the file store *)

(** The data that sets the column of each uploaded field to the path of
    its file in the folder of the client. *)
Definition new_paths (clientId : string) (fs : files) : update :=
  (λ f, (f.1, Some (Promotion.staged_path clientId f.2))) <$> fs.

(** The file store after the move: the folder of the client is removed
    when it exists, then the temporary folder takes its place. *)
Definition relocated (E : Env) (tempClientId clientId : string) (fsys : gmap path node)
  : gmap path node :=
  let tempDir := documents_dir E ++ [tempClientId] in
  let clientDir := documents_dir E ++ [clientId] in
  Fs.move tempDir clientDir
    (if Fs.existsSync fsys clientDir then filter (λ kv, ¬ Fs.under clientDir kv) fsys else fsys).

(** The new path of an uploaded file is there. *)
Definition arrived (E : Env) (clientId : string) (fsys : gmap path node) (f : string * string)
  : bool :=
  Fs.existsSync fsys (Path.join (root E) (Promotion.staged_path clientId f.2)).

Definition not_arrived (E : Env) (clientId : string) (fsys : gmap path node) (fs : files)
  : list message :=
  (λ f, MsgNotAtNewLocation f.1 (Path.join (root E) (Promotion.staged_path clientId f.2)))
    <$> filter (λ f, arrived E clientId fsys f = false) fs.

(** The calls of a promotion that finds the temporary folder. *)
Definition promotion_trace (E : Env) (tempClientId clientId : string)
  (fsys : gmap path node) (fs : files) : list event :=
  let tempDir := documents_dir E ++ [tempClientId] in
  let clientDir := documents_dir E ++ [clientId] in
  (if Fs.existsSync fsys clientDir then [EvRm clientDir] else [])
  ++ [EvRename tempDir clientDir]
  ++ match fs with
     | [] => []
     | _ => [EvUpdate clientId (new_paths clientId fs)]
     end.

(** The value of a column of the row of a client. *)
Definition stored_path (id field : string) (db : list row) : option string :=
  match row_of id db with
  | Some r => r !! field
  | None => None
  end.

(** *** Relations between the world before and the world after *)

Definition is_mkdir (ev : event) : Prop :=
  match ev with
  | EvMkdir _ => True
  | _ => False
  end.

(** The calls of the scan: directories are made, files are copied, rows
    are updated. *)
Definition scan_event (ev : event) : Prop :=
  match ev with
  | EvMkdir _ | EvCopy _ _ | EvUpdate _ _ => True
  | _ => False
  end.

(** The calls issued are all of the kind [P]. *)
Definition calls (P : event → Prop) (w w' : World) : Prop :=
  ∃ evs, w_trace w' = w_trace w ++ evs ∧ Forall P evs.

(** No row is added and none is removed. *)
Definition rows_kept (w w' : World) : Prop := length (w_db w') = length (w_db w).

(** Every entry of the file store is still an entry. *)
Definition entries_kept (w w' : World) : Prop :=
  ∀ p, is_Some (w_fs w !! p) → is_Some (w_fs w' !! p).

(** The files are the same, with the same content. *)
Definition files_same (w w' : World) : Prop :=
  ∀ p c, w_fs w' !! p = Some (File c) ↔ w_fs w !! p = Some (File c).

(** Nothing is moved or deleted. *)
Definition non_destructive (w w' : World) : Prop :=
  entries_kept w w' ∧ calls scan_event w w'.

(** Only directories are made. *)
Definition read_only (w w' : World) : Prop :=
  w_db w' = w_db w ∧ files_same w w' ∧ calls is_mkdir w w'.


(** The result of a computation that returns. *)
Definition returned {A} (o : outcome A) : option A :=
  match o with
  | Ret a => Some a
  | Throw _ => None
  end.

(** *** The state after a repair *)

(** The correction of a column by the repair: the [/uploads] prefix is
    added to a path that lacks it and that is not staged. *)
Definition fix_of (client : row) (fld : string) : option (string * option string) :=
  match Js.truthy (client !! fld) with
  | Some docPath =>
      match Shape.match_repair docPath with
      | Some _ => None
      | None =>
          if Shape.missing_prefix docPath then Some (fld, Some ("/uploads" +:+ docPath))
          else None
      end
  | None => None
  end.

Definition fixes (client : row) (flds : list string) : update := omap (fix_of client) flds.

(** A staged column has its folder and its file. *)
Definition staged_there (E : Env) (fsys : gmap path node) (client : row) (fld : string) : Prop :=
  ∀ docPath tempId filename,
    Js.truthy (client !! fld) = Some docPath →
    Shape.match_repair docPath = Some (tempId, filename) →
    Fs.existsSync fsys (Path.join (documents_dir E) tempId) = true
    ∧ Fs.existsSync fsys (Path.join (Path.join (documents_dir E) tempId) filename) = true.

(** A row that the repair leaves as it is: the folder of the client
    exists, the staged columns have their folder and their file, and
    the other columns have the [/uploads] prefix or are no paths of the
    documents directory. *)
Definition settled (E : Env) (fsys : gmap path node) (client : row) : Prop :=
  ∀ cid, Js.truthy (client !! "id") = Some cid →
    Fs.existsSync fsys (Path.join (documents_dir E) cid) = true
    ∧ ∀ fld, fld ∈ documentFields →
        staged_there E fsys client fld
        ∧ ∀ docPath, Js.truthy (client !! fld) = Some docPath →
            Shape.match_repair docPath = None → Shape.missing_prefix docPath = false.

(** No path without the [/uploads] prefix names a temporary folder. *)
Definition no_staged_legacy (db : list row) : Prop :=
  ∀ client fld docPath,
    client ∈ db → fld ∈ documentFields →
    Js.truthy (client !! fld) = Some docPath →
    Shape.missing_prefix docPath = true →
    Shape.match_repair ("/uploads" +:+ docPath) = None.

(** *** The state after a repair of the prefixes *)

(** The correction of a column by the repair of the prefixes. *)
Definition prefix_fix_of (client : row) (fld : string) : option (string * option string) :=
  match Js.truthy (client !! fld) with
  | Some docPath =>
      if Shape.missing_prefix docPath then Some (fld, Some ("/uploads" +:+ docPath))
      else None
  | None => None
  end.

(** A row that the repair of the prefixes leaves as it is. *)
Definition prefixed (client : row) : Prop :=
  ∀ fld docPath,
    fld ∈ documentFields → Js.truthy (client !! fld) = Some docPath →
    Shape.missing_prefix docPath = false.

(** What a loop of the repair of the prefixes leaves as it is when it
    finds nothing to correct. *)
Definition fix_idle (r r' : Fix.Results) : Prop :=
  Fix.fixedPaths r' = Fix.fixedPaths r ∧ Fix.details r' = Fix.details r.
(** ** Conditions used in the further statements *)

(** The id that [Client.create] gives to a client. *)
Definition new_id (data : row) (uuid : string) : string :=
  match Js.truthy (data !! "id") with
  | Some i => i
  | None => "C" +:+ String.substring 0 8 uuid
  end.

(** A stored path without a slash at its end. *)
Definition plain_end (docPath : string) : Prop :=
  last (Js.split_slash docPath) ≠ Some "".

(** The places in the file store that the document columns of a row
    name. *)
Definition document_paths (E : Env) (r : row) : list path :=
  omap (λ fld, Path.join (root E) <$> Js.truthy (r !! fld)) documentFields.

(** The document columns of a row have no slash at their end. *)
Definition plain_ends (r : row) : Prop :=
  ∀ fld docPath,
    fld ∈ documentFields → Js.truthy (r !! fld) = Some docPath → plain_end docPath.

(** *** What the repair endpoints leave as it is *)

(** A computation keeps the relation [R] whatever its outcome, and its
    result satisfies [Q]. *)
Definition framed {A} (R : relation World) (m : M A) (w : World)
  (Q : A → World → Prop) : Prop :=
  post m w (λ a w', R w w' ∧ Q a w') (λ _ w', R w w').

(** The rows are the same, in the same order, but for their document
    columns. *)
Definition cols_kept (w w' : World) : Prop :=
  Forall2 (λ r r' : row, ∀ k, k ∉ documentFields → r' !! k = r !! k) (w_db w) (w_db w').

(** The calls of the repair: directories are made, files are written,
    rows are updated. *)
Definition repair_event (ev : event) : Prop :=
  match ev with
  | EvMkdir _ | EvWrite _ | EvUpdate _ _ => True
  | _ => False
  end.

Definition is_update (ev : event) : Prop :=
  match ev with
  | EvUpdate _ _ => True
  | _ => False
  end.

(** Every entry of the file store stays as it is, a file that is new
    is a placeholder of the repair, and only document columns change. *)
Definition repair_frame (w w' : World) : Prop :=
  w_fs w ⊆ w_fs w'
  ∧ (∀ p c, w_fs w' !! p = Some (File c) →
       w_fs w !! p = Some (File c) ∨ c = Repair.placeholder)
  ∧ cols_kept w w'
  ∧ calls repair_event w w'.

(** The file store is as it was and only document columns change. *)
Definition fix_frame (w w' : World) : Prop :=
  w_fs w' = w_fs w ∧ cols_kept w w' ∧ calls is_update w w'.

(** A row with the prefixes that the repair of the prefixes adds. *)
Definition with_prefixes (r : row) : row :=
  Client.apply (omap (prefix_fix_of r) documentFields) r.

(** *** The counters of the scan *)

(** From [a] to [a'] the loop over the columns has checked [n]
    documents, of which [t] with a temporary path, has fixed [f] and
    has found [m] missing. *)
Definition scan_counted (n t f m : nat) (a a' : Scan.Acc) : Prop :=
  Scan.totalClients (Scan.res a') = Scan.totalClients (Scan.res a)
  ∧ Scan.details (Scan.res a') = Scan.details (Scan.res a)
  ∧ Scan.clientId (Scan.cres a') = Scan.clientId (Scan.cres a)
  ∧ Scan.checkedDocuments (Scan.res a') = Scan.checkedDocuments (Scan.res a) + n
  ∧ length (Scan.documents (Scan.cres a')) = length (Scan.documents (Scan.cres a)) + n
  ∧ Scan.tempFiles (Scan.res a') = Scan.tempFiles (Scan.res a) + t
  ∧ Scan.fixedPaths (Scan.res a') = Scan.fixedPaths (Scan.res a) + f
  ∧ Scan.tempPathsFixed (Scan.cres a') = Scan.tempPathsFixed (Scan.cres a) + f
  ∧ Scan.missingFiles (Scan.res a') = Scan.missingFiles (Scan.res a) + m
  ∧ Scan.client_missingFiles (Scan.cres a') = Scan.client_missingFiles (Scan.cres a) + m.

Definition scan_counts (a a' : Scan.Acc) : Prop :=
  ∃ n t f m, scan_counted n t f m a a' ∧ f <= t ∧ t <= n ∧ f + m <= n.

(** The totals are the sums of the results of the clients. *)
Definition scan_tallied (r : Scan.Results) : Prop :=
  Scan.checkedDocuments r = sum_list_with (λ c, length (Scan.documents c)) (Scan.details r)
  ∧ Scan.fixedPaths r = sum_list_with Scan.tempPathsFixed (Scan.details r)
  ∧ Scan.missingFiles r = sum_list_with Scan.client_missingFiles (Scan.details r)
  ∧ Scan.fixedPaths r <= Scan.tempFiles r
  ∧ Scan.tempFiles r <= Scan.checkedDocuments r
  ∧ Scan.fixedPaths r + Scan.missingFiles r <= Scan.checkedDocuments r
  ∧ Forall (λ c, Scan.documents c ≠ []) (Scan.details r).

(** *** The endpoints of the server *)

(** No file stands where a directory of the way to [p] is to be. *)
Definition clear_way (fsys : gmap path node) (p : path) : Prop :=
  ∀ q c, q `prefix_of` p → fsys !! q ≠ Some (File c).

(** The directory that [repair-document-structure] is to make last. *)
Definition structure_target (E : Env) (tempId : option string) : path :=
  match Js.truthy tempId with
  | Some t => Path.join (documents_dir E) t
  | None => documents_dir E
  end.

(** The extension that [create-placeholder-document] takes as that of
    an image. *)
Definition image_ext (fullPath : path) : bool :=
  let ext := Str.toLowerCase (NodePath.extname_of fullPath) in
  String.eqb ext ".jpg" || String.eqb ext ".jpeg" || String.eqb ext ".png".

(** The content of the placeholder for [fullPath] in a file store: by
    the extension, the document of type PDF, the image among the
    assets or else the smallest image, or a line of text. *)
Definition placeholder_content (E : Env) (fsys : gmap path node) (fullPath : path) : string :=
  if String.eqb (Str.toLowerCase (NodePath.extname_of fullPath)) ".pdf" then Server.pdf
  else if image_ext fullPath then
    match fsys !! Server.placeholder_image E with
    | Some (File img) => img
    | _ => Server.minimalPNG
    end
  else "Placeholder for " +:+ NodePath.basename_of fullPath.

(** The image among the assets is no directory and not on the way to
    [fullPath]. *)
Definition asset_apart (E : Env) (fsys : gmap path node) (fullPath : path) : Prop :=
  fsys !! Server.placeholder_image E ≠ Some Dir
  ∧ ¬ Server.placeholder_image E `prefix_of` Path.dirname fullPath.

(** *** The uploads *)

(** Nothing is at [p] or below it. *)
Definition vacant (fsys : gmap path node) (p : path) : Prop :=
  ∀ q, p `prefix_of` q → fsys !! q = None.

(** The rows are as they were. *)
Definition db_same (w w' : World) : Prop := w_db w' = w_db w.

(** The first row is the only row of the client [cid], and it keeps
    its column [field]. *)
Definition pinned (cid field : string) (w w' : World) : Prop :=
  ∀ (r : row) l,
    w_db w = r :: l → r !! "id" = Some cid → Forall (λ x : row, x !! "id" ≠ Some cid) l →
    ∃ (r' : row) l',
      w_db w' = r' :: l' ∧ r' !! "id" = Some cid ∧ r' !! field = r !! field
      ∧ Forall (λ x : row, x !! "id" ≠ Some cid) l'.

(** *** The names of the stored files *)

(** No character of [s] is [c]. *)
Definition without (c : ascii) (s : string) : Prop :=
  Shape.all_chars (λ x, negb (Ascii.eqb x c)) s = true.

(** The kind of document that the storage puts in the name of a file. *)
Definition stored_kind (documentType : option string) (fieldname : string) : string :=
  match Js.truthy documentType with
  | Some t => t
  | None => fieldname
  end.

(** ** Worlds used as examples *)

Module Ex.

(** A project in [/srv/app], an operating system and a database that
    refuse nothing. *)
Definition env : Env :=
  {| root := ["srv"; "app"]; io_fault := λ _, false; db_fault := λ _ _, false |}.

Definition docs : path := ["srv"; "app"; "uploads"; "documents"].

(** The directories the server makes when it starts. *)
Definition base : gmap path node :=
  list_to_map [ (["srv"], Dir); (["srv"; "app"], Dir);
                (["srv"; "app"; "uploads"], Dir); (docs, Dir) ].

Definition world (db : list row) (fsys : gmap path node) : World :=
  {| w_db := db; w_fs := fsys; w_trace := [] |}.

(** A client with one document column. *)
Definition client (id field docPath : string) : row :=
  list_to_map [ ("id", id); ("client_name", "Ann"); (field, docPath) ].

(** A staged upload of one file for the proof of identity. *)
Definition staged_nic : gmap path node :=
  <[docs ++ ["temp-ab12"; "nic_proof-ab12.pdf"] := File "NIC"]>
    (<[docs ++ ["temp-ab12"] := Dir]> base).

Definition nic_files : files := [("nic_proof", "nic_proof-ab12.pdf")].

Definition nic_data : row :=
  client "C123" "nic_proof" "/uploads/documents/temp-ab12/nic_proof-ab12.pdf".

End Ex.

Module Ex2.



(** Two uploaded fields, the file of the second is not in the temporary
    folder. *)
Definition two_files : files :=
  [("nic_proof", "nic_proof-ab12.pdf"); ("dob_proof", "dob_proof-cd34.pdf")].

Definition two_data : row :=
  <["dob_proof" := "/uploads/documents/temp-ab12/dob_proof-cd34.pdf"]> Ex.nic_data.

End Ex2.

Module Ex3.

(** A client without documents. *)
Definition plain_client : row := list_to_map [ ("id", "C123"); ("client_name", "Ann") ].

(** A client whose proof of identity is in its folder. *)
Definition nic_client : row :=
  Ex.client "C123" "nic_proof" "/uploads/documents/C123/nic_proof-ab12.pdf".

Definition nic_in_folder : gmap path node :=
  <[Ex.docs ++ ["C123"; "nic_proof-ab12.pdf"] := File "NIC"]>
    (<[Ex.docs ++ ["C123"] := Dir]> Ex.base).

End Ex3.

Module Ex4.



End Ex4.

Module Ex5.

(** The accumulator of the scan when it comes to the first client. *)
Definition start : Scan.Acc :=
  {| Scan.res := {| Scan.totalClients := 1; Scan.checkedDocuments := 0;
                    Scan.missingFiles := 0; Scan.tempFiles := 0; Scan.fixedPaths := 0;
                    Scan.errors := []; Scan.details := [] |};
     Scan.cres := {| Scan.clientId := "C123"; Scan.clientName := Some "Ann";
                     Scan.documents := []; Scan.tempPathsFixed := 0;
                     Scan.client_missingFiles := 0 |} |}.

End Ex5.

Module Ex6.

(** A client whose proof of identity is a staged reference without a
    file. *)
Definition lost_client : row :=
  Ex.client "C123" "nic_proof" "/uploads/documents/temp-ab12/x.pdf".

(** A client whose reference misses the [/uploads] prefix and names a
    temporary folder. *)
Definition legacy_staged_client : row :=
  Ex.client "C123" "nic_proof" "/documents/temp-ab12/x.pdf".

(** A client whose reference misses the [/uploads] prefix. *)
Definition legacy_client (id : string) : row :=
  Ex.client id "nic_proof" ("/documents/" +:+ id +:+ "/a.pdf").

(** The accumulator of the repair when it comes to the first client. *)
Definition start : Repair.Results * update :=
  ({| Repair.clientsProcessed := 1; Repair.fixedPaths := 0;
      Repair.createdDirectories := 0; Repair.errors := [] |}, []).

(** An operating system that refuses to make the folder of [C2]. *)
Definition env_no_mkdir : Env :=
  {| root := ["srv"; "app"];
     io_fault := λ p, bool_decide (p = Ex.docs ++ ["C2"]);
     db_fault := λ _ _, false |}.

(** A database that refuses the updates of [C1]. *)
Definition env_no_update : Env :=
  {| root := ["srv"; "app"];
     io_fault := λ _, false;
     db_fault := λ i _, bool_decide (i = "C1") |}.

End Ex6.

Module Ex7.

(** The body of a request that creates a client. *)
Definition body : row :=
  list_to_map [ ("customer_type", "individual"); ("product", "motor");
                ("insurance_provider", "AIA"); ("client_name", "Ann");
                ("mobile_no", "0711") ].

(** A client whose proof of identity is staged. *)
Definition staged_client (id : string) : row :=
  Ex.client id "nic_proof" "/uploads/documents/temp-ab12/nic_proof-ab12.pdf".

(** An operating system that refuses to write the proof of identity
    in the folder of [C1]. *)
Definition env_no_copy : Env :=
  {| root := ["srv"; "app"];
     io_fault := λ p, bool_decide (p = Ex.docs ++ ["C1"; "nic_proof-ab12.pdf"]);
     db_fault := λ _ _, false |}.

End Ex7.

Module Ex8.

(** A sales representative and a client of theirs whose proof of
    identity is in its folder. *)
Definition rep : option User := Some {| role := "sales"; userId := "7" |}.

Definition own_client : row := <["sales_rep_id" := "7"]> Ex3.nic_client.

(** The storage has written a new proof of identity in the folder. *)
Definition uploaded : gmap path node :=
  <[Ex.docs ++ ["C123"; "nic_proof-cd34.png"] := File "NEW"]> Ex3.nic_in_folder.

End Ex8.

(** * Properties *)

(** ** Strings and paths *)

Section StringFacts.

Lemma prefix_append (s t : string) : String.prefix s (s +:+ t) = true.
Proof.
  induction s as [|c s IH]; simpl.
  - by destruct t.
  - destruct (ascii_dec c c); [done | congruence].
Qed.

Lemma drop_append (s t : string) : Js.drop (String.length s) (s +:+ t) = t.
Proof. induction s as [|c s IH]; simpl; [by destruct t | done]. Qed.

Lemma substitution_plain (m b a r : string) :
  no_dollar r → Js.substitution m b a r = r.
Proof.
  unfold no_dollar. induction r as [|c r IH]; simpl; [done |].
  destruct (Ascii.eqb c "$"); simpl; [done |].
  intros H. by rewrite IH.
Qed.

Lemma replace_from_unfold (b pat repl s : string) :
  Js.replace_from b pat repl s =
  if String.prefix pat s
  then Js.substitution pat b (Js.drop (String.length pat) s) repl
         +:+ Js.drop (String.length pat) s
  else match s with
       | EmptyString => EmptyString
       | String c s' => String c (Js.replace_from (b +:+ String c EmptyString) pat repl s')
       end.
Proof. by destruct s. Qed.

Lemma replace_from_here (b pat repl rest : string) :
  no_dollar repl →
  Js.replace_from b pat repl (pat +:+ rest) = repl +:+ rest.
Proof.
  intros H. rewrite replace_from_unfold, prefix_append, drop_append.
  by rewrite substitution_plain.
Qed.

(** Replacing the temporary id in a staged path yields the path of the
    same file in the folder of the client. *)
Lemma replace_staged (u cid name : string) :
  no_dollar cid →
  Js.replace ("temp-" +:+ u) cid (Promotion.staged_path ("temp-" +:+ u) name)
  = Promotion.staged_path cid name.
Proof.
  intros H. unfold Js.replace, Promotion.staged_path.
  change ("/uploads/documents/" +:+ ("temp-" +:+ u) +:+ "/" +:+ name)
    with ("/uploads/documents/" +:+ (("temp-" +:+ u) +:+ ("/" +:+ name))).
  set (pat := "temp-" +:+ u).
  set (tl := pat +:+ "/" +:+ name).
  assert (Hpat : pat = String "t" (String "e" (String "m" (String "p" (String "-" u))))) by done.
  assert (Htl : tl = String "t" (String "e" (String "m" (String "p" (String "-" (u +:+ "/" +:+ name))))))
    by done.
  assert (Hgo : ∀ b, Js.replace_from b pat cid tl = cid +:+ "/" +:+ name).
  { intros b. subst tl. by apply replace_from_here. }
  clearbody tl pat. subst pat.
  clear Htl. simpl. by rewrite Hgo.
Qed.

Lemma split_nonempty (s : string) : Js.split_slash s ≠ [].
Proof.
  induction s as [|c s IH]; simpl; [done |].
  destruct (Ascii.eqb c "/"); [done |]. by destruct (Js.split_slash s).
Qed.

Lemma split_append (a b : string) :
  Js.split_slash (a +:+ "/" +:+ b) = Js.split_slash a ++ Js.split_slash b.
Proof.
  induction a as [|c a IH]; [done |].
  change (String c a +:+ "/" +:+ b) with (String c (a +:+ "/" +:+ b)).
  cbn [Js.split_slash]. rewrite IH.
  destruct (Ascii.eqb c "/"); [done |].
  pose proof (split_nonempty a) as Hne.
  by destruct (Js.split_slash a).
Qed.

Lemma join_append (base : path) (a b : string) :
  Path.join base (a +:+ "/" +:+ b) = Path.join (Path.join base a) b.
Proof. unfold Path.join. by rewrite split_append, fold_left_app. Qed.

Lemma join_segment (base : path) (s : string) :
  Path.segment s → Path.join base s = base ++ [s].
Proof.
  intros (Hs & H1 & H2 & H3). unfold Path.join. rewrite Hs. simpl.
  unfold Path.step. destruct (decide (s = "" ∨ s = ".")) as [[?|?]|_]; [done..|].
  by destruct (decide (s = "..")).
Qed.

Lemma join_uploads_documents (base : path) (rest : string) :
  Path.join base ("/uploads/documents/" +:+ rest)
  = Path.join (base ++ ["uploads"; "documents"]) rest.
Proof.
  change ("/uploads/documents/" +:+ rest) with ("/uploads/documents" +:+ "/" +:+ rest).
  rewrite join_append. f_equal. unfold Path.join. cbn.
  unfold Path.step. simpl. by rewrite <-app_assoc.
Qed.

(** The path of a file in a folder of the documents directory. *)
Lemma join_staged (E : Env) (ns name : string) :
  Path.segment ns → Path.segment name →
  Path.join (root E) (Promotion.staged_path ns name) = documents_dir E ++ [ns; name].
Proof.
  intros Hns Hname. unfold Promotion.staged_path.
  rewrite join_uploads_documents, join_append.
  rewrite !join_segment by done. unfold documents_dir. by rewrite <-!app_assoc.
Qed.

Lemma segment_no_slash_char (s : string) :
  Js.split_slash s = [s] → Shape.all_chars (λ c, negb (Ascii.eqb c "/")) s = true.
Proof.
  induction s as [|c s IH]; [done |]. simpl.
  destruct (Ascii.eqb c "/") eqn:Hc; [done |]. simpl.
  pose proof (split_nonempty s) as Hne.
  destruct (Js.split_slash s) as [|x xs] eqn:Hs; [done |].
  intros [= -> ->]. by apply IH.
Qed.

End StringFacts.

Section SplitFacts.

Lemma split_elem (s x : string) : x ∈ Js.split_slash s → Js.split_slash x = [x].
Proof.
  revert x. induction s as [|c s IH]; intros x; simpl.
  - by intros ->%list_elem_of_singleton.
  - destruct (Ascii.eqb c "/") eqn:Hc.
    + intros [->|Hx]%elem_of_cons; [done | by apply IH].
    + pose proof (split_nonempty s) as Hne.
      destruct (Js.split_slash s) as [|y ys] eqn:Hs; [done |].
      intros [->|Hx]%elem_of_cons.
      * simpl. rewrite Hc. rewrite (IH y); [done | left].
      * apply IH. by right.
Qed.

Lemma temp_prefix_segment (s : string) :
  Js.split_slash s = [s] → String.prefix "temp-" s = true → Path.segment s.
Proof.
  intros Hs Hp. split; [done |].
  repeat split; intros ->; by vm_compute in Hp.
Qed.

(** The segments that a staged shape yields. *)
Lemma staged_parts t docPath tempId filename :
  Shape.staged t docPath = Some (tempId, filename) →
  t tempId = true ∧ Js.split_slash tempId = [tempId]
  ∧ Js.split_slash filename = [filename] ∧ filename ≠ "".
Proof.
  unfold Shape.staged.
  destruct (rev (Js.split_slash docPath)) as [|f [|ti [|d [|u [|x l]]]]] eqn:Hr; try done.
  destruct (String.eqb d "documents" && String.eqb u "uploads" && t ti
            && negb (String.eqb f "")) eqn:Hc; [| done].
  intros [= <- <-].
  apply andb_prop in Hc as [Hc Hf]. apply andb_prop in Hc as [_ Ht].
  assert (Hin : ∀ y, y ∈ [f; ti] → y ∈ Js.split_slash docPath).
  { intros y Hy. apply list_elem_of_In, in_rev. rewrite Hr. apply list_elem_of_In.
    apply elem_of_cons in Hy as [->|Hy]; [left |].
    apply list_elem_of_singleton in Hy as ->. right. left. }
  split; [done |]. split; [eapply split_elem, Hin; right; left |].
  split; [eapply split_elem, Hin; left |].
  intros ->. done.
Qed.

Lemma match_repair_parts docPath tempId filename :
  Shape.match_repair docPath = Some (tempId, filename) →
  Path.segment tempId ∧ Js.split_slash filename = [filename] ∧ filename ≠ "".
Proof.
  intros (Ht & Hs & Hf & Hne)%staged_parts. split; [| done].
  apply temp_prefix_segment; [done |].
  unfold Shape.temp_hex in Ht. by apply andb_prop in Ht as [[Hp _]%andb_prop _].
Qed.

End SplitFacts.

(** ** The file store *)

Section FsFacts.
Implicit Types (fs : gmap path node) (p q : path).

Lemma strip_Some p k r : Fs.strip p k = Some r ↔ k = p ++ r.
Proof.
  revert k. induction p as [|a p IH]; intros [|b k]; simpl.
  - split; [by intros [= <-] | by intros <-].
  - split; [by intros [= <-] | by intros <-].
  - split; [done | by intros [=]].
  - destruct (decide (a = b)) as [->|Hne].
    + rewrite IH. split; [by intros -> | by intros [= ->]].
    + split; [done | by intros [= ? ?]].
Qed.

Lemma strip_app p r : Fs.strip p (p ++ r) = Some r.
Proof. by apply strip_Some. Qed.

Lemma strip_None p k : Fs.strip p k = None ↔ ¬ p `prefix_of` k.
Proof.
  split.
  - intros H [r ->]. by rewrite strip_app in H.
  - intros H. destruct (Fs.strip p k) as [r|] eqn:Hs; [|done].
    apply strip_Some in Hs as ->. destruct H. by exists r.
Qed.

Lemma stat_lookup fs p : p ≠ [] → Fs.stat fs p = fs !! p.
Proof. by destruct p. Qed.

Lemma stat_snoc fs p s : Fs.stat fs (p ++ [s]) = fs !! (p ++ [s]).
Proof. apply stat_lookup. by destruct p. Qed.

(** *** Making directories *)

Lemma mkdirs_grows fault pre todo fs :
  fs ⊆ (Fs.mkdirs fault pre todo fs).1.
Proof.
  revert pre fs. induction todo as [|s todo IH]; intros pre fs; simpl; [done |].
  destruct (fs !! (pre ++ [s])) as [[|c]|] eqn:Hq; simpl; [apply IH | done |].
  destruct (fault (pre ++ [s])); simpl; [done |].
  etrans; [| apply IH]. by apply insert_subseteq.
Qed.

Lemma mkdirs_files fault pre todo fs p c :
  (Fs.mkdirs fault pre todo fs).1 !! p = Some (File c) → fs !! p = Some (File c).
Proof.
  revert pre fs. induction todo as [|s todo IH]; intros pre fs; simpl; [done |].
  destruct (fs !! (pre ++ [s])) as [[|c']|] eqn:Hq; simpl; [apply IH | done |].
  destruct (fault (pre ++ [s])); simpl; [done |].
  intros H%IH. by apply lookup_insert_Some in H as [[_ [=]]|[_ ?]].
Qed.

Lemma mkdirs_made fault pre todo fs :
  (Fs.mkdirs fault pre todo fs).2 = None → todo ≠ [] →
  (Fs.mkdirs fault pre todo fs).1 !! (pre ++ todo) = Some Dir.
Proof.
  revert pre fs. induction todo as [|s todo IH]; intros pre fs; simpl; [done |].
  intros H _.
  assert (Hstep : ∀ fs', fs' !! (pre ++ [s]) = Some Dir →
            (Fs.mkdirs fault (pre ++ [s]) todo fs').2 = None →
            (Fs.mkdirs fault (pre ++ [s]) todo fs').1 !! (pre ++ s :: todo) = Some Dir).
  { intros fs' Hd Hn. destruct todo as [|s' todo'].
    - simpl. done.
    - rewrite (cons_middle s), app_assoc. apply IH; done. }
  destruct (fs !! (pre ++ [s])) as [[|c']|] eqn:Hq; simpl in *; [by apply Hstep | done |].
  destruct (fault (pre ++ [s])); simpl in *; [done |].
  apply Hstep; [by rewrite lookup_insert_eq | done].
Qed.

(** Below a chain of directories, one more directory is made, or found. *)
Lemma mkdirs_skip fault pre mid todo fs :
  (∀ q, q ≠ [] → q `prefix_of` mid → fs !! (pre ++ q) = Some Dir) →
  Fs.mkdirs fault pre (mid ++ todo) fs = Fs.mkdirs fault (pre ++ mid) todo fs.
Proof.
  revert pre. induction mid as [|s mid IH]; intros pre H; simpl.
  - by rewrite app_nil_r.
  - rewrite (H [s]); [| done | by apply prefix_cons, prefix_nil].
    rewrite IH; [by rewrite <-app_assoc |].
    intros q Hq Hp. rewrite <-app_assoc. apply H; [done | by apply prefix_cons].
Qed.

Lemma mkdirSync_child fault fs p s :
  dir_chain fs p →
  Fs.mkdirSync fault (p ++ [s]) fs =
  match fs !! (p ++ [s]) with
  | Some Dir => (fs, None)
  | Some (File _) => (fs, Some EEXIST)
  | None => if fault (p ++ [s]) then (fs, Some EACCES) else (<[p ++ [s] := Dir]> fs, None)
  end.
Proof.
  intros H. unfold Fs.mkdirSync. rewrite mkdirs_skip; [| by apply H]. simpl.
  destruct (fs !! (p ++ [s])) as [[|c]|]; [done.. |]. by destruct (fault _).
Qed.

(** *** Removing and moving *)

Lemma rm_lookup fs p q :
  filter (λ kv, ¬ Fs.under p kv) fs !! q = if decide (p `prefix_of` q) then None else fs !! q.
Proof.
  rewrite map_lookup_filter. unfold Fs.under. simpl.
  destruct (fs !! q) as [n|]; simpl; [| by case_decide].
  case_guard; case_decide; naive_solver.
Qed.

Lemma reroot_lookup src dst fs q :
  Fs.reroot src dst fs !! q =
  match Fs.strip dst q with
  | Some r => fs !! (src ++ r)
  | None => None
  end.
Proof.
  unfold Fs.reroot.
  apply (map_fold_weak_ind (λ acc m, acc !! q = match Fs.strip dst q with
                                                 | Some r => m !! (src ++ r)
                                                 | None => None
                                                 end)).
  - destruct (Fs.strip dst q); by rewrite !lookup_empty.
  - intros k v m acc Hk IH.
    destruct (Fs.strip src k) as [r|] eqn:Hs.
    + apply strip_Some in Hs as ->.
      destruct (Fs.strip dst q) as [r'|] eqn:Hd.
      * apply strip_Some in Hd as ->.
        destruct (decide (r = r')) as [->|Hne].
        -- by rewrite !lookup_insert_eq.
        -- rewrite !lookup_insert_ne; [done | |]; by intros ?%(inj (app _)).
      * rewrite lookup_insert_ne; [done |].
        intros <-. by rewrite strip_app in Hd.
    + destruct (Fs.strip dst q) as [r'|] eqn:Hd; [| done].
      rewrite lookup_insert_ne; [done |].
      intros ->. by rewrite strip_app in Hs.
Qed.

Lemma move_lookup src dst fs q :
  Fs.move src dst fs !! q =
  match Fs.strip dst q with
  | Some r => fs !! (src ++ r)
  | None => if decide (src `prefix_of` q) then None else fs !! q
  end.
Proof.
  unfold Fs.move. rewrite lookup_union, reroot_lookup, map_lookup_filter.
  unfold Fs.under. simpl.
  destruct (Fs.strip dst q) as [r|] eqn:Hd.
  - apply strip_Some in Hd as ->.
    destruct (fs !! (src ++ r)) as [n|]; simpl.
    + by rewrite union_Some_l.
    + rewrite (left_id_L None _).
      destruct (fs !! (dst ++ r)); simpl; [| done].
      case_guard as Hg; [| done]. destruct Hg as [_ []]. by exists r.
  - apply strip_None in Hd. rewrite (left_id_L None _).
    destruct (fs !! q) as [n|]; simpl; [| by case_decide].
    destruct (decide (src `prefix_of` q)) as [Hp|Hp].
    + case_guard as Hg; [by destruct Hg as [[] _] | done].
    + case_guard as Hg; [done | destruct Hg; by split].
Qed.

End FsFacts.

Section ChainFacts.
Implicit Types (fs : gmap path node) (p q : path).

Lemma dir_chain_nil fs : dir_chain fs [].
Proof. intros q Hq Hp. by apply prefix_nil_inv in Hp. Qed.

Lemma dir_chain_snoc fs p s :
  dir_chain fs p → fs !! (p ++ [s]) = Some Dir → dir_chain fs (p ++ [s]).
Proof.
  intros Hc Hl q Hq [k Hk].
  destruct (decide (k = [])) as [->|Hne].
  - rewrite app_nil_r in Hk. by rewrite <-Hk.
  - apply Hc; [done |].
    destruct (exists_last Hne) as (k' & x & ->).
    rewrite app_assoc in Hk. apply app_inj_tail in Hk as [-> _]. by exists k'.
Qed.

Lemma dir_chain_mono fs fs' p : fs ⊆ fs' → dir_chain fs p → dir_chain fs' p.
Proof. intros Hsub Hc q Hq Hp. eapply lookup_weaken; [by apply Hc | done]. Qed.

End ChainFacts.

(** ** Computations *)

Section MonadFacts.

Lemma bind_run {A B} (m : M A) (f : A → M B) w a w' :
  m w = (Ret a, w') → bind m f w = f a w'.
Proof. unfold bind. by intros ->. Qed.

Lemma bind_throw {A B} (m : M A) (f : A → M B) w e w' :
  m w = (Throw e, w') → bind m f w = (Throw e, w').
Proof. unfold bind. by intros ->. Qed.

Lemma bind_assoc {A B C} (m : M A) (f : A → M B) (g : B → M C) w :
  bind (bind m f) g w = bind m (λ a, bind (f a) g) w.
Proof. unfold bind. by destruct (m w) as [[a|e] w']. Qed.

Lemma bind_ret {A B} (a : A) (f : A → M B) w : bind (ret a) f w = f a w.
Proof. done. Qed.

Lemma try_run {A} (m : M A) h w a w' :
  m w = (Ret a, w') → try_catch m h w = (Ret a, w').
Proof. unfold try_catch. by intros ->. Qed.

Lemma try_throw {A} (m : M A) h w e w' :
  m w = (Throw e, w') → try_catch m h w = h e w'.
Proof. unfold try_catch. by intros ->. Qed.

Lemma post_ret {A} (a : A) w Q X : Q a w → post (ret a) w Q X.
Proof. done. Qed.

Lemma post_bind {A B} (m : M A) (f : A → M B) w Q X :
  post m w (λ a w', post (f a) w' Q X) X → post (bind m f) w Q X.
Proof. unfold post, bind. by destruct (m w) as [[a|e] w']. Qed.

Lemma post_try {A} (m : M A) h w Q X :
  post m w Q (λ e w', post (h e) w' Q X) → post (try_catch m h) w Q X.
Proof. unfold post, try_catch. by destruct (m w) as [[a|e] w']. Qed.

Lemma post_mono {A} (m : M A) w (Q Q' : A → World → Prop) (X X' : errno → World → Prop) :
  post m w Q X → (∀ a w', Q a w' → Q' a w') → (∀ e w', X e w' → X' e w') →
  post m w Q' X'.
Proof. unfold post. intros H HQ HX. destruct (m w) as [[a|e] w1]; auto. Qed.

Lemma post_run {A} (m : M A) w Q X a w' :
  post m w Q X → m w = (Ret a, w') → Q a w'.
Proof. unfold post. intros H Hm. by rewrite Hm in H. Qed.

(** The rule of the loop: [I] holds of the accumulator, the elements
    still to come and the world. *)
Lemma post_foldM {A B} (f : B → A → M B) (I : B → list A → World → Prop) X l b w :
  I b l w →
  (∀ b x l' w, I b (x :: l') w → post (f b x) w (λ b' w', I b' l' w') X) →
  post (foldM f l b) w (λ b' w', I b' [] w') X.
Proof.
  intros H Hstep. revert b w H. induction l as [|x l IH]; intros b w H; simpl.
  - exact H.
  - apply post_bind. eapply post_mono; [by apply Hstep | | done].
    intros b' w' H'. by apply IH.
Qed.

Lemma foldM_pure {A B} (f : B → A → M B) l b w :
  (∀ x, x ∈ l → pure_run (f b x) w b) → pure_run (foldM f l b) w b.
Proof.
  unfold pure_run. induction l as [|x l IH]; intros H; simpl; [done |].
  erewrite bind_run; [| apply H; left]. apply IH. intros y Hy. apply H. by right.
Qed.

End MonadFacts.

Section KeepsFacts.
Context (R : relation World) `{!PreOrder R}.

Lemma keeps_ret {A} (a : A) : keeps R (ret a).
Proof. intros w. simpl. reflexivity. Qed.

Lemma keeps_throw {A} e : keeps R (throw (A:=A) e).
Proof. intros w. simpl. reflexivity. Qed.

Lemma keeps_bind {A B} (m : M A) (f : A → M B) :
  keeps R m → (∀ a, keeps R (f a)) → keeps R (bind m f).
Proof.
  intros Hm Hf w. unfold bind. specialize (Hm w).
  destruct (m w) as [[a|e] w']; simpl in *; [| done].
  etrans; [exact Hm | apply Hf].
Qed.

Lemma keeps_try {A} (m : M A) h :
  keeps R m → (∀ e, keeps R (h e)) → keeps R (try_catch m h).
Proof.
  intros Hm Hh w. unfold try_catch. specialize (Hm w).
  destruct (m w) as [[a|e] w']; simpl in *; [done |].
  etrans; [exact Hm | apply Hh].
Qed.

Lemma keeps_foldM {A B} (f : B → A → M B) l b :
  (∀ b x, x ∈ l → keeps R (f b x)) → keeps R (foldM f l b).
Proof.
  revert b. induction l as [|x l IH]; intros b H; simpl.
  - apply keeps_ret.
  - apply keeps_bind; [apply H; left |].
    intros b'. apply IH. intros b'' y Hy. apply H. by right.
Qed.

Lemma keeps_get_fs : keeps R get_fs.
Proof. intros w. simpl. reflexivity. Qed.

Lemma keeps_get_db : keeps R get_db.
Proof. intros w. simpl. reflexivity. Qed.

Lemma keeps_existsSync p : keeps R (existsSync p).
Proof. apply keeps_bind; [apply keeps_get_fs | intros; apply keeps_ret]. Qed.

Lemma keeps_if {A} (c : bool) (m1 m2 : M A) :
  keeps R m1 → keeps R m2 → keeps R (if c then m1 else m2).
Proof. by destruct c. Qed.

End KeepsFacts.

(** ** Calls *)

Section CallFacts.
Variable E : Env.

Lemma existsSync_run p w : existsSync p w = (Ret (Fs.existsSync (w_fs w) p), w).
Proof. done. Qed.

Lemma fs_call_ok ev op w fs' :
  op (w_fs w) = (fs', None) →
  fs_call ev op w = (Ret tt, {| w_db := w_db w; w_fs := fs'; w_trace := w_trace w ++ [ev] |}).
Proof. unfold fs_call. by intros ->. Qed.

Lemma fs_call_fail ev op w fs' e :
  op (w_fs w) = (fs', Some e) →
  fs_call ev op w = (Throw e, {| w_db := w_db w; w_fs := fs'; w_trace := w_trace w ++ [ev] |}).
Proof. unfold fs_call. by intros ->. Qed.

Lemma ensure_dir_there p w :
  Fs.existsSync (w_fs w) p = true → ensure_dir E p w = (Ret false, w).
Proof. intros H. unfold ensure_dir. erewrite bind_run; [| apply existsSync_run]. by rewrite H. Qed.

Lemma existsSync_Some fs p n : fs !! p = Some n → Fs.existsSync fs p = true.
Proof. unfold Fs.existsSync, Fs.stat. intros H. destruct p; [done |]. by rewrite H. Qed.

Lemma existsSync_lookup fs p : p ≠ [] → Fs.existsSync fs p = true ↔ is_Some (fs !! p).
Proof.
  intros Hp. unfold Fs.existsSync. rewrite stat_lookup by done.
  destruct (fs !! p); split; (done || by intros []).
Qed.

Lemma existsSync_snoc fs p s :
  Fs.existsSync fs (p ++ [s]) = true ↔ is_Some (fs !! (p ++ [s])).
Proof. apply existsSync_lookup. by destruct p. Qed.

Lemma set_prop_fresh {V} k (v : V) o : k ∉ o.*1 → set_prop k v o = o ++ [(k, v)].
Proof.
  induction o as [|[k' v'] o IH]; simpl; [done |].
  intros H. apply not_elem_of_cons in H as [Hne Hin].
  rewrite decide_False by done. by rewrite IH.
Qed.

Lemma update_rows_nil id db : Client.update_rows id [] db = db.
Proof.
  unfold Client.update_rows. induction db as [|r db IH]; [done |].
  rewrite fmap_cons, IH. by destruct (Client.has_id id r).
Qed.

End CallFacts.

(** ** The promotion *)

Section PromoteFacts.
Variable E : Env.
Variables (u tempClientId clientId : string).
Local Abbreviation tempDir := (documents_dir E ++ [tempClientId]).
Local Abbreviation clientDir := (documents_dir E ++ [clientId]).

Hypothesis Htemp_id : tempClientId = "temp-" +:+ u.
Hypothesis Htemp_seg : Path.segment tempClientId.
Hypothesis Hclient_seg : Path.segment clientId.
Hypothesis Hplain : no_dollar clientId.

Lemma promote_fields (clientData : row) (fs : files) (acc : Promotion.Acc) w :
  (∀ f, f ∈ fs → clientData !! f.1 = Some (Promotion.staged_path tempClientId f.2)) →
  NoDup (fs.*1) →
  (∀ f, f ∈ fs → f.1 ∉ (Promotion.updateData acc).*1) →
  foldM (Promotion.field_step E tempClientId clientId clientData) fs acc w
  = (Ret {| Promotion.updateData := Promotion.updateData acc ++ new_paths clientId fs;
            Promotion.allFilesUpdated :=
              Promotion.allFilesUpdated acc && forallb (arrived E clientId (w_fs w)) fs;
            Promotion.notFound :=
              Promotion.notFound acc ++ not_arrived E clientId (w_fs w) fs |}, w).
Proof.
  revert acc. induction fs as [|f fs IH]; intros acc Hcd Hnd Hfresh.
  - simpl. unfold not_arrived, new_paths. simpl.
    rewrite !app_nil_r, andb_true_r. by destruct acc.
  - rewrite fmap_cons in Hnd. apply NoDup_cons in Hnd as [Hf Hnd].
    cbn [foldM]. unfold Promotion.field_step at 1.
    rewrite (Hcd f) by left.
    rewrite Htemp_id, replace_staged by done. rewrite <-Htemp_id.
    rewrite bind_assoc. erewrite bind_run; [| apply existsSync_run].
    rewrite bind_ret.
    rewrite set_prop_fresh by (apply Hfresh; left).
    fold (arrived E clientId (w_fs w) f).
    rewrite IH; [| intros; apply Hcd; by right | done |]; cbn [Promotion.updateData
      Promotion.allFilesUpdated Promotion.notFound].
    + unfold new_paths, not_arrived. rewrite fmap_cons, filter_cons. simpl.
      rewrite <-!app_assoc. simpl.
      rewrite andb_assoc.
      destruct (arrived E clientId (w_fs w) f) eqn:Ha; simpl; [done |].
      by rewrite <-app_assoc.
    + intros g Hg. rewrite fmap_app. simpl. intros [Hin|Hin]%elem_of_app.
      * by apply (Hfresh g); [right |].
      * apply list_elem_of_singleton in Hin. apply Hf. rewrite <-Hin.
        by apply list_elem_of_fmap_2.
Qed.

(** The promotion of an existing temporary folder, when neither the
    operating system nor the database refuses: the answer and the world
    it leaves. *)
Lemma promote_run (clientData : row) (fs : files) w :
  clientId ≠ tempClientId →
  no_io_fault E →
  db_fault E clientId (new_paths clientId fs) = false →
  w_fs w !! documents_dir E = Some Dir →
  is_Some (w_fs w !! tempDir) →
  (∀ f, f ∈ fs → clientData !! f.1 = Some (Promotion.staged_path tempClientId f.2)) →
  NoDup (fs.*1) →
  Promotion.promote E tempClientId clientId clientData fs w
  = (Ret (Promotion.Moved
            (forallb (arrived E clientId (relocated E tempClientId clientId (w_fs w))) fs)
            (not_arrived E clientId (relocated E tempClientId clientId (w_fs w)) fs)),
     {| w_db := Client.update_rows clientId (new_paths clientId fs) (w_db w);
        w_fs := relocated E tempClientId clientId (w_fs w);
        w_trace := w_trace w ++ promotion_trace E tempClientId clientId (w_fs w) fs |}).
Proof.
  intros Hne Hio Hdb Hdocs Htemp Hcd Hnd.
  assert (Hdocs_ne : documents_dir E ≠ []) by (unfold documents_dir; by destruct (root E)).
  assert (HtempDir : Path.join (documents_dir E) tempClientId = tempDir)
    by by apply join_segment.
  assert (HclientDir : Path.join (documents_dir E) clientId = clientDir)
    by by apply join_segment.
  assert (Hsib : ¬ clientDir `prefix_of` tempDir).
  { intros [k Hk]. rewrite <-app_assoc in Hk.
    apply (inj (app _)) in Hk. simplify_eq/=. }
  assert (Hsib' : ¬ tempDir `prefix_of` clientDir).
  { intros [k Hk]. rewrite <-app_assoc in Hk.
    apply (inj (app _)) in Hk. simplify_eq/=. }
  assert (Hdocs_out : ¬ clientDir `prefix_of` documents_dir E).
  { intros [k Hk]. rewrite <-app_assoc in Hk.
    rewrite <-(app_nil_r (documents_dir E)) in Hk at 1.
    apply (inj (app _)) in Hk. done. }
  unfold Promotion.promote. rewrite HtempDir, HclientDir.
  apply try_run.
  erewrite bind_run; [| apply existsSync_run].
  rewrite (proj2 (existsSync_snoc _ _ _) Htemp).
  unfold Path.dirname. rewrite removelast_last.
  erewrite bind_run; [| apply ensure_dir_there; by eapply existsSync_Some].
  erewrite bind_run; [| apply existsSync_run].
  set (fs1 := if Fs.existsSync (w_fs w) clientDir
              then filter (λ kv, ¬ Fs.under clientDir kv) (w_fs w) else w_fs w).
  set (w1 := {| w_db := w_db w; w_fs := fs1;
                w_trace := w_trace w ++ (if Fs.existsSync (w_fs w) clientDir
                                         then [EvRm clientDir] else []) |}).
  assert (Hrm : (if Fs.existsSync (w_fs w) clientDir then rmSync E clientDir else ret tt) w
                = (Ret tt, w1)).
  { subst w1 fs1. destruct (Fs.existsSync (w_fs w) clientDir).
    - unfold rmSync. apply fs_call_ok. unfold Fs.rmSync. by rewrite Hio.
    - unfold ret. rewrite app_nil_r. by destruct w. }
  erewrite bind_run; [| exact Hrm].
  assert (Hfs1_out : ∀ q, ¬ clientDir `prefix_of` q → fs1 !! q = w_fs w !! q).
  { intros q Hq. subst fs1. destruct (Fs.existsSync (w_fs w) clientDir); [| done].
    rewrite rm_lookup. by rewrite decide_False. }
  assert (Hfs1_dst : fs1 !! clientDir = None).
  { subst fs1. destruct (Fs.existsSync (w_fs w) clientDir) eqn:Hex.
    - rewrite rm_lookup. by rewrite decide_True.
    - unfold Fs.existsSync in Hex. rewrite stat_snoc in Hex.
      by destruct (w_fs w !! clientDir). }
  assert (Hren : Fs.renameSync (io_fault E) tempDir clientDir fs1
                 = (Fs.move tempDir clientDir fs1, None)).
  { unfold Fs.renameSync. rewrite !stat_snoc.
    rewrite Hfs1_out by done. destruct Htemp as [n ->].
    rewrite decide_False by (intros Heq; apply Hsib'; by rewrite Heq).
    rewrite decide_False by done.
    unfold Fs.parent_is_dir. rewrite removelast_last.
    rewrite stat_lookup by done. rewrite Hfs1_out by done. rewrite Hdocs.
    rewrite !Hio. simpl. destruct n; by rewrite Hfs1_dst. }
  erewrite bind_run; [| unfold renameSync; apply fs_call_ok; exact Hren].
  erewrite bind_run;
    [| apply promote_fields; [done | done | intros ? ?; apply not_elem_of_nil]].
  simpl.
  fold (relocated E tempClientId clientId (w_fs w)).
  unfold Client.update, promotion_trace.
  destruct fs as [|f fs].
  - simpl. rewrite update_rows_nil. unfold bind, ret. simpl.
    by rewrite <-app_assoc.
  - change (new_paths clientId (f :: fs))
      with ((f.1, Some (Promotion.staged_path clientId f.2)) :: new_paths clientId fs).
    unfold bind, Client.update_query.
    change ((f.1, Some (Promotion.staged_path clientId f.2)) :: new_paths clientId fs)
      with (new_paths clientId (f :: fs)).
    rewrite Hdb. simpl. rewrite <-!app_assoc. done.
Qed.

End PromoteFacts.

(** ** Rows *)

Section RowFacts.
Implicit Types (r : row) (data : update) (db : list row).

Lemma apply_cons kv data r :
  Client.apply (kv :: data) r
  = Client.apply data (match kv.2 with
                       | Some v => <[kv.1 := v]> r
                       | None => delete kv.1 r
                       end).
Proof. done. Qed.

Lemma apply_other data r k : k ∉ data.*1 → Client.apply data r !! k = r !! k.
Proof.
  revert r. induction data as [|[k' v'] data IH]; intros r H; [done |].
  rewrite fmap_cons in H. apply not_elem_of_cons in H as [Hne Hin].
  rewrite apply_cons, IH by done. simpl in *.
  destruct v'; [by rewrite lookup_insert_ne | by rewrite lookup_delete_ne].
Qed.

Lemma apply_set data r k v :
  NoDup (data.*1) → (k, v) ∈ data → Client.apply data r !! k = v.
Proof.
  revert r. induction data as [|[k' v'] data IH]; intros r Hnd Hin.
  - by apply elem_of_nil in Hin.
  - rewrite fmap_cons in Hnd. apply NoDup_cons in Hnd as [Hk Hnd].
    rewrite apply_cons. apply elem_of_cons in Hin as [[= -> ->]|Hin].
    + rewrite apply_other by done. simpl.
      destruct v'; [by rewrite lookup_insert_eq | by rewrite lookup_delete_eq].
    + by apply IH.
Qed.

Lemma has_id_apply i data r :
  "id" ∉ data.*1 → Client.has_id i (Client.apply data r) = Client.has_id i r.
Proof. intros H. unfold Client.has_id. by rewrite apply_other. Qed.

Lemma row_of_update i j data db :
  "id" ∉ data.*1 →
  row_of i (Client.update_rows j data db)
  = (λ r, if Client.has_id j r then Client.apply data r else r) <$> row_of i db.
Proof.
  intros H. unfold row_of, Client.update_rows.
  induction db as [|r db IH]; [done |].
  rewrite fmap_cons. cbn [find].
  assert (Hid : Client.has_id i (if Client.has_id j r then Client.apply data r else r)
                = Client.has_id i r).
  { destruct (Client.has_id j r); [by apply has_id_apply | done]. }
  rewrite Hid. by destruct (Client.has_id i r).
Qed.

Lemma row_of_head i r db : r !! "id" = Some i → row_of i (r :: db) = Some r.
Proof. intros H. unfold row_of. cbn [find]. unfold Client.has_id. by rewrite bool_decide_true. Qed.

Lemma row_of_has_id i db r : row_of i db = Some r → Client.has_id i r = true.
Proof.
  unfold row_of. induction db as [|r' db IH]; [done |]. cbn [find].
  destruct (Client.has_id i r') eqn:Hr; [by intros [= <-] | done].
Qed.

Lemma row_of_updated i data db r :
  "id" ∉ data.*1 → row_of i db = Some r →
  row_of i (Client.update_rows i data db) = Some (Client.apply data r).
Proof.
  intros H Hr. rewrite row_of_update, Hr by done. simpl.
  by rewrite (row_of_has_id _ _ _ Hr).
Qed.

Lemma update_rows_length i data db : length (Client.update_rows i data db) = length db.
Proof. unfold Client.update_rows. by rewrite length_fmap. Qed.

Lemma new_paths_keys cid (fs : files) : (new_paths cid fs).*1 = fs.*1.
Proof. unfold new_paths. rewrite <-list_fmap_compose. done. Qed.

Lemma id_not_document_field : "id" ∉ documentFields.
Proof.
  unfold documentFields. intros H.
  repeat (apply elem_of_cons in H as [H|H]; [discriminate H |]).
  by apply elem_of_nil in H.
Qed.

End RowFacts.

(** ** The shape of a path *)

Section ShapeFacts.

Lemma split_staged ns name :
  Js.split_slash ns = [ns] → Js.split_slash name = [name] →
  Js.split_slash (Promotion.staged_path ns name) = [""; "uploads"; "documents"; ns; name].
Proof.
  intros Hns Hname. unfold Promotion.staged_path.
  change ("/uploads/documents/" +:+ ns +:+ "/" +:+ name)
    with ("/uploads/documents" +:+ "/" +:+ (ns +:+ "/" +:+ name)).
  by rewrite !split_append, Hns, Hname.
Qed.

Lemma eqb_empty s : s ≠ "" → String.eqb s "" = false.
Proof. by destruct s. Qed.

(** A staged path decodes to its folder and its file. *)
Lemma decode_staged ns name :
  Path.segment ns → Path.segment name →
  Shape.decode (Promotion.staged_path ns name) = Some (ns, name).
Proof.
  intros (Hns & Hns' & _) (Hname & Hname' & _).
  unfold Shape.decode, Shape.canonical. rewrite split_staged by done.
  simpl. by rewrite !eqb_empty.
Qed.

End ShapeFacts.

(** ** The folder of the client after the promotion *)

Section RelocatedFacts.
Variable E : Env.
Variables (tempClientId clientId : string).
Local Abbreviation tempDir := (documents_dir E ++ [tempClientId]).
Local Abbreviation clientDir := (documents_dir E ++ [clientId]).
Hypothesis Hne : clientId ≠ tempClientId.

Lemma siblings r : ¬ clientDir `prefix_of` tempDir ++ r.
Proof.
  intros [k Hk]. rewrite <-!app_assoc in Hk.
  apply (inj (app _)) in Hk. simplify_eq/=.
Qed.

(** The folder of the client holds what the temporary folder held, and
    nothing of what it held itself. *)
Lemma relocated_inside fsys r :
  relocated E tempClientId clientId fsys !! (clientDir ++ r) = fsys !! (tempDir ++ r).
Proof.
  unfold relocated. rewrite move_lookup, strip_app.
  destruct (Fs.existsSync fsys clientDir); [| done].
  rewrite rm_lookup. rewrite decide_False; [done | apply siblings].
Qed.

Lemma relocated_source fsys r :
  relocated E tempClientId clientId fsys !! (tempDir ++ r) = None.
Proof.
  unfold relocated. rewrite move_lookup.
  destruct (Fs.strip clientDir (tempDir ++ r)) as [k|] eqn:Hs.
  - apply strip_Some in Hs. destruct (siblings r). by exists k.
  - rewrite decide_True; [done | by exists r].
Qed.

End RelocatedFacts.

(** ** Claims on the promotion *)

(** C1. Promotion correctness: when the temporary folder [S] holds the
    file of an uploaded field, the promotion to the client sets the
    column of that field to the path with the id of the client in the
    place of [S] and with the same file name; that path decodes to the
    folder of the client, and the file is there. *)
Theorem promotion_correct (E : Env) (u clientId : string) (clientData : row)
    (fs : files) (w : World) (r : row) (field name content : string) :
  let S := "temp-" +:+ u in
  Path.segment S → Path.segment clientId → no_dollar clientId → clientId ≠ S →
  no_io_fault E → db_fault E clientId (new_paths clientId fs) = false →
  w_fs w !! documents_dir E = Some Dir →
  w_fs w !! (documents_dir E ++ [S]) = Some Dir →
  (∀ f, f ∈ fs → clientData !! f.1 = Some (Promotion.staged_path S f.2)) →
  NoDup (fs.*1) → (∀ f, f ∈ fs → f.1 ∈ documentFields) →
  row_of clientId (w_db w) = Some r →
  (field, name) ∈ fs → Path.segment name →
  w_fs w !! (documents_dir E ++ [S; name]) = Some (File content) →
  ∃ rep w' r',
    Promotion.promote E S clientId clientData fs w = (Ret rep, w')
    ∧ row_of clientId (w_db w') = Some r'
    ∧ r' !! field = Some (Promotion.staged_path clientId name)
    ∧ Shape.decode (Promotion.staged_path S name) = Some (S, name)
    ∧ Shape.decode (Promotion.staged_path clientId name) = Some (clientId, name)
    ∧ Path.join (root E) (Promotion.staged_path clientId name)
      = documents_dir E ++ [clientId; name]
    ∧ w_fs w' !! (documents_dir E ++ [clientId; name]) = Some (File content).
Proof.
  intros S HS Hc Hd Hne Hio Hdb Hdocs Htemp Hcd Hnd Hflds Hr Hin Hname Hfile.
  assert (Hid : "id" ∉ (new_paths clientId fs).*1).
  { rewrite new_paths_keys. intros (f & Hf & Hf')%list_elem_of_fmap.
    apply id_not_document_field. rewrite Hf. by apply Hflds. }
  eexists _, _, _. split; [| split; [| split; [| split; [| split; [| split]]]]].
  - eapply (promote_run E u S clientId); eauto.
  - simpl. by apply row_of_updated.
  - apply apply_set.
    + by rewrite new_paths_keys.
    + unfold new_paths. by apply (list_elem_of_fmap_2' _ _ (field, name)).
  - by apply decode_staged.
  - by apply decode_staged.
  - by apply join_staged.
  - simpl. change [clientId; name] with ([clientId] ++ [name]).
    rewrite app_assoc, relocated_inside by done.
    by rewrite <-app_assoc.
Qed.

(** C1, on the example of the specification. *)
Lemma promotion_correct_witness :
  w_fs (Ex.world [Ex.nic_data] Ex.staged_nic)
    !! (documents_dir Ex.env ++ ["temp-ab12"; "nic_proof-ab12.pdf"]) = Some (File "NIC")
  ∧ ∃ rep w' r',
      Promotion.promote Ex.env "temp-ab12" "C123" Ex.nic_data Ex.nic_files
        (Ex.world [Ex.nic_data] Ex.staged_nic) = (Ret rep, w')
      ∧ row_of "C123" (w_db w') = Some r'
      ∧ r' !! "nic_proof" = Some "/uploads/documents/C123/nic_proof-ab12.pdf"
      ∧ Shape.decode "/uploads/documents/temp-ab12/nic_proof-ab12.pdf"
        = Some ("temp-ab12", "nic_proof-ab12.pdf")
      ∧ Shape.decode "/uploads/documents/C123/nic_proof-ab12.pdf"
        = Some ("C123", "nic_proof-ab12.pdf")
      ∧ Path.join (root Ex.env) "/uploads/documents/C123/nic_proof-ab12.pdf"
        = documents_dir Ex.env ++ ["C123"; "nic_proof-ab12.pdf"]
      ∧ w_fs w' !! (documents_dir Ex.env ++ ["C123"; "nic_proof-ab12.pdf"])
        = Some (File "NIC").
Proof.
  split; [by vm_compute |].
  apply (promotion_correct Ex.env "ab12" "C123" Ex.nic_data Ex.nic_files
           (Ex.world [Ex.nic_data] Ex.staged_nic) Ex.nic_data
           "nic_proof" "nic_proof-ab12.pdf" "NIC").
  - by vm_compute.
  - by vm_compute.
  - by vm_compute.
  - by vm_compute.
  - intros p. reflexivity.
  - reflexivity.
  - by vm_compute.
  - by vm_compute.
  - intros f Hf. apply list_elem_of_singleton in Hf as ->. by vm_compute.
  - apply NoDup_singleton.
  - intros f Hf. apply list_elem_of_singleton in Hf as ->.
    unfold documentFields. do 5 right. left.
  - apply row_of_head. by vm_compute.
  - left.
  - by vm_compute.
  - by vm_compute.
Defined.




Section RecordKept.
Variable E : Env.

Global Instance rows_kept_preorder : PreOrder rows_kept.
Proof.
  split; [by intros w |]. intros w1 w2 w3 H1 H2. unfold rows_kept in *. congruence.
Qed.

Lemma fs_call_rows_kept ev op : keeps rows_kept (fs_call ev op).
Proof. intros w. unfold fs_call. by destruct (op (w_fs w)).2. Qed.

Lemma update_rows_kept id data : keeps rows_kept (Client.update E id data).
Proof.
  intros w. unfold Client.update, Client.update_query.
  destruct data as [|kv data]; [done |].
  destruct (db_fault E id (kv :: data)); [done |]. apply update_rows_length.
Qed.

Lemma ensure_dir_rows_kept p : keeps rows_kept (ensure_dir E p).
Proof.
  apply keeps_bind; [apply _ | apply keeps_existsSync, _ | intros [|]];
    [apply keeps_ret, _ |].
  apply keeps_bind; [apply _ | apply fs_call_rows_kept | intros; apply keeps_ret, _].
Qed.

(** The promotion removes no row, whatever happens to the move. *)
Lemma promote_rows_kept tempClientId clientId clientData fs :
  keeps rows_kept (Promotion.promote E tempClientId clientId clientData fs).
Proof.
  unfold Promotion.promote.
  apply keeps_try; [apply _ | | intros; apply keeps_ret, _].
  apply keeps_bind; [apply _ | apply keeps_existsSync, _ | intros [|]];
    [| apply keeps_ret, _].
  apply keeps_bind; [apply _ | apply ensure_dir_rows_kept | intros _].
  apply keeps_bind; [apply _ | apply keeps_existsSync, _ | intros there].
  apply keeps_bind; [apply _ | | intros _].
  { destruct there; [apply fs_call_rows_kept | apply keeps_ret, _]. }
  apply keeps_bind; [apply _ | apply fs_call_rows_kept | intros _].
  apply keeps_bind; [apply _ | | intros acc].
  { apply keeps_foldM; [apply _ |]. intros acc f _. unfold Promotion.field_step.
    destruct (clientData !! f.1); [| apply keeps_throw, _].
    apply keeps_bind; [apply _ | apply keeps_existsSync, _ | intros; apply keeps_ret, _]. }
  apply keeps_bind; [apply _ | apply update_rows_kept | intros; apply keeps_ret, _].
Qed.

(** The promotion never throws: an error of the move is caught and
    logged. *)
Lemma promote_returns tempClientId clientId clientData fs w :
  ∃ rep, (Promotion.promote E tempClientId clientId clientData fs w).1 = Ret rep.
Proof.
  unfold Promotion.promote, try_catch.
  match goal with
  | |- context [match ?m with _ => _ end] => destruct m as [[rep|e] w']
  end; by eexists.
Qed.

End RecordKept.

(** C7. Promotion verification: each new path is looked up in the file
    store after the move; when one is not there the flag
    [allFilesUpdated] is false and an error names the field; the move
    stays and the row of the client stays, with the new paths.  In
    every case the promotion returns and removes no row. *)
Theorem promotion_verifies (E : Env) (u clientId : string) (clientData : row)
    (fs : files) (w : World) (r : row) :
  let S := "temp-" +:+ u in
  (∃ rep, (Promotion.promote E S clientId clientData fs w).1 = Ret rep)
  ∧ rows_kept w (Promotion.promote E S clientId clientData fs w).2
  ∧ (Path.segment S → Path.segment clientId → no_dollar clientId → clientId ≠ S →
     no_io_fault E → db_fault E clientId (new_paths clientId fs) = false →
     w_fs w !! documents_dir E = Some Dir →
     is_Some (w_fs w !! (documents_dir E ++ [S])) →
     (∀ f, f ∈ fs → clientData !! f.1 = Some (Promotion.staged_path S f.2)) →
     NoDup (fs.*1) → (∀ f, f ∈ fs → f.1 ∈ documentFields) →
     row_of clientId (w_db w) = Some r →
     ∃ b errs w' r',
       Promotion.promote E S clientId clientData fs w = (Ret (Promotion.Moved b errs), w')
       ∧ b = forallb (arrived E clientId (w_fs w')) fs
       ∧ (∀ f, f ∈ fs → arrived E clientId (w_fs w') f = false →
            b = false
            ∧ MsgNotAtNewLocation f.1
                (Path.join (root E) (Promotion.staged_path clientId f.2)) ∈ errs)
       ∧ w_fs w' = relocated E S clientId (w_fs w)
       ∧ Fs.existsSync (w_fs w') (documents_dir E ++ [S]) = false
       ∧ length (w_db w') = length (w_db w)
       ∧ row_of clientId (w_db w') = Some r'
       ∧ (∀ f, f ∈ fs → r' !! f.1 = Some (Promotion.staged_path clientId f.2))).
Proof.
  intros S. split; [apply promote_returns |]. split; [apply promote_rows_kept |].
  intros HS Hc Hd Hne Hio Hdb Hdocs Htemp Hcd Hnd Hflds Hr.
  assert (Hid : "id" ∉ (new_paths clientId fs).*1).
  { rewrite new_paths_keys. intros (f & Hf & Hf')%list_elem_of_fmap.
    apply id_not_document_field. rewrite Hf. by apply Hflds. }
  eexists _, _, _, _.
  split; [eapply (promote_run E u S clientId); eauto |]. simpl.
  split; [done |]. split; [| split; [done | split; [| split; [| split]]]].
  - intros f Hf Hno. split.
    + apply not_true_is_false. intros Hall.
      rewrite forallb_forall in Hall. rewrite Hall in Hno; [done |].
      by apply list_elem_of_In.
    + unfold not_arrived.
      apply (list_elem_of_fmap_2' _ _ f); [| done].
      by apply list_elem_of_filter.
  - apply not_true_is_false. intros Hex%existsSync_snoc.
    rewrite <-(app_nil_r (documents_dir E ++ [S])) in Hex.
    rewrite relocated_source in Hex by done. by destruct Hex.
  - apply update_rows_length.
  - by apply row_of_updated.
  - intros f Hf. apply apply_set.
    + by rewrite new_paths_keys.
    + unfold new_paths. by apply (list_elem_of_fmap_2' _ _ f).
Qed.

(** C7, on an upload of two files of which one is not in the temporary
    folder. *)
Lemma promotion_verifies_witness :
  arrived Ex.env "C123" (relocated Ex.env "temp-ab12" "C123" Ex.staged_nic)
    ("dob_proof", "dob_proof-cd34.pdf") = false
  ∧ ∃ b errs w' r',
      Promotion.promote Ex.env "temp-ab12" "C123" Ex2.two_data Ex2.two_files
        (Ex.world [Ex2.two_data] Ex.staged_nic) = (Ret (Promotion.Moved b errs), w')
      ∧ b = forallb (arrived Ex.env "C123" (w_fs w')) Ex2.two_files
      ∧ (∀ f, f ∈ Ex2.two_files → arrived Ex.env "C123" (w_fs w') f = false →
           b = false
           ∧ MsgNotAtNewLocation f.1
               (Path.join (root Ex.env) (Promotion.staged_path "C123" f.2)) ∈ errs)
      ∧ w_fs w' = relocated Ex.env "temp-ab12" "C123" Ex.staged_nic
      ∧ Fs.existsSync (w_fs w') (documents_dir Ex.env ++ ["temp-ab12"]) = false
      ∧ length (w_db w') = 1
      ∧ row_of "C123" (w_db w') = Some r'
      ∧ (∀ f, f ∈ Ex2.two_files → r' !! f.1 = Some (Promotion.staged_path "C123" f.2)).
Proof.
  split; [by vm_compute |].
  apply (proj2 (proj2 (promotion_verifies Ex.env "ab12" "C123" Ex2.two_data Ex2.two_files
                         (Ex.world [Ex2.two_data] Ex.staged_nic) Ex2.two_data))).
  - by vm_compute.
  - by vm_compute.
  - by vm_compute.
  - by vm_compute.
  - intros p. reflexivity.
  - reflexivity.
  - by vm_compute.
  - exists Dir. by vm_compute.
  - intros f Hf. unfold Ex2.two_files in Hf.
    apply elem_of_cons in Hf as [->|Hf]; [by vm_compute |].
    apply list_elem_of_singleton in Hf as ->. by vm_compute.
  - unfold Ex2.two_files. rewrite !fmap_cons. apply NoDup_cons.
    split; [intros H%list_elem_of_singleton; discriminate H | apply NoDup_singleton].
  - intros f Hf. unfold Ex2.two_files in Hf.
    apply elem_of_cons in Hf as [->|Hf]; [unfold documentFields; do 5 right; left |].
    apply list_elem_of_singleton in Hf as ->. unfold documentFields. do 6 right. left.
  - apply row_of_head. by vm_compute.
Defined.

(** ** Claims on the upload and the deletion of documents *)

(** C8. The canonical form holds of the paths written by the creation
    with documents and by the upload of one document, but not of the
    paths written by the update with documents: for a file that the
    storage puts in the folder of the client, the handler writes a
    path without the id of the client, which is not of the form
    [/uploads/documents/<namespace>/<file>] and names no file. *)
Theorem update_with_documents_path_not_canonical :
  let name := Storage.filename None "nic_proof" "ab12" ".pdf" in
  let stored := Storage.receive Ex.env (Some "C123") "ffff" name "NIC"
                  (Ex.world [Ex3.plain_client] Ex.base) in
  let out := Documents.put_with_documents Ex.env false None "C123" ∅ [("nic_proof", name)]
               stored.2 in
  let single := Documents.post_document Ex.env None "C123" (Some "nic_proof")
                  (Some (Storage.filename (Some "nic_proof") "document" "ab12" ".pdf"))
                  stored.2 in
  let created := Promotion.run Ex.env false None Ex7.body [("nic_proof", name)]
                   "ab12" "ffff0000-aaaa" (Ex.world [] Ex.staged_nic) in
  stored.1 = Ret (documents_dir Ex.env ++ ["C123"; "nic_proof-ab12.pdf"])
  ∧ (out.1 = Ret Success
     ∧ stored_path "C123" "nic_proof" (w_db out.2)
       = Some "/uploads/documents/nic_proof-ab12.pdf"
     ∧ Shape.canonical "/uploads/documents/nic_proof-ab12.pdf" = false
     ∧ Fs.existsSync (w_fs out.2)
         (Path.join (root Ex.env) "/uploads/documents/nic_proof-ab12.pdf") = false)
  ∧ (single.1 = Ret (Uploaded "/uploads/documents/C123/nic_proof-ab12.pdf")
     ∧ stored_path "C123" "nic_proof" (w_db single.2)
       = Some "/uploads/documents/C123/nic_proof-ab12.pdf"
     ∧ Shape.canonical "/uploads/documents/C123/nic_proof-ab12.pdf" = true)
  ∧ (created.1 = Ret (Created "Cffff0000")
     ∧ stored_path "Cffff0000" "nic_proof" (w_db created.2)
       = Some "/uploads/documents/Cffff0000/nic_proof-ab12.pdf"
     ∧ Shape.canonical "/uploads/documents/Cffff0000/nic_proof-ab12.pdf" = true
     ∧ Shape.canonical (Promotion.staged_path "temp-ab12" name) = true).
Proof. repeat split; by vm_compute. Qed.

Section DeleteFacts.
Variable E : Env.

Lemma getById_run id w : Client.getById id w = (Ret (row_of id (w_db w)), w).
Proof. done. Qed.

Lemma row_of_existsb i db r : row_of i db = Some r → existsb (Client.has_id i) db = true.
Proof.
  unfold row_of. induction db as [|r' db IH]; [done |]. cbn [find existsb].
  destruct (Client.has_id i r'); [done | by intros ?%IH].
Qed.

Lemma update_run id k v w r :
  db_fault E id [(k, v)] = false → row_of id (w_db w) = Some r →
  Client.update E id [(k, v)] w
  = (Ret true, {| w_db := Client.update_rows id [(k, v)] (w_db w); w_fs := w_fs w;
                  w_trace := w_trace w ++ [EvUpdate id [(k, v)]] |}).
Proof.
  intros Hdb Hr. unfold Client.update, Client.update_query.
  by rewrite Hdb, (row_of_existsb _ _ _ Hr).
Qed.

End DeleteFacts.

(** C10. Deleting a document of an existing client: when the column
    holds no path the answer is that the document is not found and the
    world is as before; when it holds a path, the file at that path is
    removed if there is one and the column is set to null.  The name of
    the column is any name that a row does not inherit; the path has no
    slash at its end, names no directory, and the calls are not
    refused. *)
Theorem delete_document_spec (E : Env) (user : option User) (id documentType : string)
    (w : World) (existingClient : row) :
  documentType ∉ Js.inherited →
  row_of id (w_db w) = Some existingClient →
  not_owner user existingClient = false →
  (Js.truthy (existingClient !! documentType) = None →
     Documents.delete_document E user id documentType w = (Ret DocumentNotFound, w))
  ∧ (∀ filePath,
       Js.truthy (existingClient !! documentType) = Some filePath →
       let fullPath := Path.join (root E) filePath in
       io_fault E fullPath = false →
       db_fault E id [(documentType, None)] = false →
       Fs.stat (w_fs w) fullPath ≠ Some Dir →
       last (Js.split_slash filePath) ≠ Some "" →
       documentType ≠ "id" →
       ∃ w' r',
         Documents.delete_document E user id documentType w = (Ret Success, w')
         ∧ w_fs w' = delete fullPath (w_fs w)
         ∧ w_db w' = Client.update_rows id [(documentType, None)] (w_db w)
         ∧ row_of id (w_db w') = Some r'
         ∧ r' !! documentType = None).
Proof.
  intros _ Hr Hown. split.
  - intros Hnone. unfold Documents.delete_document. apply try_run.
    erewrite bind_run; [| apply getById_run]. by rewrite Hr, Hown, Hnone.
  - intros filePath Hsome fullPath Hio Hdb Hnd _ Hk.
    assert (Hid : "id" ∉ [(documentType, @None string)].*1).
    { simpl. intros ?%list_elem_of_singleton. done. }
    assert (Hfs : ∃ w1, (if Fs.existsSync (w_fs w) fullPath
                          then unlinkSync E fullPath else ret tt) w = (Ret tt, w1)
                        ∧ w_db w1 = w_db w ∧ w_fs w1 = delete fullPath (w_fs w)).
    { unfold Fs.existsSync. destruct (Fs.stat (w_fs w) fullPath) as [[|c]|] eqn:Hst.
      - by destruct Hnd.
      - eexists. split;
          [unfold unlinkSync; apply fs_call_ok; unfold Fs.unlinkSync; by rewrite Hst, Hio
          | done].
      - exists w. split; [done |]. split; [done |].
        destruct fullPath; [done |]. simpl in Hst. by rewrite delete_id. }
    destruct Hfs as (w1 & Hrun & Hdb1 & Hfs1).
    eexists _, _. split; [| split; [| split; [| split]]].
    + unfold Documents.delete_document. apply try_run.
      erewrite bind_run; [| apply getById_run]. rewrite Hr, Hown, Hsome.
      fold fullPath. erewrite bind_run; [| apply existsSync_run].
      erewrite bind_run; [| exact Hrun].
      erewrite bind_run; [| eapply update_run; [done | by rewrite Hdb1]].
      done.
    + done.
    + simpl. by rewrite Hdb1.
    + simpl. rewrite Hdb1. by apply row_of_updated.
    + apply apply_set; [apply NoDup_singleton | left].
Qed.

Lemma nic_proof_own : "nic_proof" ∉ Js.inherited.
Proof.
  unfold Js.inherited. intros H.
  repeat (apply elem_of_cons in H as [H|H]; [discriminate H |]).
  by apply elem_of_nil in H.
Defined.

(** C10, on a client without documents and on a client with one. *)
Lemma delete_document_spec_witness :
  (Documents.delete_document Ex.env None "C123" "nic_proof"
     (Ex.world [Ex3.plain_client] Ex.base)
   = (Ret DocumentNotFound, Ex.world [Ex3.plain_client] Ex.base))
  ∧ ∃ w' r',
      Documents.delete_document Ex.env None "C123" "nic_proof"
        (Ex.world [Ex3.nic_client] Ex3.nic_in_folder) = (Ret Success, w')
      ∧ w_fs w' = delete (documents_dir Ex.env ++ ["C123"; "nic_proof-ab12.pdf"])
                    Ex3.nic_in_folder
      ∧ w_db w' = Client.update_rows "C123" [("nic_proof", None)] [Ex3.nic_client]
      ∧ row_of "C123" (w_db w') = Some r'
      ∧ r' !! "nic_proof" = None.
Proof.
  split.
  - apply (proj1 (delete_document_spec Ex.env None "C123" "nic_proof"
                    (Ex.world [Ex3.plain_client] Ex.base) Ex3.plain_client
                    nic_proof_own
                    (row_of_head "C123" Ex3.plain_client [] eq_refl) eq_refl)).
    by vm_compute.
  - apply (proj2 (delete_document_spec Ex.env None "C123" "nic_proof"
                    (Ex.world [Ex3.nic_client] Ex3.nic_in_folder) Ex3.nic_client
                    nic_proof_own
                    (row_of_head "C123" Ex3.nic_client [] eq_refl) eq_refl)
             "/uploads/documents/C123/nic_proof-ab12.pdf").
    + by vm_compute.
    + reflexivity.
    + reflexivity.
    + by vm_compute.
    + by vm_compute.
    + done.
Defined.

(** ** The scan *)

Section Relations.

Lemma calls_refl P w : calls P w w.
Proof. exists []. by rewrite app_nil_r. Qed.

Lemma calls_trans P w1 w2 w3 : calls P w1 w2 → calls P w2 w3 → calls P w1 w3.
Proof.
  intros (e1 & H1 & F1) (e2 & H2 & F2). exists (e1 ++ e2).
  split; [by rewrite H2, H1, app_assoc | by apply Forall_app].
Qed.


Global Instance non_destructive_preorder : PreOrder non_destructive.
Proof.
  split.
  - intros w. split; [by intros p | apply calls_refl].
  - intros w1 w2 w3 [H1 C1] [H2 C2]. split; [| by eapply calls_trans].
    intros p Hp. by apply H2, H1.
Qed.

Global Instance read_only_preorder : PreOrder read_only.
Proof.
  split.
  - intros w. split; [done |]. split; [by intros p c | apply calls_refl].
  - intros w1 w2 w3 (D1 & F1 & C1) (D2 & F2 & C2).
    split; [by rewrite D2, D1 |]. split; [| by eapply calls_trans].
    intros p c. etrans; [apply F2 | apply F1].
Qed.


End Relations.

Section CallsKeep.
Variable E : Env.

Lemma one_call (P : event → Prop) w ev db fsys :
  P ev → calls P w {| w_db := db; w_fs := fsys; w_trace := w_trace w ++ [ev] |}.
Proof. intros H. exists [ev]. split; [done | by apply Forall_singleton]. Qed.

Lemma fs_call_world ev op w :
  (fs_call ev op w).2
  = {| w_db := w_db w; w_fs := (op (w_fs w)).1; w_trace := w_trace w ++ [ev] |}.
Proof. unfold fs_call. by destruct (op (w_fs w)).2. Qed.

Lemma mkdirSync_read_only p : keeps read_only (mkdirSync E p).
Proof.
  intros w. unfold mkdirSync. rewrite fs_call_world.
  split; [done |]. split; [| by apply one_call].
  intros q c. simpl. unfold Fs.mkdirSync. split.
  - apply mkdirs_files.
  - intros H. eapply lookup_weaken; [exact H | apply mkdirs_grows].
Qed.


Lemma put_entries fault p c fsys q :
  is_Some (fsys !! q) → is_Some ((Fs.put fault p c fsys).1 !! q).
Proof.
  intros H. unfold Fs.put.
  destruct (Fs.stat fsys p) as [[|c']|]; simpl; [done | |];
    (destruct (Fs.parent_is_dir fsys p); simpl; [done |];
     destruct (fault p); simpl; [done |];
     destruct (decide (p = q)) as [->|];
       [rewrite lookup_insert_eq; by eexists | by rewrite lookup_insert_ne]).
Qed.



Lemma ensure_dir_read_only p : keeps read_only (ensure_dir E p).
Proof.
  apply keeps_bind; [apply _ | apply keeps_existsSync, _ |].
  intros [|]; [apply keeps_ret, _ |].
  apply keeps_bind; [apply _ | apply mkdirSync_read_only | intros; apply keeps_ret, _].
Qed.


End CallsKeep.

Section ScanKeeps.
Variable E : Env.









Lemma getAll_run w : Client.getAll w = (Ret (take 100 (w_db w)), w).
Proof. done. Qed.


End ScanKeeps.

(** ** Claims on the scan *)




(** ** The copy of a staged file *)

Section CopyFacts.
Variable E : Env.



Lemma ensure_dir_child p s w :
  dir_chain (w_fs w) p → no_io_fault E →
  (∀ c, w_fs w !! (p ++ [s]) ≠ Some (File c)) →
  ∃ made : bool,
    ensure_dir E (p ++ [s]) w
    = (Ret made,
       {| w_db := w_db w;
          w_fs := if made then <[p ++ [s] := Dir]> (w_fs w) else w_fs w;
          w_trace := w_trace w ++ if made then [EvMkdir (p ++ [s])] else [] |})
    ∧ (if made then w_fs w !! (p ++ [s]) = None else w_fs w !! (p ++ [s]) = Some Dir).
Proof.
  intros Hchain Hio Hnf. unfold ensure_dir.
  erewrite bind_run; [| apply existsSync_run].
  unfold Fs.existsSync. rewrite stat_snoc.
  destruct (w_fs w !! (p ++ [s])) as [[|c]|] eqn:Hl.
  - exists false. split; [| done]. rewrite app_nil_r. by destruct w.
  - by destruct (Hnf c).
  - exists true. split; [| done].
    erewrite bind_run; [done |]. unfold mkdirSync. apply fs_call_ok.
    rewrite mkdirSync_child by done. by rewrite Hl, Hio.
Qed.

End CopyFacts.


Lemma base_chain (fsys : gmap path node) :
  fsys !! ["srv"] = Some Dir → fsys !! ["srv"; "app"] = Some Dir →
  fsys !! ["srv"; "app"; "uploads"] = Some Dir → fsys !! Ex.docs = Some Dir →
  dir_chain fsys (documents_dir Ex.env).
Proof.
  intros H1 H2 H3 H4.
  change (documents_dir Ex.env) with (((([] ++ ["srv"]) ++ ["app"]) ++ ["uploads"]) ++ ["documents"]).
  repeat apply dir_chain_snoc; try done. apply dir_chain_nil.
Qed.


(** ** The repair *)

(** C3, as the claim states it, fails: for a staged reference without a
    file the repair writes a placeholder and counts it in
    [fixedPaths]. *)
Lemma repair_counts_placeholder :
  let w := Ex.world [Ex6.lost_client] Ex.base in
  let out := Repair.run Ex.env w in
  w_fs w !! (documents_dir Ex.env ++ ["temp-ab12"; "x.pdf"]) = None
  ∧ Repair.fixedPaths <$> returned out.1 = Some 1
  ∧ w_fs out.2 !! (documents_dir Ex.env ++ ["temp-ab12"; "x.pdf"])
    = Some (File "Document placeholder created by repair tool")
  ∧ stored_path "C123" "nic_proof" (w_db out.2) = Some "/uploads/documents/temp-ab12/x.pdf".
Proof. repeat split; by vm_compute. Qed.

(** C3, amended.  For a staged reference whose file is missing, the
    repair writes a file whose content says that it is a placeholder,
    leaves the column as it is, and adds one to [fixedPaths]; for a
    reference that is neither staged nor without the [/uploads] prefix,
    a missing file included, the repair does nothing: no file is
    written, the column stays and [fixedPaths] is not changed. *)
Theorem repair_placeholder_spec (E : Env) (client : row) (fld docPath : string)
    (acc : Repair.Results * update) (w : World) :
  Js.truthy (client !! fld) = Some docPath →
  (∀ tempId filename,
     Shape.match_repair docPath = Some (tempId, filename) →
     Path.segment filename → no_io_fault E →
     dir_chain (w_fs w) (documents_dir E) →
     (∀ c, w_fs w !! (documents_dir E ++ [tempId]) ≠ Some (File c)) →
     w_fs w !! (documents_dir E ++ [tempId; filename]) = None →
     ∃ res' w',
       Repair.field_step E client acc fld w = (Ret (res', acc.2), w')
       ∧ Repair.fixedPaths res' = S (Repair.fixedPaths acc.1)
       ∧ Repair.errors res' = Repair.errors acc.1
       ∧ w_fs w' !! (documents_dir E ++ [tempId; filename]) = Some (File Repair.placeholder)
       ∧ w_db w' = w_db w)
  ∧ (Shape.match_repair docPath = None → Shape.missing_prefix docPath = false →
     Repair.field_step E client acc fld w = (Ret acc, w)).
Proof.
  intros Ht. split.
  - intros tempId filename Hm Hfn Hio Hchain Hnf Hnone.
    destruct (match_repair_parts _ _ _ Hm) as (Htid & _ & _).
    destruct (ensure_dir_child E (documents_dir E) tempId w Hchain Hio Hnf)
      as (made & Hens & Hmade).
    remember (documents_dir E ++ [tempId]) as tempDir eqn:HtempDir.
    remember (tempDir ++ [filename]) as file eqn:Hfile_eq.
    assert (Hfile : documents_dir E ++ [tempId; filename] = file).
    { rewrite Hfile_eq, HtempDir. by rewrite <-app_assoc. }
    rewrite Hfile in *.
    remember (if made then <[tempDir := Dir]> (w_fs w) else w_fs w) as fs1 eqn:Hfs1 in *.
    assert (Htemp_ne : tempDir ≠ []) by (rewrite HtempDir; by destruct (documents_dir E)).
    assert (Hfile_ne : file ≠ []) by (rewrite Hfile_eq; by destruct tempDir).
    assert (Hne : file ≠ tempDir).
    { rewrite Hfile_eq. intros Heq. apply (f_equal length) in Heq.
      rewrite length_app in Heq. simpl in Heq. lia. }
    assert (Hdir : fs1 !! tempDir = Some Dir).
    { subst fs1. destruct made; [by rewrite lookup_insert_eq | done]. }
    assert (Hnone1 : fs1 !! file = None).
    { subst fs1. destruct made; [by rewrite lookup_insert_ne | done]. }
    assert (Hparent : removelast file = tempDir).
    { by rewrite Hfile_eq, removelast_last. }
    assert (Hwrite : Fs.writeFileSync (io_fault E) file Repair.placeholder fs1
                     = (<[file := File Repair.placeholder]> fs1, None)).
    { unfold Fs.writeFileSync, Fs.put, Fs.parent_is_dir.
      rewrite Hparent, !stat_lookup by done. by rewrite Hnone1, Hdir, Hio. }
    eexists _, _. split; [| split; [| split; [| split]]].
    + unfold Repair.field_step. rewrite Ht, Hm.
      rewrite !join_segment by done. rewrite <-HtempDir, <-Hfile_eq.
      erewrite bind_run; [| exact Hens].
      erewrite bind_run; [| apply existsSync_run]. simpl.
      unfold Fs.existsSync. rewrite stat_lookup, Hnone1 by done.
      apply try_run.
      erewrite bind_run; [| unfold writeFileSync; apply fs_call_ok; exact Hwrite].
      reflexivity.
    + by destruct made.
    + by destruct made.
    + simpl. by rewrite lookup_insert_eq.
    + done.
  - intros Hm Hp. unfold Repair.field_step. by rewrite Ht, Hm, Hp.
Qed.

(** C3, amended, on a staged reference without a file. *)
Lemma repair_placeholder_spec_witness :
  Js.truthy (Ex6.lost_client !! "nic_proof") = Some "/uploads/documents/temp-ab12/x.pdf"
  ∧ ∃ res' w',
      Repair.field_step Ex.env Ex6.lost_client Ex6.start "nic_proof"
        (Ex.world [Ex6.lost_client] Ex.base) = (Ret (res', Ex6.start.2), w')
      ∧ Repair.fixedPaths res' = S (Repair.fixedPaths Ex6.start.1)
      ∧ Repair.errors res' = Repair.errors Ex6.start.1
      ∧ w_fs w' !! (documents_dir Ex.env ++ ["temp-ab12"; "x.pdf"])
        = Some (File Repair.placeholder)
      ∧ w_db w' = [Ex6.lost_client].
Proof.
  split; [by vm_compute |].
  apply (proj1 (repair_placeholder_spec Ex.env Ex6.lost_client "nic_proof"
                  "/uploads/documents/temp-ab12/x.pdf" Ex6.start
                  (Ex.world [Ex6.lost_client] Ex.base) ltac:(by vm_compute))
           "temp-ab12" "x.pdf").
  - by vm_compute.
  - by vm_compute.
  - intros p. reflexivity.
  - apply base_chain; by vm_compute.
  - intros c. by vm_compute.
  - by vm_compute.
Defined.

(** ** Claims on the handling of errors *)

(** C9.  A refused update of the database is caught, by the repair and
    by the repair of the prefixes, and a refused copy is caught by the
    scan: the error is reported and the loop goes on to the next
    client.  A refused creation of the folder of a client is not
    caught: the loop is left, the answer is the error, and the counters
    of the clients already repaired are lost, though their rows were
    changed. *)
Theorem repair_aborts_when_folder_cannot_be_made :
  let db := [Ex6.legacy_client "C1"; Ex6.legacy_client "C2"; Ex6.legacy_client "C3"] in
  let w := Ex.world db Ex.base in
  let refused_update := Repair.run Ex6.env_no_update w in
  let refused_mkdir := Repair.run Ex6.env_no_mkdir w in
  let fix_refused_update := Fix.run Ex6.env_no_update w in
  let staged := Ex.world [Ex7.staged_client "C1"; Ex7.staged_client "C2"] Ex.staged_nic in
  let scan_refused_copy := Scan.run Ex7.env_no_copy staged in
  let scan_refused_mkdir := Scan.run Ex6.env_no_mkdir staged in
  (Repair.fixedPaths <$> returned refused_update.1 = Some 3
   ∧ Repair.errors <$> returned refused_update.1 = Some [MsgDatabaseError "C1" EDB]
   ∧ stored_path "C3" "nic_proof" (w_db refused_update.2) = Some "/uploads/documents/C3/a.pdf")
  ∧ (Fix.fixedPaths <$> returned fix_refused_update.1 = Some 3
     ∧ Fix.errors <$> returned fix_refused_update.1 = Some [MsgUpdateFailed "C1" EDB]
     ∧ stored_path "C3" "nic_proof" (w_db fix_refused_update.2)
       = Some "/uploads/documents/C3/a.pdf")
  ∧ (Scan.fixedPaths <$> returned scan_refused_copy.1 = Some 1
     ∧ Scan.errors <$> returned scan_refused_copy.1 = Some [MsgCopyError EACCES]
     ∧ stored_path "C2" "nic_proof" (w_db scan_refused_copy.2)
       = Some "/uploads/documents/C2/nic_proof-ab12.pdf")
  ∧ (refused_mkdir.1 = Throw EACCES
     ∧ stored_path "C1" "nic_proof" (w_db refused_mkdir.2) = Some "/uploads/documents/C1/a.pdf"
     ∧ stored_path "C3" "nic_proof" (w_db refused_mkdir.2) = Some "/documents/C3/a.pdf")
  ∧ (scan_refused_mkdir.1 = Throw EACCES
     ∧ stored_path "C1" "nic_proof" (w_db scan_refused_mkdir.2)
       = Some "/uploads/documents/C1/nic_proof-ab12.pdf"
     ∧ stored_path "C2" "nic_proof" (w_db scan_refused_mkdir.2)
       = Some "/uploads/documents/temp-ab12/nic_proof-ab12.pdf").
Proof. repeat split; by vm_compute. Qed.

(** ** A second run of the repair *)

Section SettledFacts.
Variable E : Env.

Lemma repair_field_settled client res fld w :
  fld ∈ documentFields → 
  (∀ cid, Js.truthy (client !! "id") = Some cid → settled E (w_fs w) client) →
  is_Some (Js.truthy (client !! "id")) →
  pure_run (Repair.field_step E client (res, []) fld) w (res, []).
Proof.
  intros Hfld Hs [cid Hcid]. destruct (Hs cid Hcid cid Hcid) as [_ Hflds].
  destruct (Hflds fld Hfld) as [Hst Hpre].
  unfold pure_run, Repair.field_step.
  destruct (Js.truthy (client !! fld)) as [docPath|] eqn:Ht; [| done].
  destruct (Shape.match_repair docPath) as [[tempId filename]|] eqn:Hm.
  - destruct (Hst docPath tempId filename Ht Hm) as [Hd Hf].
    erewrite bind_run; [| by apply ensure_dir_there].
    erewrite bind_run; [| apply existsSync_run]. by rewrite Hf.
  - by rewrite (Hpre docPath eq_refl Hm).
Qed.

Lemma repair_client_settled client res w :
  settled E (w_fs w) client → pure_run (Repair.client_step E res client) w res.
Proof.
  intros Hs. unfold pure_run, Repair.client_step.
  destruct (Js.truthy (client !! "id")) as [cid|] eqn:Hcid; [| done].
  destruct (Hs cid Hcid) as [Hdir _].
  erewrite bind_run; [| by apply ensure_dir_there].
  erewrite bind_run;
    [| apply foldM_pure; intros fld Hfld;
       apply repair_field_settled; [done | by intros | by rewrite Hcid]].
  done.
Qed.

(** On settled rows the repair changes nothing and counts nothing. *)
Lemma repair_settled_noop w :
  Forall (settled E (w_fs w)) (w_db w) →
  Repair.run E w
  = (Ret {| Repair.clientsProcessed := length (w_db w); Repair.fixedPaths := 0;
            Repair.createdDirectories := 0; Repair.errors := [] |}, w).
Proof.
  intros H. unfold Repair.run. erewrite bind_run; [| done].
  apply foldM_pure. intros client Hc.
  apply repair_client_settled. rewrite Forall_forall in H. by apply H.
Qed.

End SettledFacts.

Section GrowFacts.
Variable E : Env.

Lemma existsSync_mono fs fs' p :
  fs ⊆ fs' → Fs.existsSync fs p = true → Fs.existsSync fs' p = true.
Proof.
  intros Hsub. unfold Fs.existsSync, Fs.stat. destruct p; [done |].
  destruct (fs !! (s :: p)) as [n|] eqn:Hl; [| done].
  by rewrite (lookup_weaken _ _ _ _ Hl Hsub).
Qed.

Lemma staged_there_mono fs fs' client fld :
  fs ⊆ fs' → staged_there E fs client fld → staged_there E fs' client fld.
Proof.
  intros Hsub H docPath tempId filename Ht Hm.
  destruct (H docPath tempId filename Ht Hm). split; by eapply existsSync_mono.
Qed.

Lemma settled_mono fs fs' client :
  fs ⊆ fs' → settled E fs client → settled E fs' client.
Proof.
  intros Hsub H cid Hcid. destruct (H cid Hcid) as [Hd Hf].
  split; [by eapply existsSync_mono |].
  intros fld Hfld. destruct (Hf fld Hfld) as [Hs Hp].
  split; [by eapply staged_there_mono | done].
Qed.

Lemma ensure_dir_post p w :
  post (ensure_dir E p) w
    (λ _ w', w_db w' = w_db w ∧ w_fs w ⊆ w_fs w' ∧ Fs.existsSync (w_fs w') p = true)
    (λ _ _, True).
Proof.
  unfold ensure_dir. apply post_bind. unfold post. rewrite existsSync_run.
  destruct (Fs.existsSync (w_fs w) p) eqn:Hex; [done |].
  unfold bind, mkdirSync, fs_call.
  destruct (Fs.mkdirSync (io_fault E) p (w_fs w)).2 eqn:Hr; [done |]. simpl.
  split; [done |]. split; [apply mkdirs_grows |].
  assert (Hp : p ≠ []) by (intros ->; done).
  eapply existsSync_Some. unfold Fs.mkdirSync.
  rewrite <-(app_nil_l p) at 2. by apply mkdirs_made.
Qed.

Lemma write_post p c w :
  Fs.existsSync (w_fs w) p = false →
  post (writeFileSync E p c) w
    (λ _ w', w_db w' = w_db w ∧ w_fs w ⊆ w_fs w' ∧ Fs.existsSync (w_fs w') p = true)
    (λ _ w', w_db w' = w_db w ∧ w_fs w' = w_fs w).
Proof.
  intros Hex. unfold post, writeFileSync, fs_call, Fs.writeFileSync, Fs.put.
  assert (Hp : p ≠ []) by (intros ->; done).
  unfold Fs.existsSync in Hex. rewrite stat_lookup in * by done.
  destruct (w_fs w !! p) eqn:Hl; [done |].
  destruct (Fs.parent_is_dir (w_fs w) p); simpl; [done |].
  destruct (io_fault E p); simpl; [done |].
  split; [done |]. split; [by apply insert_subseteq |].
  eapply existsSync_Some. apply lookup_insert_eq.
Qed.

End GrowFacts.

Lemma documentFields_NoDup : NoDup documentFields.
Proof.
  unfold documentFields.
  repeat (apply NoDup_cons; split;
          [intros H; repeat (apply elem_of_cons in H as [H|H]; [discriminate H |]);
           by apply elem_of_nil in H |]).
  apply NoDup_nil_2.
Qed.

(** The data of an update that is collected column by column, by a
    function that yields the correction of a column under its name. *)
Section Corrections.
Variable f : row → string → option (string * option string).
Hypothesis f_key : ∀ client fld kv, f client fld = Some kv → kv.1 = fld.

Lemma corrections_keys client flds k : k ∈ (omap (f client) flds).*1 → k ∈ flds.
Proof.
  intros (kv & -> & Hkv)%list_elem_of_fmap.
  apply list_elem_of_omap in Hkv as (fld & Hfld & Hfix).
  by rewrite (f_key _ _ _ Hfix).
Qed.

Lemma corrections_NoDup client flds : NoDup flds → NoDup (omap (f client) flds).*1.
Proof.
  induction flds as [|fld flds IH]; intros Hnd; [apply NoDup_nil_2 |].
  apply NoDup_cons in Hnd as [Hfld Hnd]. cbn [omap list_omap].
  destruct (f client fld) as [kv|] eqn:Hfix; [| by apply IH].
  rewrite fmap_cons. apply NoDup_cons. split; [| by apply IH].
  rewrite (f_key _ _ _ Hfix). by intros ?%corrections_keys.
Qed.

Lemma corrections_no_id client : "id" ∉ (omap (f client) documentFields).*1.
Proof. intros H%corrections_keys. by apply id_not_document_field. Qed.

Lemma apply_corrections_lookup client fld :
  fld ∈ documentFields →
  Client.apply (omap (f client) documentFields) client !! fld
  = match f client fld with
    | Some kv => kv.2
    | None => client !! fld
    end.
Proof.
  intros Hfld. destruct (f client fld) as [kv|] eqn:Hfix.
  - apply apply_set; [apply corrections_NoDup, documentFields_NoDup |].
    pose proof (f_key _ _ _ Hfix) as Hk. destruct kv as [k v]. simpl in Hk. subst k.
    apply list_elem_of_omap. by exists fld.
  - apply apply_other. intros (kv & Hk & Hkv)%list_elem_of_fmap.
    apply list_elem_of_omap in Hkv as (g & Hg & Hfix').
    rewrite (f_key _ _ _ Hfix') in Hk. subst g. congruence.
Qed.

End Corrections.

Section FirstRun.
Variable E : Env.

Lemma fix_of_key client fld kv : fix_of client fld = Some kv → kv.1 = fld.
Proof.
  unfold fix_of. destruct (Js.truthy (client !! fld)) as [p|]; [| done].
  destruct (Shape.match_repair p); [done |].
  destruct (Shape.missing_prefix p); [by intros [= <-] | done].
Qed.

Lemma errors_created r : Repair.errors (Repair.created r) = Repair.errors r.
Proof. done. Qed.

(** One column: the rows stay, the file store grows, the data of the
    update gets the correction of the column, and without an error a
    staged column has its folder and its file. *)
Lemma repair_field_post client acc fld w :
  post (Repair.field_step E client acc fld) w
    (λ acc' w',
       w_db w' = w_db w ∧ w_fs w ⊆ w_fs w'
       ∧ acc'.2 = match fix_of client fld with
                  | Some kv => set_prop kv.1 kv.2 acc.2
                  | None => acc.2
                  end
       ∧ (Repair.errors acc'.1 = [] →
          Repair.errors acc.1 = [] ∧ staged_there E (w_fs w') client fld))
    (λ _ _, True).
Proof.
  unfold Repair.field_step, fix_of, staged_there.
  destruct (Js.truthy (client !! fld)) as [docPath|] eqn:Ht; [| by apply post_ret].
  destruct (Shape.match_repair docPath) as [[tempId filename]|] eqn:Hm.
  - apply post_bind. eapply post_mono; [apply ensure_dir_post | | done].
    intros made w1 (Hdb1 & Hfs1 & Hdir). apply post_bind.
    unfold post at 1. rewrite existsSync_run.
    destruct (Fs.existsSync (w_fs w1)
                (Path.join (Path.join (documents_dir E) tempId) filename)) eqn:Hex.
    + apply post_ret. split; [done |]. split; [done |]. split; [done |].
      simpl. intros Herr. split; [by destruct made |].
      intros ? ? ? [= <-] Hm'. rewrite Hm in Hm'. by injection Hm' as <- <-.
    + apply post_try. apply post_bind.
      eapply post_mono; [by apply write_post | |].
      * intros _ w2 (Hdb2 & Hfs2 & Hfile). apply post_ret.
        split; [by rewrite Hdb2 |]. split; [by etrans |]. split; [done |].
        simpl. intros Herr. split; [by destruct made |].
        intros ? ? ? [= <-] Hm'. rewrite Hm in Hm'. injection Hm' as <- <-.
        split; [by eapply existsSync_mono | done].
      * intros e w2 (Hdb2 & Hfs2). apply post_ret.
        split; [by rewrite Hdb2 |]. split; [by rewrite Hfs2 |]. split; [done |].
        simpl. intros Herr. by apply app_nil in Herr as [_ ?].
  - destruct (Shape.missing_prefix docPath); apply post_ret;
      (split; [done |]; split; [done |]; split; [done |];
       intros Herr; split; [done |]; intros ? ? ? [= <-]; congruence).
Qed.

Lemma fixes_cons client fld flds :
  fixes client (fld :: flds)
  = match fix_of client fld with
    | Some kv => kv :: fixes client flds
    | None => fixes client flds
    end.
Proof. done. Qed.

Lemma fixes_keys client flds k : k ∈ (fixes client flds).*1 → k ∈ flds.
Proof. apply (corrections_keys fix_of fix_of_key). Qed.

(** The loop over the columns. *)
Lemma repair_fields_post client flds acc w :
  NoDup flds → (∀ fld, fld ∈ flds → fld ∉ acc.2.*1) →
  post (foldM (Repair.field_step E client) flds acc) w
    (λ acc' w',
       w_db w' = w_db w ∧ w_fs w ⊆ w_fs w'
       ∧ acc'.2 = acc.2 ++ fixes client flds
       ∧ (Repair.errors acc'.1 = [] →
          Repair.errors acc.1 = []
          ∧ ∀ fld, fld ∈ flds → staged_there E (w_fs w') client fld))
    (λ _ _, True).
Proof.
  revert acc w. induction flds as [|fld flds IH]; intros acc w Hnd Hfresh.
  - apply post_ret. split; [done |]. split; [done |].
    split; [unfold fixes; simpl; by rewrite app_nil_r |].
    intros Herr. split; [done |]. intros g Hg. by apply elem_of_nil in Hg.
  - apply NoDup_cons in Hnd as [Hfld Hnd]. cbn [foldM]. apply post_bind.
    eapply post_mono; [apply repair_field_post | | done].
    intros acc1 w1 (Hdb1 & Hfs1 & Hupd1 & Herr1).
    assert (Hupd1' : acc1.2 = acc.2 ++ match fix_of client fld with
                                       | Some kv => [kv]
                                       | None => []
                                       end).
    { rewrite Hupd1. destruct (fix_of client fld) as [kv|] eqn:Hfix;
        [| by rewrite app_nil_r].
      pose proof (fix_of_key _ _ _ Hfix) as Hk. destruct kv as [k v].
      simpl in Hk. subst k. apply set_prop_fresh. apply Hfresh. left. }
    eapply post_mono; [apply IH; [done |] | | done].
    + intros g Hg. rewrite Hupd1', fmap_app. intros [Hin|Hin]%elem_of_app.
      * by apply (Hfresh g); [right |].
      * destruct (fix_of client fld) as [kv|] eqn:Hfix; [| by apply elem_of_nil in Hin].
        apply list_elem_of_singleton in Hin. rewrite (fix_of_key _ _ _ Hfix) in Hin.
        by subst g.
    + intros acc2 w2 (Hdb2 & Hfs2 & Hupd2 & Herr2).
      split; [by rewrite Hdb2 |]. split; [by etrans |]. split.
      * rewrite Hupd2, Hupd1', fixes_cons, <-app_assoc.
        by destruct (fix_of client fld).
      * intros Herr. destruct (Herr2 Herr) as [Herr1' Hst2].
        destruct (Herr1 Herr1') as [Herr0 Hst1]. split; [done |].
        intros g [->|Hg]%elem_of_cons; [by eapply staged_there_mono | by apply Hst2].
Qed.

End FirstRun.

Section AfterFirstRun.
Variable E : Env.

Lemma fixes_no_id client : "id" ∉ (fixes client documentFields).*1.
Proof. apply (corrections_no_id fix_of fix_of_key). Qed.

Lemma apply_fixes_lookup client fld :
  fld ∈ documentFields →
  Client.apply (fixes client documentFields) client !! fld
  = match fix_of client fld with
    | Some kv => kv.2
    | None => client !! fld
    end.
Proof. apply (apply_corrections_lookup fix_of fix_of_key). Qed.

Lemma truthy_Some v s : Js.truthy v = Some s → v = Some s ∧ s ≠ "".
Proof. destruct v as [[|c t]|]; simpl; [done | | done]. by intros [= <-]. Qed.

Lemma truthy_fixed p : Js.truthy (Some ("/uploads" +:+ p)) = Some ("/uploads" +:+ p).
Proof. done. Qed.

Lemma missing_prefix_fixed p : Shape.missing_prefix ("/uploads" +:+ p) = false.
Proof. done. Qed.

(** The row with its corrections is settled. *)
Lemma settled_fixed client fsys :
  (∀ cid, Js.truthy (client !! "id") = Some cid →
     Fs.existsSync fsys (Path.join (documents_dir E) cid) = true) →
  (∀ fld, fld ∈ documentFields → staged_there E fsys client fld) →
  (∀ fld p, fld ∈ documentFields → Js.truthy (client !! fld) = Some p →
     Shape.missing_prefix p = true → Shape.match_repair ("/uploads" +:+ p) = None) →
  settled E fsys (Client.apply (fixes client documentFields) client).
Proof.
  intros Hdir Hst Hleg cid Hcid.
  rewrite apply_other in Hcid by apply fixes_no_id.
  split; [by apply Hdir |]. intros fld Hfld.
  unfold staged_there. rewrite apply_fixes_lookup by done.
  unfold fix_of.
  destruct (Js.truthy (client !! fld)) as [p|] eqn:Ht.
  - destruct (Shape.match_repair p) as [[t n]|] eqn:Hm.
    + rewrite Ht. split.
      * intros ? ? ? [= <-] Hm'. by apply (Hst fld Hfld p).
      * intros ? [= <-]. congruence.
    + destruct (Shape.missing_prefix p) eqn:Hp; cbn [snd].
      * rewrite truthy_fixed. split.
        -- intros ? ? ? [= <-]. by rewrite (Hleg fld p).
        -- intros ? [= <-] _. apply missing_prefix_fixed.
      * rewrite Ht. split.
        -- intros ? ? ? [= <-]. congruence.
        -- intros ? [= <-]. done.
  - rewrite Ht. split; [intros ? ? ? [=] | intros ? [=]].
Qed.

Lemma ids_cons (r : row) (l : list row) :
  omap (λ r : row, r !! "id") (r :: l)
  = match r !! "id" with
    | Some i => i :: omap (λ r : row, r !! "id") l
    | None => omap (λ r : row, r !! "id") l
    end.
Proof. done. Qed.

Lemma update_rows_middle cid data (l1 l2 : list row) c :
  distinct_ids (l1 ++ c :: l2) → c !! "id" = Some cid →
  Client.update_rows cid data (l1 ++ c :: l2) = l1 ++ Client.apply data c :: l2.
Proof.
  unfold distinct_ids. rewrite omap_app, ids_cons. intros Hnd Hc. rewrite Hc in Hnd.
  apply NoDup_app in Hnd as (_ & Hl1 & Hl2). apply NoDup_cons in Hl2 as [Hl2 _].
  assert (Hother : ∀ l : list row, cid ∉ omap (λ r : row, r !! "id") l →
            Client.update_rows cid data l = l).
  { intros l Hl. unfold Client.update_rows. induction l as [|r l IH]; [done |].
    rewrite fmap_cons. rewrite ids_cons in Hl.
    destruct (r !! "id") as [i|] eqn:Hr.
    - apply not_elem_of_cons in Hl as [Hne Hl]. rewrite IH by done.
      unfold Client.has_id. rewrite Hr. rewrite bool_decide_false; [done | congruence].
    - rewrite IH by done. unfold Client.has_id. rewrite Hr.
      by rewrite bool_decide_false. }
  unfold Client.update_rows in *. rewrite fmap_app, fmap_cons.
  rewrite Hother.
  - rewrite Hother by done. unfold Client.has_id. by rewrite Hc, bool_decide_true.
  - intros Hin. apply (Hl1 cid Hin). left.
Qed.

Lemma distinct_ids_replace (l1 l2 : list row) c c' :
  c' !! "id" = c !! "id" → distinct_ids (l1 ++ c :: l2) → distinct_ids (l1 ++ c' :: l2).
Proof. unfold distinct_ids. rewrite !omap_app, !ids_cons. by intros ->. Qed.

End AfterFirstRun.

Section RunPost.
Variable E : Env.

(** The columns of [c] without the [/uploads] prefix name no temporary
    folder. *)
Local Abbreviation legacy_ok c :=
  (∀ fld p, fld ∈ documentFields → Js.truthy (c !! fld) = Some p →
     Shape.missing_prefix p = true → Shape.match_repair ("/uploads" +:+ p) = None).

(** One client: its row is replaced by a row of the same id, the file
    store grows, and without an error the new row is settled. *)
Lemma repair_client_post res (c : row) w :
  legacy_ok c →
  post (Repair.client_step E res c) w
    (λ res' w',
       ∃ c' : row,
         c' !! "id" = c !! "id"
         ∧ (∀ l1 l2, w_db w = l1 ++ c :: l2 → distinct_ids (l1 ++ c :: l2) →
              w_db w' = l1 ++ c' :: l2)
         ∧ w_fs w ⊆ w_fs w'
         ∧ (Repair.errors res' = [] → Repair.errors res = [] ∧ settled E (w_fs w') c'))
    (λ _ _, True).
Proof.
  intros Hleg. unfold Repair.client_step.
  destruct (Js.truthy (c !! "id")) as [cid|] eqn:Hcid.
  2:{ apply post_ret. exists c. split; [done |]. split; [done |]. split; [done |].
      intros Herr. split; [done |]. intros cid Hcid'. congruence. }
  destruct (truthy_Some _ _ Hcid) as [Hid _].
  apply post_bind. eapply post_mono; [apply ensure_dir_post | | done].
  intros made w1 (Hdb1 & Hfs1 & Hdir1). apply post_bind.
  eapply post_mono;
    [apply (repair_fields_post E c documentFields);
       [apply documentFields_NoDup | intros; apply not_elem_of_nil] | | done].
  intros acc2 w2 (Hdb2 & Hfs2 & Hupd2 & Herr2). cbn [fst snd] in Hupd2, Herr2.
  rewrite app_nil_l in Hupd2.
  assert (Hsettled : Repair.errors acc2.1 = [] →
            Repair.errors res = []
            ∧ ∀ fsys, w_fs w2 ⊆ fsys →
                settled E fsys (Client.apply (fixes c documentFields) c)).
  { intros Herr. destruct (Herr2 Herr) as [Herr1 Hst]. split; [by destruct made |].
    intros fsys Hsub. apply settled_fixed; [| | done].
    - intros cid' Hcid'. rewrite Hcid in Hcid'. injection Hcid' as <-.
      eapply existsSync_mono; [| done]. by etrans.
    - intros fld Hfld. eapply staged_there_mono; [done | by apply Hst]. }
  rewrite Hupd2. destruct (fixes c documentFields) as [|kv data] eqn:Hfix.
  - apply post_ret. exists c. split; [done |]. split; [| split; [by etrans |]].
    + intros l1 l2 Hw _. by rewrite Hdb2, Hdb1.
    + intros Herr. destruct (Hsettled Herr) as [Herr0 Hs]. split; [done |].
      by apply (Hs (w_fs w2)).
  - apply post_try. apply post_bind. unfold post at 1, Client.update_query.
    destruct (db_fault E cid (kv :: data)).
    + apply post_ret. exists c. split; [done |]. split; [| split; [by etrans |]].
      * intros l1 l2 Hw _. by rewrite Hdb2, Hdb1.
      * simpl. intros Herr. by apply app_nil in Herr as [_ ?].
    + apply post_ret. exists (Client.apply (kv :: data) c).
      split; [| split; [| split; [by etrans |]]].
      * apply apply_other. rewrite <-Hfix. apply fixes_no_id.
      * intros l1 l2 Hw Hnd. cbn [w_db]. rewrite Hdb2, Hdb1, Hw.
        by apply update_rows_middle.
      * cbn [w_fs]. intros Herr. destruct (Hsettled Herr) as [Herr0 Hs]. split; [done |].
        by apply Hs.
Qed.

(** The loop over the clients: without an error every row is settled
    at the end. *)
Lemma repair_clients_post (todo done' : list row) res w :
  w_db w = done' ++ todo → distinct_ids (done' ++ todo) →
  (∀ c, c ∈ todo → legacy_ok c) →
  (Repair.errors res = [] → Forall (settled E (w_fs w)) done') →
  post (foldM (Repair.client_step E) todo res) w
    (λ res' w', Repair.errors res' = [] → Forall (settled E (w_fs w')) (w_db w'))
    (λ _ _, True).
Proof.
  revert done' res w. induction todo as [|c todo IH]; intros done' res w Hdb Hnd Hleg Hdone.
  - apply post_ret. rewrite Hdb, app_nil_r. exact Hdone.
  - cbn [foldM]. apply post_bind.
    eapply post_mono; [apply repair_client_post; apply Hleg; left | | done].
    intros res1 w1 (c' & Hid & Hdb1 & Hfs1 & Herr1).
    apply (IH (done' ++ [c'])).
    + rewrite <-app_assoc. by apply Hdb1.
    + rewrite <-app_assoc. by eapply distinct_ids_replace.
    + intros c0 Hc0. apply Hleg. by right.
    + intros Herr. destruct (Herr1 Herr) as [Herr0 Hs].
      apply Forall_app. split; [| by apply Forall_singleton].
      eapply Forall_impl; [by apply Hdone |]. intros r. by apply settled_mono.
Qed.

End RunPost.

(** ** A second run of the repair of the prefixes *)

Section FixFields.

Lemma prefix_fix_of_key client fld kv : prefix_fix_of client fld = Some kv → kv.1 = fld.
Proof.
  unfold prefix_fix_of. destruct (Js.truthy (client !! fld)) as [p|]; [| done].
  destruct (Shape.missing_prefix p); [by intros [= <-] | done].
Qed.

Lemma omap_cons {A B} (f : A → option B) x l :
  omap f (x :: l) = match f x with
                    | Some y => y :: omap f l
                    | None => omap f l
                    end.
Proof. done. Qed.

(** One column: the data of the update gets the correction of the
    column, which is counted. *)
Lemma fix_field_step client acc fld :
  fld ∉ (Fix.updates acc).*1 →
  Fix.updates (Fix.field_step client acc fld)
  = Fix.updates acc ++ omap (prefix_fix_of client) [fld]
  ∧ Fix.errors (Fix.res (Fix.field_step client acc fld)) = Fix.errors (Fix.res acc)
  ∧ Fix.details (Fix.res (Fix.field_step client acc fld)) = Fix.details (Fix.res acc)
  ∧ Fix.fixedPaths (Fix.res (Fix.field_step client acc fld))
    = Fix.fixedPaths (Fix.res acc) + length (omap (prefix_fix_of client) [fld]).
Proof.
  intros Hfresh. rewrite omap_cons. unfold Fix.field_step, prefix_fix_of.
  destruct (Js.truthy (client !! fld)) as [p|];
    [| by rewrite app_nil_r, Nat.add_0_r].
  destruct (Shape.missing_prefix p); cbn.
  - rewrite set_prop_fresh by done. repeat split. lia.
  - by rewrite app_nil_r, Nat.add_0_r.
Qed.

(** The loop over the columns. *)
Lemma fix_fields client flds acc :
  NoDup flds → (∀ fld, fld ∈ flds → fld ∉ (Fix.updates acc).*1) →
  Fix.updates (foldl (Fix.field_step client) acc flds)
  = Fix.updates acc ++ omap (prefix_fix_of client) flds
  ∧ Fix.errors (Fix.res (foldl (Fix.field_step client) acc flds)) = Fix.errors (Fix.res acc)
  ∧ Fix.details (Fix.res (foldl (Fix.field_step client) acc flds)) = Fix.details (Fix.res acc)
  ∧ Fix.fixedPaths (Fix.res (foldl (Fix.field_step client) acc flds))
    = Fix.fixedPaths (Fix.res acc) + length (omap (prefix_fix_of client) flds).
Proof.
  revert acc. induction flds as [|fld flds IH]; intros acc Hnd Hfresh.
  - cbn. by rewrite app_nil_r, Nat.add_0_r.
  - apply NoDup_cons in Hnd as [Hfld Hnd].
    destruct (fix_field_step client acc fld) as (Hu & He & Hd & Hf); [apply Hfresh; left |].
    cbn [foldl].
    destruct (IH (Fix.field_step client acc fld) Hnd) as (Hu' & He' & Hd' & Hf').
    { intros g Hg. rewrite Hu, fmap_app. intros [Hin|Hin]%elem_of_app.
      - by apply (Hfresh g); [right |].
      - apply corrections_keys in Hin; [| apply prefix_fix_of_key].
        apply list_elem_of_singleton in Hin. by subst g. }
    rewrite Hu', He', Hd', Hf', Hu, He, Hd, Hf.
    rewrite <-app_assoc, (omap_cons _ fld flds). rewrite (omap_cons _ fld []).
    destruct (prefix_fix_of client fld); cbn; repeat split; lia.
Qed.

Lemma prefixed_no_fix client flds :
  prefixed client → (∀ fld, fld ∈ flds → fld ∈ documentFields) →
  omap (prefix_fix_of client) flds = [].
Proof.
  intros Hp. induction flds as [|fld flds IH]; intros Hsub; [done |].
  rewrite omap_cons, IH by (intros g Hg; apply Hsub; by right).
  unfold prefix_fix_of. destruct (Js.truthy (client !! fld)) as [p|] eqn:Ht; [| done].
  by rewrite (Hp fld p) by (done || apply Hsub; left).
Qed.

Lemma no_fix_prefixed client :
  omap (prefix_fix_of client) documentFields = [] → prefixed client.
Proof.
  intros Hnil fld p Hfld Ht. destruct (Shape.missing_prefix p) eqn:Hp; [| done].
  assert (Hin : (fld, Some ("/uploads" +:+ p)) ∈ omap (prefix_fix_of client) documentFields).
  { apply list_elem_of_omap. exists fld. split; [done |].
    unfold prefix_fix_of. by rewrite Ht, Hp. }
  rewrite Hnil in Hin. by apply elem_of_nil in Hin.
Qed.

(** The row with its corrections has its prefixes. *)
Lemma prefixed_fixed client :
  prefixed (Client.apply (omap (prefix_fix_of client) documentFields) client).
Proof.
  intros fld p Hfld.
  rewrite (apply_corrections_lookup prefix_fix_of prefix_fix_of_key) by done.
  unfold prefix_fix_of. destruct (Js.truthy (client !! fld)) as [q|] eqn:Ht.
  - destruct (Shape.missing_prefix q) eqn:Hq; cbn [snd].
    + rewrite truthy_fixed. intros [= <-]. apply missing_prefix_fixed.
    + rewrite Ht. by intros [= <-].
  - by rewrite Ht.
Qed.

End FixFields.

Section FixRun.
Variable E : Env.

(** A row with its prefixes: no call, nothing counted. *)
Lemma fix_client_prefixed res c w :
  prefixed c → ∃ res', Fix.client_step E res c w = (Ret res', w) ∧ fix_idle res res'.
Proof.
  intros Hp. unfold Fix.client_step.
  destruct (Js.truthy (c !! "id")) as [cid|]; [| eexists; split; [reflexivity | done]].
  cbv zeta.
  destruct (fix_fields c documentFields
              {| Fix.res := res;
                 Fix.cres := {| Fix.clientId := cid; Fix.clientName := c !! "client_name";
                                Fix.pathsChecked := 0; Fix.pathsFixed := 0 |};
                 Fix.updates := [] |})
    as (Hu & _ & Hd & Hf);
    [apply documentFields_NoDup | intros; apply not_elem_of_nil |].
  rewrite prefixed_no_fix in Hu, Hf by done.
  cbn [Fix.updates Fix.res Fix.details Fix.fixedPaths app length] in Hu, Hd, Hf.
  rewrite Hu. eexists. split; [reflexivity |].
  split; [by rewrite Hf, Nat.add_0_r | done].
Qed.

Lemma fix_clients_prefixed l res w :
  Forall prefixed l →
  ∃ res', foldM (Fix.client_step E) l res w = (Ret res', w) ∧ fix_idle res res'.
Proof.
  revert res. induction l as [|c l IH]; intros res H.
  - eexists. split; [reflexivity | done].
  - apply Forall_cons in H as [Hc Hl].
    destruct (fix_client_prefixed res c w Hc) as (r1 & Hr1 & Hf1 & Hd1).
    destruct (IH r1 Hl) as (r2 & Hr2 & Hf2 & Hd2).
    exists r2. split; [| split; congruence].
    cbn [foldM]. by erewrite bind_run.
Qed.

(** One client: its row is replaced by a row of the same id, and
    without an error the new row has its prefixes. *)
Lemma fix_client_post res (c : row) w :
  post (Fix.client_step E res c) w
    (λ res' w',
       ∃ c' : row,
         c' !! "id" = c !! "id"
         ∧ (∀ l1 l2, w_db w = l1 ++ c :: l2 → distinct_ids (l1 ++ c :: l2) →
              w_db w' = l1 ++ c' :: l2)
         ∧ (Fix.errors res' = [] → Fix.errors res = [] ∧ prefixed c'))
    (λ _ _, True).
Proof.
  unfold Fix.client_step.
  destruct (Js.truthy (c !! "id")) as [cid|] eqn:Hcid.
  2:{ apply post_ret. exists c. split; [done |]. split; [done |].
      simpl. intros Herr. by apply app_nil in Herr as [_ ?]. }
  destruct (truthy_Some _ _ Hcid) as [Hid _]. cbv zeta.
  destruct (fix_fields c documentFields
              {| Fix.res := res;
                 Fix.cres := {| Fix.clientId := cid; Fix.clientName := c !! "client_name";
                                Fix.pathsChecked := 0; Fix.pathsFixed := 0 |};
                 Fix.updates := [] |})
    as (Hu & He & _ & _);
    [apply documentFields_NoDup | intros; apply not_elem_of_nil |].
  cbn [Fix.updates Fix.res Fix.errors app] in Hu, He. rewrite Hu.
  destruct (omap (prefix_fix_of c) documentFields) as [|kv data] eqn:Hfix.
  - apply post_ret. exists c. split; [done |]. split; [done |].
    intros Herr. split; [by rewrite <-He | by apply no_fix_prefixed].
  - apply post_try. apply post_bind. unfold post at 1, Client.update, Client.update_query.
    destruct (db_fault E cid (kv :: data)).
    + apply post_ret. exists c. split; [done |]. split; [done |].
      simpl. intros Herr. by apply app_nil in Herr as [_ ?].
    + apply post_ret. exists (Client.apply (kv :: data) c). split; [| split].
      * apply apply_other. rewrite <-Hfix.
        apply (corrections_no_id prefix_fix_of prefix_fix_of_key).
      * intros l1 l2 Hw Hnd. cbn [w_db]. rewrite Hw. by apply update_rows_middle.
      * intros Herr. split; [rewrite <-He; exact Herr |].
        rewrite <-Hfix. apply prefixed_fixed.
Qed.

(** The loop over the clients: without an error every row it went
    through has its prefixes at the end. *)
Lemma fix_clients_post (todo done' rest : list row) res w :
  w_db w = done' ++ todo ++ rest → distinct_ids (done' ++ todo ++ rest) →
  (Fix.errors res = [] → Forall prefixed done') →
  post (foldM (Fix.client_step E) todo res) w
    (λ res' w',
       ∃ done'' : list row,
         w_db w' = done'' ++ rest
         ∧ length done'' = length done' + length todo
         ∧ (Fix.errors res' = [] → Forall prefixed done''))
    (λ _ _, True).
Proof.
  revert done' res w. induction todo as [|c todo IH]; intros done' res w Hdb Hnd Hdone.
  - apply post_ret. exists done'. split; [done |]. split; [simpl; lia | done].
  - cbn [foldM]. apply post_bind.
    eapply post_mono; [apply fix_client_post | | done].
    intros res1 w1 (c' & Hid & Hdb1 & Herr1).
    eapply post_mono; [apply (IH (done' ++ [c'])) | | done].
    + rewrite <-app_assoc. by apply Hdb1.
    + rewrite <-app_assoc. by eapply distinct_ids_replace.
    + intros Herr. destruct (Herr1 Herr) as [Herr0 Hp].
      apply Forall_app. split; [by apply Hdone | by apply Forall_singleton].
    + intros res2 w2 (d & Hdb2 & Hlen & Hp2). exists d. split; [done |].
      split; [| done]. rewrite Hlen, length_app. simpl. lia.
Qed.

(** After a run without errors the rows the repair of the prefixes
    reads have their prefixes. *)
Lemma fix_run_post w :
  distinct_ids (w_db w) →
  post (Fix.run E) w
    (λ res' w', Fix.errors res' = [] → Forall prefixed (take 100 (w_db w')))
    (λ _ _, True).
Proof.
  intros Hnd. unfold Fix.run. apply post_bind. unfold post at 1. rewrite getAll_run.
  eapply post_mono;
    [apply (fix_clients_post (take 100 (w_db w)) [] (drop 100 (w_db w))) | | done].
  - simpl. by rewrite take_drop.
  - simpl. by rewrite take_drop.
  - by intros _.
  - intros res' w' (d & Hdb & Hlen & Hp) Herr. rewrite Hdb.
    simpl in Hlen. rewrite length_take in Hlen.
    destruct (Nat.le_gt_cases 100 (length (w_db w))) as [Hle|Hgt].
    + rewrite take_app_length' by lia. by apply Hp.
    + rewrite drop_ge, app_nil_r by lia. rewrite take_ge by lia. by apply Hp.
Qed.

End FixRun.
(** ** Claims on a second run of the repair *)

(** C4, as the claim states it, fails: a path without the [/uploads]
    prefix that names a temporary folder gets its prefix in the first
    run, and its folder and a placeholder in the second run, which
    reports one fixed path. *)
Lemma repair_second_run_fixes :
  let w := Ex.world [Ex6.legacy_staged_client] Ex.base in
  let first := Repair.run Ex.env w in
  let second := Repair.run Ex.env first.2 in
  Repair.errors <$> returned first.1 = Some []
  ∧ Repair.fixedPaths <$> returned second.1 = Some 1
  ∧ w_trace first.2
    = [ EvMkdir (documents_dir Ex.env ++ ["C123"]);
        EvUpdate "C123" [("nic_proof", Some "/uploads/documents/temp-ab12/x.pdf")] ]
  ∧ w_trace second.2
    = w_trace first.2
      ++ [ EvMkdir (documents_dir Ex.env ++ ["temp-ab12"]);
           EvWrite (documents_dir Ex.env ++ ["temp-ab12"; "x.pdf"]) ].
Proof. repeat split; by vm_compute. Qed.

(** C4, amended.  Repair is idempotent after a run without errors on
    rows whose paths without the [/uploads] prefix name no temporary
    folder: the second run issues no call, leaves the world as it is,
    and reports no fixed path and no created directory.  The repair of
    the prefixes, [fix-document-paths], is idempotent after a run
    without errors, whatever the paths: its second run leaves the world
    as it is and reports no fixed path. *)
Theorem repair_second_run_idle (E : Env) :
  (∀ (w w1 : World) (r1 : Repair.Results),
     distinct_ids (w_db w) → no_staged_legacy (w_db w) →
     Repair.run E w = (Ret r1, w1) → Repair.errors r1 = [] →
     Repair.run E w1
     = (Ret {| Repair.clientsProcessed := length (w_db w1); Repair.fixedPaths := 0;
               Repair.createdDirectories := 0; Repair.errors := [] |}, w1))
  ∧ (∀ (w w1 : World) (r1 : Fix.Results),
       distinct_ids (w_db w) →
       Fix.run E w = (Ret r1, w1) → Fix.errors r1 = [] →
       ∃ r2, Fix.run E w1 = (Ret r2, w1) ∧ Fix.fixedPaths r2 = 0 ∧ Fix.details r2 = []).
Proof.
  split.
  - intros w w1 r1 Hnd Hleg Hrun Herr. apply repair_settled_noop.
    assert (Hpost : post (Repair.run E) w
              (λ res' w', Repair.errors res' = [] → Forall (settled E (w_fs w')) (w_db w'))
              (λ _ _, True)).
    { unfold Repair.run. apply post_bind. unfold post at 1. simpl.
      apply (repair_clients_post E (w_db w) []); try done.
      intros c Hc fld p. by apply Hleg. }
    by apply (post_run _ _ _ _ _ _ Hpost Hrun).
  - intros w w1 r1 Hnd Hrun Herr.
    pose proof (post_run _ _ _ _ _ _ (fix_run_post E w Hnd) Hrun Herr) as Hall.
    unfold Fix.run. erewrite bind_run; [| apply getAll_run].
    destruct (fix_clients_prefixed E (take 100 (w_db w1))
                {| Fix.totalClients := length (take 100 (w_db w1)); Fix.checkedPaths := 0;
                   Fix.fixedPaths := 0; Fix.errors := []; Fix.details := [] |} w1 Hall)
      as (r2 & Hr2 & Hf & Hd).
    by exists r2.
Qed.

Lemma returned_eta {A} (o : outcome A * World) (a : A) :
  returned o.1 = Some a → o = (Ret a, o.2).
Proof. destruct o as [[a'|e] w]; simpl; [by intros [= ->] | done]. Qed.

(** C4, amended, on a client whose reference misses the prefix. *)
Lemma repair_second_run_idle_witness :
  let w := Ex.world [Ex6.legacy_client "C1"] Ex.base in
  let w1 := (Repair.run Ex.env w).2 in
  let w2 := (Fix.run Ex.env w).2 in
  Repair.fixedPaths <$> returned (Repair.run Ex.env w).1 = Some 1
  ∧ Repair.run Ex.env w1
    = (Ret {| Repair.clientsProcessed := length (w_db w1); Repair.fixedPaths := 0;
              Repair.createdDirectories := 0; Repair.errors := [] |}, w1)
  ∧ Fix.fixedPaths <$> returned (Fix.run Ex.env w).1 = Some 1
  ∧ ∃ r2, Fix.run Ex.env w2 = (Ret r2, w2) ∧ Fix.fixedPaths r2 = 0 ∧ Fix.details r2 = [].
Proof.
  intros w w1 w2.
  assert (Hnd : distinct_ids (w_db w)).
  { unfold distinct_ids. by vm_compute; apply NoDup_singleton. }
  split; [by vm_compute |]. split; [| split; [by vm_compute |]].
  - apply (proj1 (repair_second_run_idle Ex.env) w w1
             {| Repair.clientsProcessed := 1; Repair.fixedPaths := 1;
                Repair.createdDirectories := 1; Repair.errors := [] |}).
    + exact Hnd.
    + intros client fld docPath Hc Hf.
      apply list_elem_of_singleton in Hc as ->.
      unfold documentFields in Hf.
      repeat (apply elem_of_cons in Hf as [->|Hf]; [by vm_compute; intros [= <-] |]).
      by apply elem_of_nil in Hf.
    + apply returned_eta. by vm_compute.
    + reflexivity.
  - apply (proj2 (repair_second_run_idle Ex.env) w w2
             {| Fix.totalClients := 1; Fix.checkedPaths := 1; Fix.fixedPaths := 1;
                Fix.errors := [];
                Fix.details := [ {| Fix.clientId := "C1"; Fix.clientName := Some "Ann";
                                    Fix.pathsChecked := 1; Fix.pathsFixed := 1 |} ] |}).
    + exact Hnd.
    + apply returned_eta. by vm_compute.
    + reflexivity.
Defined.
(** * Further properties *)

(** ** The record store *)

Section StoreFacts.
Implicit Types (r : row) (db : list row).

Lemma row_of_None i db : row_of i db = None ↔ existsb (Client.has_id i) db = false.
Proof.
  unfold row_of. induction db as [|r db IH]; [done |]. cbn [find existsb].
  destruct (Client.has_id i r); [done | exact IH].
Qed.



Lemma row_of_filter_eq i db :
  row_of i (filter (λ r, Client.has_id i r = false) db) = None.
Proof.
  unfold row_of. induction db as [|r db IH]; [done |].
  rewrite filter_cons. destruct (decide (Client.has_id i r = false)) as [Hr|Hr]; [| done].
  cbn [find]. by rewrite Hr.
Qed.

Lemma row_of_filter_ne i j db :
  i ≠ j → row_of j (filter (λ r, Client.has_id i r = false) db) = row_of j db.
Proof.
  intros Hne. unfold row_of. induction db as [|r db IH]; [done |].
  rewrite filter_cons. destruct (decide (Client.has_id i r = false)) as [Hr|Hr].
  - cbn [find]. by rewrite IH.
  - cbn [find]. rewrite IH. apply not_false_is_true in Hr.
    unfold Client.has_id in *. apply bool_decide_eq_true in Hr.
    rewrite bool_decide_false; [done | congruence].
Qed.

End StoreFacts.





(** ** The removal of a client *)

Section RemovalFacts.
Variable E : Env.

Lemma stat_delete (fsys : gmap path node) p q :
  Fs.stat fsys q ≠ Some Dir → Fs.stat (delete p fsys) q ≠ Some Dir.
Proof.
  destruct q as [|s q]; [done |]. cbn [Fs.stat]. intros H.
  destruct (decide (p = s :: q)) as [->|Hne];
    [by rewrite lookup_delete_eq | by rewrite lookup_delete_ne].
Qed.

Lemma lookup_foldl_delete (ps : list path) (fsys : gmap path node) q :
  foldl (λ fs p, delete p fs) fsys ps !! q = if decide (q ∈ ps) then None else fsys !! q.
Proof.
  revert fsys. induction ps as [|p ps IH]; intros fsys; [done |]. cbn [foldl].
  rewrite IH. destruct (decide (q ∈ ps)) as [Hin|Hin].
  - rewrite decide_True; [done | by right].
  - destruct (decide (q = p)) as [->|Hne].
    + rewrite decide_True by left. apply lookup_delete_eq.
    + rewrite decide_False; [by rewrite lookup_delete_ne |].
      by intros [?|?]%elem_of_cons.
Qed.

(** The old file of a column is removed when there is one. *)
Lemma delete_old_run (r : row) k w :
  (∀ docPath, Js.truthy (r !! k) = Some docPath →
     io_fault E (Path.join (root E) docPath) = false
     ∧ Fs.stat (w_fs w) (Path.join (root E) docPath) ≠ Some Dir) →
  ∃ w', Documents.delete_old E r k w = (Ret tt, w')
        ∧ w_db w' = w_db w
        ∧ w_fs w' = match Js.truthy (r !! k) with
                    | Some docPath => delete (Path.join (root E) docPath) (w_fs w)
                    | None => w_fs w
                    end.
Proof.
  intros H. unfold Documents.delete_old.
  destruct (Js.truthy (r !! k)) as [docPath|]; [| by exists w].
  destruct (H docPath eq_refl) as [Hio Hnd].
  erewrite bind_run; [| apply existsSync_run]. unfold Fs.existsSync.
  destruct (Fs.stat (w_fs w) (Path.join (root E) docPath)) as [[|c]|] eqn:Hst.
  - by destruct Hnd.
  - eexists. split;
      [unfold unlinkSync; apply fs_call_ok; unfold Fs.unlinkSync; by rewrite Hst, Hio
      | done].
  - exists w. split; [done |]. split; [done |].
    destruct (Path.join (root E) docPath); [done |]. cbn [Fs.stat] in Hst.
    by rewrite delete_id.
Qed.

(** The loop over the document columns of the client that is removed. *)
Lemma delete_fields (r : row) flds w :
  (∀ p, p ∈ omap (λ fld, Path.join (root E) <$> Js.truthy (r !! fld)) flds →
     io_fault E p = false ∧ Fs.stat (w_fs w) p ≠ Some Dir) →
  ∃ w', foldM (λ _ field, Documents.delete_old E r field) flds tt w = (Ret tt, w')
        ∧ w_db w' = w_db w
        ∧ w_fs w' = foldl (λ fs p, delete p fs) (w_fs w)
                      (omap (λ fld, Path.join (root E) <$> Js.truthy (r !! fld)) flds).
Proof.
  revert w. induction flds as [|fld flds IH]; intros w H; [by exists w |].
  rewrite omap_cons in H. rewrite omap_cons. cbn [foldM].
  destruct (delete_old_run r fld w) as (w1 & Hrun & Hdb1 & Hfs1).
  { intros docPath Ht. apply H. rewrite Ht. left. }
  destruct (IH w1) as (w2 & Hrun2 & Hdb2 & Hfs2).
  { intros p Hp. rewrite Hfs1.
    assert (Hp' : io_fault E p = false ∧ Fs.stat (w_fs w) p ≠ Some Dir).
    { apply H. destruct (Js.truthy (r !! fld)); [by right | done]. }
    destruct Hp' as [Hio Hnd]. split; [done |].
    destruct (Js.truthy (r !! fld)); [by apply stat_delete | done]. }
  exists w2. split; [by destruct w1; erewrite bind_run; [| exact Hrun] |].
  split; [by rewrite Hdb2 |]. rewrite Hfs2, Hfs1.
  by destruct (Js.truthy (r !! fld)).
Qed.

End RemovalFacts.

(** X3. [DELETE /api/clients/:id]: for an id that no row has the answer
    is that the client is not found and nothing changes.  For a client
    the files that its document columns name are removed and then its
    row: afterwards no row has the id, none of these files is there,
    and the other rows and files are as before.  The files go first:
    when the database refuses to remove the row, the row stays and its
    files are gone. *)
Theorem delete_client_spec (E : Env) (refused : bool) (id : string) (w : World) :
  (row_of id (w_db w) = None → Routes.delete E refused id w = (Ret RemovalClientNotFound, w))
  ∧ (∀ r, row_of id (w_db w) = Some r → plain_ends r →
       (∀ p, p ∈ document_paths E r →
          io_fault E p = false ∧ Fs.stat (w_fs w) p ≠ Some Dir) →
       ∃ w',
         Routes.delete E refused id w
         = (Ret (if refused then RemovalError EDB else Removed), w')
         ∧ row_of id (w_db w') = (if refused then Some r else None)
         ∧ (∀ j, j ≠ id → row_of j (w_db w') = row_of j (w_db w))
         ∧ (∀ p, p ∈ document_paths E r → w_fs w' !! p = None)
         ∧ (∀ p, p ∉ document_paths E r → w_fs w' !! p = w_fs w !! p)).
Proof.
  split.
  - intros Hnone. unfold Routes.delete. apply try_run.
    erewrite bind_run; [| apply getById_run]. by rewrite Hnone.
  - intros r Hr _ Hp.
    destruct (delete_fields E r documentFields w Hp) as (w1 & Hrun & Hdb1 & Hfs1).
    assert (Hbody : ∀ h,
              try_catch
                (do existing <- Client.getById id;
                 match existing with
                 | None => ret RemovalClientNotFound
                 | Some existingClient =>
                     foldM (λ _ field, Documents.delete_old E existingClient field)
                       documentFields tt >>
                     do deleted <- Store.delete refused id;
                     if deleted then ret Removed else ret RemovalFailed
                 end) h w
              = try_catch (do deleted <- Store.delete refused id;
                           if deleted then ret Removed else ret RemovalFailed) h w1).
    { intros h. unfold try_catch. erewrite bind_run; [| apply getById_run]. rewrite Hr.
      by erewrite bind_run; [| exact Hrun]. }
    unfold Routes.delete. rewrite Hbody. unfold try_catch, bind, Store.delete.
    destruct refused.
    + exists w1. split; [done |]. rewrite Hdb1. split; [done |]. split; [done |].
      rewrite Hfs1. split; intros p Hin; rewrite lookup_foldl_delete.
      * by rewrite decide_True.
      * by rewrite decide_False.
    + rewrite Hdb1, (row_of_existsb _ _ _ Hr). eexists. split; [done |]. cbn [w_db w_fs].
      split; [apply row_of_filter_eq |]. split; [by intros j Hj; apply row_of_filter_ne |].
      rewrite Hfs1. split; intros p Hin; rewrite lookup_foldl_delete.
      * by rewrite decide_True.
      * by rewrite decide_False.
Qed.

(** X3, on a client with one document. *)
Lemma delete_client_spec_witness :
  ∃ w',
    Routes.delete Ex.env false "C123" (Ex.world [Ex3.nic_client] Ex3.nic_in_folder)
    = (Ret Removed, w')
    ∧ row_of "C123" (w_db w') = None
    ∧ (∀ j, j ≠ "C123" → row_of j (w_db w') = row_of j [Ex3.nic_client])
    ∧ (∀ p, p ∈ document_paths Ex.env Ex3.nic_client → w_fs w' !! p = None)
    ∧ (∀ p, p ∉ document_paths Ex.env Ex3.nic_client →
         w_fs w' !! p = Ex3.nic_in_folder !! p).
Proof.
  apply (proj2 (delete_client_spec Ex.env false "C123"
                  (Ex.world [Ex3.nic_client] Ex3.nic_in_folder)) Ex3.nic_client).
  - apply row_of_head. by vm_compute.
  - intros fld docPath Hf. unfold documentFields in Hf.
    repeat (apply elem_of_cons in Hf as [->|Hf]; [by vm_compute; intros [= <-] |]).
    by apply elem_of_nil in Hf.
  - intros p Hp. vm_compute in Hp. apply list_elem_of_singleton in Hp as ->.
    split; [reflexivity | by vm_compute].
Defined.
(** ** What the repair endpoints leave as it is *)

Section Framed.
Context (R : relation World) `{!PreOrder R}.

Lemma framed_ret {A} (a : A) w (Q : A → World → Prop) : Q a w → framed R (ret a) w Q.
Proof. intros H. split; [reflexivity | done]. Qed.

Lemma framed_bind {A B} (m : M A) (f : A → M B) w (Q : A → World → Prop) Q' :
  framed R m w Q →
  (∀ a w', R w w' → Q a w' → framed R (f a) w' Q') →
  framed R (bind m f) w Q'.
Proof.
  unfold framed, post, bind. intros Hm Hf.
  destruct (m w) as [[a|e] w1]; [| done]. destruct Hm as [HR HQ].
  specialize (Hf a w1 HR HQ). destruct (f a w1) as [[b|e] w2].
  - destruct Hf as [HR' HQ']. split; [by etrans | done].
  - by etrans.
Qed.

Lemma framed_catch {A} (m : M A) h w (Q : A → World → Prop) :
  framed R m w Q →
  (∀ e w', R w w' → framed R (h e) w' Q) →
  framed R (try_catch m h) w Q.
Proof.
  unfold framed, post, try_catch. intros Hm Hh.
  destruct (m w) as [[a|e] w1]; [done |].
  specialize (Hh e w1 Hm). destruct (h e w1) as [[a|e'] w2].
  - destruct Hh as [HR' HQ']. split; [by etrans | done].
  - by etrans.
Qed.

Lemma framed_mono {A} (m : M A) w (Q Q' : A → World → Prop) :
  framed R m w Q → (∀ a w', R w w' → Q a w' → Q' a w') → framed R m w Q'.
Proof.
  unfold framed, post. intros Hm HQ. destruct (m w) as [[a|e] w1]; [| done].
  destruct Hm. split; [done | by apply HQ].
Qed.

Lemma framed_keeps {A} (m : M A) w : keeps R m → framed R m w (λ _ _, True).
Proof.
  intros H. unfold framed, post. specialize (H w).
  by destruct (m w) as [[a|e] w1].
Qed.

Lemma framed_foldM {A B} (f : B → A → M B) (I : B → Prop) l b w :
  I b →
  (∀ b x w', x ∈ l → I b → framed R (f b x) w' (λ b' _, I b')) →
  framed R (foldM f l b) w (λ b' _, I b').
Proof.
  revert b w. induction l as [|x l IH]; intros b w Hb Hstep; cbn [foldM].
  - by apply framed_ret.
  - eapply framed_bind; [apply Hstep; [left | done] |].
    intros b' w' _ Hb'. apply IH; [done |]. intros b'' y w'' Hy. apply Hstep. by right.
Qed.

Lemma framed_out {A} (m : M A) w (Q : A → World → Prop) : framed R m w Q → R w (m w).2.
Proof. unfold framed, post. destruct (m w) as [[a|e] w1]; simpl; [by intros [] | done]. Qed.

End Framed.

Ltac frame_ret := apply framed_ret; [apply _ | try done].
Ltac frame_bind := eapply framed_bind; [apply _ | | ].
Ltac frame_catch := apply framed_catch; [apply _ | | ].
Ltac frame_keeps := apply framed_keeps.

Section FrameRelations.

Lemma cols_kept_same w w' : w_db w' = w_db w → cols_kept w w'.
Proof.
  intros H. unfold cols_kept. rewrite H. by apply Forall_Forall2_diag, Forall_forall.
Qed.

Global Instance cols_kept_preorder : PreOrder cols_kept.
Proof.
  split.
  - intros w. by apply cols_kept_same.
  - intros w1 w2 w3 H1 H2. unfold cols_kept in *.
    eapply Forall2_trans; [| exact H1 | exact H2].
    intros r1 r2 r3 Ha Hb k Hk. by rewrite Hb, Ha.
Qed.

Global Instance repair_frame_preorder : PreOrder repair_frame.
Proof.
  split.
  - intros w. split; [done |]. split; [by left |]. split; [reflexivity | apply calls_refl].
  - intros w1 w2 w3 (S1 & F1 & C1 & T1) (S2 & F2 & C2 & T2).
    split; [by etrans |]. split; [| split; [by etrans | by eapply calls_trans]].
    intros p c H. destruct (F2 p c H) as [H2|]; [by apply F1 | by right].
Qed.

Global Instance fix_frame_preorder : PreOrder fix_frame.
Proof.
  split.
  - intros w. split; [done |]. split; [reflexivity | apply calls_refl].
  - intros w1 w2 w3 (S1 & C1 & T1) (S2 & C2 & T2).
    split; [by rewrite S2 |]. split; [by etrans | by eapply calls_trans].
Qed.

(** An update of document columns. *)
Lemma update_rows_cols_kept id data w db fsys tr :
  (∀ k, k ∈ data.*1 → k ∈ documentFields) → db = Client.update_rows id data (w_db w) →
  cols_kept w {| w_db := db; w_fs := fsys; w_trace := tr |}.
Proof.
  intros Hkeys ->. unfold cols_kept, Client.update_rows. cbn [w_db].
  apply Forall2_fmap_r, Forall_Forall2_diag, Forall_forall. intros r _ k Hk.
  destruct (Client.has_id id r); [| done]. apply apply_other. intros Hin. by apply Hk, Hkeys.
Qed.

Lemma set_prop_keys {V} k (v : V) o k' :
  k' ∈ (set_prop k v o).*1 → k' = k ∨ k' ∈ o.*1.
Proof.
  induction o as [|[k0 v0] o IH]; simpl.
  - intros ?%list_elem_of_singleton. by left.
  - destruct (decide (k0 = k)) as [->|Hne]; simpl.
    + intros [->|Hin]%elem_of_cons; [by left | right; by right].
    + intros [->|Hin]%elem_of_cons; [right; left |].
      destruct (IH Hin) as [->|?]; [by left | right; by right].
Qed.

End FrameRelations.

Section RepairFrame.
Variable E : Env.

Lemma mkdirSync_repair_frame p : keeps repair_frame (mkdirSync E p).
Proof.
  intros w. unfold mkdirSync. rewrite fs_call_world.
  split; [apply mkdirs_grows |]. split; [| split; [by apply cols_kept_same | by apply one_call]].
  intros q c H. left. by eapply mkdirs_files.
Qed.

Lemma ensure_dir_repair_frame p : keeps repair_frame (ensure_dir E p).
Proof.
  apply keeps_bind; [apply _ | apply keeps_existsSync, _ | intros [|]];
    [apply keeps_ret, _ |].
  apply keeps_bind; [apply _ | apply mkdirSync_repair_frame | intros; apply keeps_ret, _].
Qed.

(** A placeholder is written where there is nothing. *)
Lemma write_placeholder_frame p w :
  Fs.existsSync (w_fs w) p = false →
  repair_frame w (writeFileSync E p Repair.placeholder w).2.
Proof.
  intros Hex. unfold writeFileSync. rewrite fs_call_world.
  assert (Hp : p ≠ []) by (intros ->; done).
  unfold Fs.existsSync in Hex. rewrite stat_lookup in Hex by done.
  destruct (w_fs w !! p) eqn:Hl; [done |].
  unfold Fs.writeFileSync, Fs.put. rewrite stat_lookup, Hl by done.
  assert (Hsame : repair_frame w {| w_db := w_db w; w_fs := w_fs w;
                                    w_trace := w_trace w ++ [EvWrite p] |}).
  { split; [done |]. split; [by left |]. split; [by apply cols_kept_same | by apply one_call]. }
  destruct (Fs.parent_is_dir (w_fs w) p); [exact Hsame |].
  destruct (io_fault E p); [exact Hsame |]. cbn [fst].
  split; [by apply insert_subseteq |].
  split; [| split; [by apply cols_kept_same | by apply one_call]].
  intros q c. cbn [w_fs]. destruct (decide (p = q)) as [<-|Hne].
  - rewrite lookup_insert_eq. intros [= <-]. by right.
  - rewrite lookup_insert_ne by done. by left.
Qed.

Lemma write_placeholder_framed p w :
  Fs.existsSync (w_fs w) p = false →
  framed repair_frame (writeFileSync E p Repair.placeholder) w (λ _ _, True).
Proof.
  intros Hex. pose proof (write_placeholder_frame p w Hex) as Hw. unfold framed, post.
  destruct (writeFileSync E p Repair.placeholder w) as [[a|e] w2]; simpl in Hw;
    [by split | done].
Qed.

Lemma update_query_repair_frame id data :
  (∀ k, k ∈ data.*1 → k ∈ documentFields) →
  keeps repair_frame (Client.update_query E id data).
Proof.
  intros Hkeys w. unfold Client.update_query.
  destruct (db_fault E id data); [reflexivity |]. cbn [snd].
  split; [done |]. split; [by left |].
  split; [by eapply update_rows_cols_kept | by apply one_call].
Qed.

Lemma repair_field_framed client acc fld w :
  fld ∈ documentFields → (∀ k, k ∈ acc.2.*1 → k ∈ documentFields) →
  framed repair_frame (Repair.field_step E client acc fld) w
    (λ acc' _, ∀ k, k ∈ acc'.2.*1 → k ∈ documentFields).
Proof.
  intros Hfld Hkeys. unfold Repair.field_step.
  destruct (Js.truthy (client !! fld)) as [docPath|]; [| frame_ret].
  destruct (Shape.match_repair docPath) as [[tempId filename]|].
  - frame_bind; [frame_keeps; apply ensure_dir_repair_frame |].
    intros made w1 _ _. unfold framed. apply post_bind. unfold post at 1.
    rewrite existsSync_run.
    destruct (Fs.existsSync (w_fs w1)
                (Path.join (Path.join (documents_dir E) tempId) filename)) eqn:Hex.
    + frame_ret.
    + frame_catch; [| intros; frame_ret].
      frame_bind; [by apply write_placeholder_framed | intros; frame_ret].
  - destruct (Shape.missing_prefix docPath); frame_ret.
    intros k [->|Hin]%set_prop_keys; [done | by apply Hkeys].
Qed.

Lemma repair_client_framed res client w :
  framed repair_frame (Repair.client_step E res client) w (λ _ _, True).
Proof.
  unfold Repair.client_step.
  destruct (Js.truthy (client !! "id")) as [cid|]; [| frame_ret].
  frame_bind; [frame_keeps; apply ensure_dir_repair_frame |].
  intros made w1 _ _.
  frame_bind;
    [apply (framed_foldM repair_frame _
              (λ acc : Repair.Results * update, ∀ k, k ∈ acc.2.*1 → k ∈ documentFields));
       [intros k Hk; by apply elem_of_nil in Hk
       | intros acc fld w' Hfld Hacc; by apply repair_field_framed]
    |].
  intros acc w2 _ Hkeys. cbn beta in Hkeys.
  destruct acc.2 as [|kv data] eqn:Hdata; [frame_ret |].
  frame_catch; [| intros; frame_ret].
  frame_bind; [frame_keeps; by apply update_query_repair_frame | intros; frame_ret].
Qed.

Lemma repair_run_framed w : repair_frame w (Repair.run E w).2.
Proof.
  apply (framed_out repair_frame _ _ (λ _ _, True)). unfold Repair.run.
  frame_bind; [frame_keeps; apply keeps_get_db, _ |].
  intros clients w1 _ _.
  apply (framed_foldM repair_frame _ (λ _, True)); [done |].
  intros res client w' _ _. eapply framed_mono; [apply repair_client_framed | done].
Qed.

End RepairFrame.




(** ** The repair of the prefixes *)

Section FixEffect.
Variable E : Env.










End FixEffect.

Lemma with_prefixes_lookup (r : row) :
  (∀ fld, fld ∈ documentFields →
     with_prefixes r !! fld
     = match Js.truthy (r !! fld) with
       | Some p => if Shape.missing_prefix p then Some ("/uploads" +:+ p) else r !! fld
       | None => r !! fld
       end)
  ∧ (∀ k, k ∉ documentFields → with_prefixes r !! k = r !! k).
Proof.
  split.
  - intros fld Hfld. unfold with_prefixes.
    rewrite (apply_corrections_lookup prefix_fix_of prefix_fix_of_key) by done.
    unfold prefix_fix_of. destruct (Js.truthy (r !! fld)) as [p|]; [| done].
    by destruct (Shape.missing_prefix p).
  - intros k Hk. unfold with_prefixes. apply apply_other. intros Hin.
    by apply Hk, (corrections_keys prefix_fix_of prefix_fix_of_key r).
Qed.


(** ** The counters of the scan *)

Section ScanCounts.
Variable E : Env.

Lemma post_any {A} (m : M A) w : post m w (λ _ _, True) (λ _ _, True).
Proof. unfold post. by destruct (m w) as [[a|e] w']. Qed.

(** The inner [try] fixes the document or reports an error. *)
Lemma copy_and_update_counts cid fld np src dst r c d w :
  post (Scan.copy_and_update E cid fld np src dst r c d) w
    (λ out _, (out.1.1 = Scan.fixed r ∧ out.1.2 = Scan.client_fixed c)
              ∨ (∃ m, out.1.1 = Scan.failed m r ∧ out.1.2 = c))
    (λ _ _, True).
Proof.
  unfold Scan.copy_and_update. apply post_try.
  apply post_bind.
  eapply post_mono;
    [apply post_any | intros _ w1 _ | intros e w1 _; apply post_ret; right; by eexists].
  apply post_bind.
  eapply post_mono;
    [apply post_any | intros _ w2 _ | intros e w2 _; apply post_ret; right; by eexists].
  apply post_bind.
  eapply post_mono;
    [apply post_any | intros _ w3 _ | intros e w3 _; apply post_ret; right; by eexists].
  apply post_ret. by left.
Qed.

(** A document with a temporary path is fixed, is found missing, or
    neither. *)
Lemma temp_branch_counts cid fld docPath r c d w :
  post (Scan.temp_branch E cid fld docPath r c d) w
    (λ out _, (out.1.1 = Scan.fixed r ∧ out.1.2 = Scan.client_fixed c)
              ∨ (out.1.1 = Scan.missing r ∧ out.1.2 = Scan.client_missing c)
              ∨ (∃ m, out.1.1 = Scan.failed m r ∧ out.1.2 = c)
              ∨ (out.1.1 = r ∧ out.1.2 = c))
    (λ _ _, True).
Proof.
  unfold Scan.temp_branch. apply post_try.
  destruct (Shape.match_scan docPath) as [filename|];
    [| apply post_ret; by right; right; right].
  apply post_bind. unfold post at 1. rewrite existsSync_run.
  destruct (Fs.existsSync _ _).
  - eapply post_mono; [apply copy_and_update_counts | |].
    + intros out _ [H|H]; [by left | by right; right; left].
    + intros e w' _. apply post_ret. right. right. left. by eexists.
  - apply post_ret. right. by left.
Qed.

Lemma scan_field_counts cid client acc fld w :
  post (Scan.field_step E cid client acc fld) w (λ acc' _, scan_counts acc acc')
    (λ _ _, True).
Proof.
  unfold Scan.field_step.
  destruct (Js.truthy (client !! fld)) as [docPath|].
  2:{ apply post_ret. exists 0, 0, 0, 0. unfold scan_counted.
      rewrite !Nat.add_0_r. repeat split; lia. }
  apply post_bind. destruct (Js.includes "temp-" docPath).
  - eapply post_mono; [apply temp_branch_counts | | done].
    intros [[r' c'] d'] w' H. apply post_ret. simpl in H.
    destruct H as [[-> ->]|[[-> ->]|[(m & -> & ->)|[-> ->]]]].
    + exists 1, 1, 1, 0. unfold scan_counted. cbn. rewrite length_app. cbn.
      repeat split; lia.
    + exists 1, 1, 0, 1. unfold scan_counted. cbn. rewrite length_app. cbn.
      repeat split; lia.
    + exists 1, 1, 0, 0. unfold scan_counted. cbn. rewrite length_app. cbn.
      repeat split; lia.
    + exists 1, 1, 0, 0. unfold scan_counted. cbn. rewrite length_app. cbn.
      repeat split; lia.
  - apply post_bind. unfold post at 1. rewrite existsSync_run.
    destruct (Fs.existsSync _ _); apply post_ret; apply post_ret.
    + exists 1, 0, 0, 0. unfold scan_counted. cbn. rewrite length_app. cbn.
      repeat split; lia.
    + exists 1, 0, 0, 1. unfold scan_counted. cbn. rewrite length_app. cbn.
      repeat split; lia.
Qed.

Lemma scan_counts_refl a : scan_counts a a.
Proof.
  exists 0, 0, 0, 0. unfold scan_counted. rewrite !Nat.add_0_r. repeat split; lia.
Qed.

Lemma scan_counts_trans a b c : scan_counts a b → scan_counts b c → scan_counts a c.
Proof.
  intros (n & t & f & m & Hab & ? & ? & ?) (n' & t' & f' & m' & Hbc & ? & ? & ?).
  exists (n + n'), (t + t'), (f + f'), (m + m'). split; [| lia].
  unfold scan_counted in *.
  destruct Hab as (? & ? & ? & ? & ? & ? & ? & ? & ? & ?).
  destruct Hbc as (? & ? & ? & ? & ? & ? & ? & ? & ? & ?).
  repeat split; (congruence || lia).
Qed.

Lemma scan_fields_counts cid client flds acc w :
  post (foldM (Scan.field_step E cid client) flds acc) w (λ acc' _, scan_counts acc acc')
    (λ _ _, True).
Proof.
  revert acc w. induction flds as [|fld flds IH]; intros acc w.
  - apply post_ret, scan_counts_refl.
  - cbn [foldM]. apply post_bind. eapply post_mono; [apply scan_field_counts | | done].
    intros acc1 w1 H1. eapply post_mono; [apply IH | | done].
    intros acc2 w2 H2. exact (scan_counts_trans _ _ _ H1 H2).
Qed.

Lemma scan_client_counts r client w :
  scan_tallied r →
  post (Scan.client_step E r client) w
    (λ r' _, scan_tallied r' ∧ Scan.totalClients r' = Scan.totalClients r)
    (λ _ _, True).
Proof.
  intros Hr. unfold Scan.client_step.
  destruct (Js.truthy (client !! "id")) as [cid|]; [| by apply post_ret].
  apply post_bind. eapply post_mono; [apply post_any | intros _ w1 _ | done].
  apply post_bind. eapply post_mono; [apply scan_fields_counts | | done].
  intros acc w2 (n & t & f & m & Hc & Hft & Htn & Hfm).
  destruct Hc as (Htot & Hdet & _ & Hch & Hlen & Htmp & Hfix & Hcfix & Hmis & Hcmis).
  destruct Hr as (R1 & R2 & R3 & R4 & R5 & R6 & R7).
  cbn [Scan.res Scan.cres Scan.documents Scan.tempPathsFixed Scan.client_missingFiles
       length] in *.
  destruct (Scan.documents (Scan.cres acc)) as [|d ds] eqn:Hdocs; apply post_ret.
  - simpl in Hlen. assert (n = 0) by lia. subst n.
    split; [| done]. unfold scan_tallied. rewrite Hdet.
    repeat split; (done || lia).
  - split; [| done]. unfold scan_tallied. cbn. rewrite Hdet.
    rewrite !sum_list_with_app. cbn. rewrite Hdocs.
    repeat split; try lia.
    apply Forall_app. split; [done |]. apply Forall_singleton. by rewrite Hdocs.
Qed.

Lemma scan_clients_counts clients r w :
  scan_tallied r →
  post (foldM (Scan.client_step E) clients r) w
    (λ r' _, scan_tallied r' ∧ Scan.totalClients r' = Scan.totalClients r)
    (λ _ _, True).
Proof.
  revert r w. induction clients as [|c clients IH]; intros r w Hr.
  - by apply post_ret.
  - cbn [foldM]. apply post_bind. eapply post_mono; [by apply scan_client_counts | | done].
    intros r1 w1 [H1 Ht1]. eapply post_mono; [by apply IH | | done].
    intros r2 w2 [H2 Ht2]. split; [done | congruence].
Qed.

End ScanCounts.

(** X6. When [check-documents] returns, its totals are the sums of
    the results of the clients: the documents checked, the paths fixed
    and the files missing are those of the clients listed, every client
    listed has a document, at most a hundred clients are read, and the
    paths fixed are among the temporary paths, which are among the
    documents checked. *)
Theorem scan_counters (E : Env) (w w' : World) (r : Scan.Results) :
  Scan.run E w = (Ret r, w') →
  Scan.totalClients r = length (take 100 (w_db w))
  ∧ Scan.totalClients r <= 100
  ∧ Scan.checkedDocuments r
    = sum_list_with (λ c, length (Scan.documents c)) (Scan.details r)
  ∧ Scan.fixedPaths r = sum_list_with Scan.tempPathsFixed (Scan.details r)
  ∧ Scan.missingFiles r = sum_list_with Scan.client_missingFiles (Scan.details r)
  ∧ Scan.fixedPaths r <= Scan.tempFiles r
  ∧ Scan.tempFiles r <= Scan.checkedDocuments r
  ∧ Scan.fixedPaths r + Scan.missingFiles r <= Scan.checkedDocuments r
  ∧ Forall (λ c, Scan.documents c ≠ []) (Scan.details r).
Proof.
  intros Hrun. unfold Scan.run in Hrun. erewrite bind_run in Hrun; [| apply getAll_run].
  assert (Hinit : scan_tallied
                    {| Scan.totalClients := length (take 100 (w_db w));
                       Scan.checkedDocuments := 0; Scan.missingFiles := 0;
                       Scan.tempFiles := 0; Scan.fixedPaths := 0; Scan.errors := [];
                       Scan.details := [] |}).
  { unfold scan_tallied. cbn. repeat split; (lia || done). }
  destruct (post_run _ _ _ _ _ _ (scan_clients_counts E _ _ w Hinit) Hrun)
    as [(T1 & T2 & T3 & T4 & T5 & T6 & T7) Htot].
  cbn in Htot. split; [done |]. split; [rewrite Htot, length_take; lia |]. done.
Qed.

(** X6, on the scan of a staged proof of identity. *)
Lemma scan_counters_witness :
  ∃ r, (Scan.run Ex.env (Ex.world [Ex.nic_data] Ex.staged_nic)).1 = Ret r
       ∧ Scan.totalClients r = 1
       ∧ Scan.checkedDocuments r
         = sum_list_with (λ c, length (Scan.documents c)) (Scan.details r)
       ∧ Scan.fixedPaths r <= Scan.tempFiles r.
Proof.
  destruct (Scan.run Ex.env (Ex.world [Ex.nic_data] Ex.staged_nic)) as [o w'] eqn:Hrun.
  assert (Ho : ∃ r, o = Ret r).
  { pose proof (f_equal fst Hrun) as H1. cbn [fst] in H1. rewrite <-H1.
    eexists. by vm_compute. }
  destruct Ho as [r ->]. exists r. split; [done |].
  destruct (scan_counters Ex.env _ w' r Hrun) as (H1 & _ & H3 & _ & _ & H6 & _).
  by repeat split.
Defined.

(** ** The endpoints and the middleware of [server.ts] *)

Section MkdirFacts.

Lemma mkdirs_ok fault pre todo fs :
  (∀ q, fault q = false) →
  (∀ q c, q `prefix_of` todo → fs !! (pre ++ q) ≠ Some (File c)) →
  (Fs.mkdirs fault pre todo fs).2 = None.
Proof.
  intros Hf. revert pre fs. induction todo as [|s rest IH]; intros pre fs Hclear; [done |].
  simpl.
  assert (Hrest : ∀ fs' : gmap path node,
             (∀ q c, fs' !! q = Some (File c) → fs !! q = Some (File c)) →
             ∀ q c, q `prefix_of` rest → fs' !! ((pre ++ [s]) ++ q) ≠ Some (File c)).
  { intros fs' Hsub q c Hq Hl. apply (Hclear (s :: q) c); [by apply prefix_cons |].
    apply Hsub. by rewrite <-app_assoc in Hl. }
  destruct (fs !! (pre ++ [s])) as [[|c]|] eqn:Hl.
  - by apply IH, Hrest.
  - exfalso. by apply (Hclear [s] c); [apply prefix_cons, prefix_nil |].
  - rewrite Hf. apply IH, Hrest. intros q c Hq.
    destruct (decide (q = pre ++ [s])) as [->|Hne];
      [by rewrite lookup_insert_eq in Hq | by rewrite lookup_insert_ne in Hq].
Qed.

Lemma mkdirs_new fault pre todo fs p n :
  (Fs.mkdirs fault pre todo fs).1 !! p = Some n →
  fs !! p = Some n ∨ (n = Dir ∧ ∃ q, q ≠ [] ∧ q `prefix_of` todo ∧ p = pre ++ q).
Proof.
  revert pre fs. induction todo as [|s rest IH]; intros pre fs; simpl; [by left |].
  assert (Hlift : ∀ q, q `prefix_of` rest → p = (pre ++ [s]) ++ q →
             ∃ q', q' ≠ [] ∧ q' `prefix_of` s :: rest ∧ p = pre ++ q').
  { intros q Hq ->. exists (s :: q). split; [done |].
    split; [by apply prefix_cons | by rewrite <-app_assoc]. }
  destruct (fs !! (pre ++ [s])) as [[|c]|] eqn:Hl.
  - intros [?|(-> & q & ? & ? & ?)]%IH; [by left | right; split; [done | by eapply Hlift]].
  - by left.
  - destruct (fault (pre ++ [s])); [by left |].
    intros [Hi|(-> & q & ? & ? & ?)]%IH.
    + destruct (decide (p = pre ++ [s])) as [->|Hne].
      * rewrite lookup_insert_eq in Hi. injection Hi as <-. right. split; [done |].
        exists [s]. split; [done |]. split; [apply prefix_cons, prefix_nil | done].
      * rewrite lookup_insert_ne in Hi by done. by left.
    + right; split; [done | by eapply Hlift].
Qed.

End MkdirFacts.

Section ClearWay.
Variable E : Env.

Lemma clear_way_prefix fsys p q : q `prefix_of` p → clear_way fsys p → clear_way fsys q.
Proof. intros Hq H r c Hr. apply H. by etrans. Qed.

Lemma clear_way_stat fsys p : clear_way fsys p → Fs.existsSync fsys p = true →
  Fs.stat fsys p = Some Dir.
Proof.
  intros Hc. unfold Fs.existsSync. destruct p as [|s p]; [done |]. simpl.
  destruct (fsys !! (s :: p)) as [[|c]|] eqn:Hl; [done | | done].
  by destruct (Hc (s :: p) c).
Qed.

(** With a clear way and an operating system that refuses nothing the
    directory is there afterwards, and what is new are directories of
    the way. *)
Lemma ensure_dir_clear p w :
  no_io_fault E → clear_way (w_fs w) p →
  ∃ made w',
    ensure_dir E p w = (Ret made, w')
    ∧ w_db w' = w_db w
    ∧ w_fs w ⊆ w_fs w'
    ∧ Fs.stat (w_fs w') p = Some Dir
    ∧ (∀ q n, w_fs w' !! q = Some n →
         w_fs w !! q = Some n ∨ (n = Dir ∧ q ≠ [] ∧ q `prefix_of` p))
    ∧ w_trace w' = w_trace w ++ (if made : bool then [EvMkdir p] else []).
Proof.
  intros Hf Hc. unfold ensure_dir. erewrite bind_run by apply existsSync_run.
  destruct (Fs.existsSync (w_fs w) p) eqn:Hex.
  - exists false, w. split; [done |]. split; [done |]. split; [done |].
    split; [by apply clear_way_stat |]. split; [by left | by rewrite app_nil_r].
  - assert (Hp : p ≠ []) by (intros ->; done).
    destruct (Fs.mkdirSync (io_fault E) p (w_fs w)) as [fs' o] eqn:Hm.
    assert (Hok : (Fs.mkdirs (io_fault E) [] p (w_fs w)).2 = None).
    { apply mkdirs_ok; [done |]. apply Hc. }
    assert (Hfs : fs' = (Fs.mkdirs (io_fault E) [] p (w_fs w)).1).
    { unfold Fs.mkdirSync in Hm. by rewrite Hm. }
    assert (Ho : o = None).
    { unfold Fs.mkdirSync in Hm. by rewrite Hm in Hok. }
    subst o. exists true. eexists. split.
    { unfold mkdirSync. erewrite bind_run by (by apply fs_call_ok). done. }
    simpl. rewrite Hfs. split; [done |]. split; [apply mkdirs_grows |].
    split.
    { rewrite stat_lookup by done.
      rewrite <-(app_nil_l p) at 2. by apply mkdirs_made. }
    split; [| done].
    intros q n [?|(-> & r & ? & ? & ->)]%mkdirs_new; [by left | by right].
Qed.

Lemma clear_way_grown fsys fsys' p p' :
  clear_way fsys p →
  (∀ q n, fsys' !! q = Some n → fsys !! q = Some n ∨ (n = Dir ∧ q ≠ [] ∧ q `prefix_of` p')) →
  clear_way fsys' p.
Proof.
  intros Hc Hnew q c Hq Hl. destruct (Hnew _ _ Hl) as [Hold|[? _]]; [| done].
  by apply (Hc q c).
Qed.

End ClearWay.

Section Structure.
Variable E : Env.

Lemma uploads_prefix : Server.uploads_dir E `prefix_of` documents_dir E.
Proof.
  unfold Server.uploads_dir, documents_dir. apply prefix_app. by exists ["documents"].
Qed.

Lemma structure_read_only tempId :
  keeps read_only (Server.repair_document_structure E tempId).
Proof.
  unfold Server.repair_document_structure.
  apply keeps_try; [apply _ | | intros; apply keeps_ret, _].
  apply keeps_bind; [apply _ | apply ensure_dir_read_only | intros _].
  apply keeps_bind; [apply _ | apply ensure_dir_read_only | intros _].
  apply keeps_bind; [apply _ | | intros _].
  { destruct (Js.truthy tempId); [| apply keeps_ret, _].
    apply keeps_bind; [apply _ | apply ensure_dir_read_only | intros; apply keeps_ret, _]. }
  apply keeps_bind; [apply _ | apply keeps_existsSync, _ | intros u].
  apply keeps_bind; [apply _ | apply keeps_existsSync, _ | intros d].
  apply keeps_bind; [apply _ | | intros; apply keeps_ret, _].
  destruct (Js.truthy tempId); [| apply keeps_ret, _].
  apply keeps_bind; [apply _ | apply keeps_existsSync, _ | intros; apply keeps_ret, _].
Qed.

(** When the three directories exist the endpoint reports them and
    leaves the world as it is. *)
Lemma structure_settled tempId w :
  Fs.existsSync (w_fs w) (Server.uploads_dir E) = true →
  Fs.existsSync (w_fs w) (documents_dir E) = true →
  Fs.existsSync (w_fs w) (structure_target E tempId) = true →
  Server.repair_document_structure E tempId w
  = (Ret (Structure true true ((λ _, true) <$> Js.truthy tempId)), w).
Proof.
  intros Hu Hd Ht. unfold Server.repair_document_structure, structure_target in *.
  erewrite try_run; [done |].
  erewrite bind_run by (by apply ensure_dir_there).
  erewrite bind_run by (by apply ensure_dir_there).
  destruct (Js.truthy tempId) as [t|].
  - erewrite bind_run by (erewrite bind_run by (by apply ensure_dir_there); done).
    cbv [bind existsSync get_fs ret]. by rewrite Hu, Hd, Ht.
  - cbv [bind existsSync get_fs ret]. by rewrite Hu, Hd.
Qed.

Lemma structure_post tempId w :
  post (Server.repair_document_structure E tempId) w
    (λ s w', ∀ u d t, s = Structure u d t →
       u = true ∧ d = true ∧ t = (λ _, true) <$> Js.truthy tempId
       ∧ Fs.existsSync (w_fs w') (Server.uploads_dir E) = true
       ∧ Fs.existsSync (w_fs w') (documents_dir E) = true
       ∧ Fs.existsSync (w_fs w') (structure_target E tempId) = true)
    (λ _ _, False).
Proof.
  unfold Server.repair_document_structure. apply post_try.
  apply post_bind. eapply post_mono; [apply ensure_dir_post | | done].
  intros _ w1 (_ & _ & H1). simpl.
  apply post_bind. eapply post_mono; [apply ensure_dir_post | | done].
  intros _ w2 (_ & Hs2 & H2). simpl.
  apply post_bind.
  assert (Hmatch :
    post (match Js.truthy tempId with
          | Some t => ensure_dir E (Path.join (documents_dir E) t) >> ret tt
          | None => ret tt
          end) w2
      (λ _ w3, w_fs w2 ⊆ w_fs w3
               ∧ Fs.existsSync (w_fs w3) (structure_target E tempId) = true)
      (λ _ _, True)).
  { unfold structure_target. destruct (Js.truthy tempId) as [t|].
    - apply post_bind. eapply post_mono; [apply ensure_dir_post | | done].
      intros _ w3 (_ & Hs3 & H3). by apply post_ret.
    - by apply post_ret. }
  eapply post_mono; [exact Hmatch | | done]. intros _ w3 (Hs3 & H3). simpl.
  assert (Hu : Fs.existsSync (w_fs w3) (Server.uploads_dir E) = true).
  { eapply existsSync_mono; [exact Hs3 |]. by eapply existsSync_mono. }
  assert (Hd : Fs.existsSync (w_fs w3) (documents_dir E) = true)
    by (by eapply existsSync_mono).
  unfold post, structure_target in *. cbv [bind existsSync get_fs ret].
  destruct (Js.truthy tempId) as [t|]; rewrite Hu, Hd, ?H3;
    by intros u d t' [= <- <- <-].
Qed.

Lemma structure_returns tempId w :
  no_io_fault E →
  clear_way (w_fs w) (documents_dir E) →
  clear_way (w_fs w) (structure_target E tempId) →
  ∃ u d t, (Server.repair_document_structure E tempId w).1 = Ret (Structure u d t).
Proof.
  intros Hf Hcd Hct.
  destruct (ensure_dir_clear E (Server.uploads_dir E) w Hf) as (m1 & w1 & Hr1 & _ & _ & _ & Hn1 & _).
  { eapply clear_way_prefix; [apply uploads_prefix | done]. }
  destruct (ensure_dir_clear E (documents_dir E) w1 Hf) as (m2 & w2 & Hr2 & _ & _ & _ & Hn2 & _).
  { by eapply clear_way_grown. }
  assert (Hct2 : clear_way (w_fs w2) (structure_target E tempId)).
  { eapply clear_way_grown; [| exact Hn2]. by eapply clear_way_grown. }
  unfold Server.repair_document_structure, structure_target in *.
  unfold try_catch. erewrite bind_run by exact Hr1. erewrite bind_run by exact Hr2.
  destruct (Js.truthy tempId) as [t|].
  - destruct (ensure_dir_clear E (Path.join (documents_dir E) t) w2 Hf Hct2)
      as (m3 & w3 & Hr3 & _).
    erewrite bind_run by (erewrite bind_run by exact Hr3; done).
    cbv [bind existsSync get_fs ret]. by eexists _, _, _.
  - cbv [bind existsSync get_fs ret]. by eexists _, _, _.
Qed.

End Structure.

(** X7. [GET /api/repair-document-structure] makes directories and
    nothing else: the rows and the files are as before.  An answer
    that is not an error reports every directory it names as existing,
    and the same request, made again, gives the same answer and leaves
    the world as it is.  The answer is no error when the operating
    system refuses nothing and no file stands in the way of the
    directories. *)
Theorem structure_repair (E : Env) (tempId : option string) (w : World) :
  let out := Server.repair_document_structure E tempId w in
  read_only w out.2
  ∧ (∃ s, out.1 = Ret s)
  ∧ (∀ u d t, out.1 = Ret (Structure u d t) →
       u = true ∧ d = true ∧ t = (λ _, true) <$> Js.truthy tempId
       ∧ Fs.existsSync (w_fs out.2) (structure_target E tempId) = true
       ∧ Server.repair_document_structure E tempId out.2 = (Ret (Structure u d t), out.2))
  ∧ (no_io_fault E →
     clear_way (w_fs w) (documents_dir E) →
     clear_way (w_fs w) (structure_target E tempId) →
     out.1 = Ret (Structure true true ((λ _, true) <$> Js.truthy tempId))).
Proof.
  intros out.
  assert (Hpost := structure_post E tempId w). unfold post in Hpost. fold out in Hpost.
  assert (Hfacts : ∀ u d t, out.1 = Ret (Structure u d t) →
            u = true ∧ d = true ∧ t = (λ _, true) <$> Js.truthy tempId
            ∧ Fs.existsSync (w_fs out.2) (structure_target E tempId) = true
            ∧ Server.repair_document_structure E tempId out.2
              = (Ret (Structure u d t), out.2)).
  { intros u d t Hout. destruct out as [o w']. simpl in *. subst o.
    destruct (Hpost u d t eq_refl) as (-> & -> & -> & Hu & Hd & Ht).
    repeat split; [done |]. by apply structure_settled. }
  split; [apply structure_read_only |].
  split; [destruct out as [[s|e] w']; [by exists s | done] |].
  split; [exact Hfacts |].
  intros Hf Hcd Hct.
  destruct (structure_returns E tempId w Hf Hcd Hct) as (u & d & t & Hout).
  fold out in Hout. destruct (Hfacts u d t Hout) as (-> & -> & -> & _). done.
Qed.

(** X7, from an empty file store. *)
Lemma structure_repair_witness :
  let out := Server.repair_document_structure Ex.env (Some "temp-ab12") (Ex.world [] ∅) in
  out.1 = Ret (Structure true true (Some true))
  ∧ Fs.existsSync (w_fs out.2) (Ex.docs ++ ["temp-ab12"]) = true
  ∧ Server.repair_document_structure Ex.env (Some "temp-ab12") out.2
    = (Ret (Structure true true (Some true)), out.2).
Proof.
  intros out.
  destruct (structure_repair Ex.env (Some "temp-ab12") (Ex.world [] ∅))
    as (_ & _ & Hfacts & Hret).
  assert (Hout : out.1 = Ret (Structure true true (Some true))).
  { apply Hret; [done | |]; intros q c _; simpl; by rewrite lookup_empty. }
  split; [done |].
  destruct (Hfacts _ _ _ Hout) as (_ & _ & _ & Ht & Hagain). by split.
Defined.

Section Placeholder.
Variable E : Env.

Lemma put_ok fault p c fsys :
  Fs.stat fsys p ≠ Some Dir → Fs.stat fsys (removelast p) = Some Dir → fault p = false →
  Fs.put fault p c fsys = (<[p := File c]> fsys, None).
Proof.
  intros Hp Hd Hf. unfold Fs.put, Fs.parent_is_dir. rewrite Hd, Hf.
  by destruct (Fs.stat fsys p) as [[|?]|].
Qed.

Lemma not_prefix_removelast (p : path) : p ≠ [] → ¬ p `prefix_of` removelast p.
Proof.
  intros Hp Hpre%prefix_length. destruct p as [|s p] using rev_ind; [done |].
  rewrite removelast_last, length_app in Hpre. simpl in Hpre. lia.
Qed.

Lemma prefix_split (a s : string) :
  String.prefix a s = true → s = a +:+ Js.drop (String.length a) s.
Proof.
  revert s. induction a as [|c a IH]; intros s; [done |].
  destruct s as [|d s]; [done |]. simpl.
  destruct (ascii_dec c d) as [->|]; [| done]. intros H.
  change (String d s = String d (a +:+ Js.drop (String.length a) s)).
  f_equal. by apply IH.
Qed.

Lemma steps_below (base : path) (segs : list string) :
  (∀ s, s ∈ segs → s ≠ "..") → base `prefix_of` fold_left Path.step segs base.
Proof.
  revert base. induction segs as [|s segs IH]; intros base H; [done |]. simpl.
  etrans; [| apply IH; intros s' Hs'; apply H; by right].
  unfold Path.step. destruct (decide (s = "" ∨ s = ".")); [done |].
  destruct (decide (s = "..")) as [->|]; [by destruct (H ".."); [left |] |].
  by apply prefix_app_r.
Qed.

Lemma normalized_legacy rest :
  Server.normalizedPath ("/documents/" +:+ rest) = "/uploads/documents/" +:+ rest
  ∧ Server.normalizedPath ("/uploads/documents/" +:+ rest) = "/uploads/documents/" +:+ rest.
Proof.
  unfold Server.normalizedPath, Shape.missing_prefix, Js.startsWith.
  split; [by rewrite prefix_append | done].
Qed.

(** The placeholder is written when the way is clear. *)
Lemma write_placeholder_run fullPath w w1 :
  no_io_fault E →
  Fs.stat (w_fs w) fullPath ≠ Some Dir →
  (image_ext fullPath = true → asset_apart E (w_fs w) fullPath) →
  w_fs w ⊆ w_fs w1 →
  Fs.stat (w_fs w1) (Path.dirname fullPath) = Some Dir →
  (∀ q n, w_fs w1 !! q = Some n →
     w_fs w !! q = Some n ∨ (n = Dir ∧ q ≠ [] ∧ q `prefix_of` Path.dirname fullPath)) →
  ∃ ev,
    Server.write_placeholder E fullPath w1
    = (Ret tt, {| w_db := w_db w1;
                  w_fs := <[fullPath := File (placeholder_content E (w_fs w) fullPath)]> (w_fs w1);
                  w_trace := w_trace w1 ++ [ev] |}).
Proof.
  intros Hf Hnd Hasset Hsub Hparent Hnew.
  assert (Hne : fullPath ≠ []) by (intros ->; done).
  assert (Hnd1 : Fs.stat (w_fs w1) fullPath ≠ Some Dir).
  { rewrite stat_lookup in * by done. intros Hl.
    destruct (Hnew _ _ Hl) as [?|(_ & _ & Hpre)]; [done |].
    by apply not_prefix_removelast in Hpre. }
  assert (Hput : ∀ c, Fs.put (io_fault E) fullPath c (w_fs w1)
                      = (<[fullPath := File c]> (w_fs w1), None)).
  { intros c. by apply put_ok. }
  unfold Server.write_placeholder, placeholder_content.
  destruct (String.eqb (Str.toLowerCase (NodePath.extname_of fullPath)) ".pdf").
  { eexists. unfold writeFileSync. by erewrite fs_call_ok by apply Hput. }
  fold (image_ext fullPath). destruct (image_ext fullPath).
  2:{ eexists. unfold writeFileSync. by erewrite fs_call_ok by apply Hput. }
  destruct (Hasset eq_refl) as [Hdir Hway].
  assert (Hsame : w_fs w1 !! Server.placeholder_image E = w_fs w !! Server.placeholder_image E).
  { destruct (w_fs w1 !! Server.placeholder_image E) as [n|] eqn:Hl.
    - destruct (Hnew _ _ Hl) as [?|(_ & _ & Hpre)]; [done | by destruct Hway].
    - destruct (w_fs w !! Server.placeholder_image E) as [n|] eqn:Hl'; [| done].
      by rewrite (lookup_weaken _ _ _ _ Hl' Hsub) in Hl. }
  assert (Hane : Server.placeholder_image E ≠ []).
  { unfold Server.placeholder_image. by destruct (root E). }
  erewrite bind_run by apply existsSync_run.
  unfold Fs.existsSync. rewrite stat_lookup, Hsame by done.
  destruct (w_fs w !! Server.placeholder_image E) as [[|img]|] eqn:Hl; [done | |].
  - eexists. unfold copyFileSync. erewrite fs_call_ok; [done |].
    unfold Fs.copyFileSync. rewrite stat_lookup, Hsame by done. apply Hput.
  - eexists. unfold writeFileSync. by erewrite fs_call_ok by apply Hput.
Qed.

End Placeholder.

(** X8. [POST /api/create-placeholder-document]: a request without a
    path and a path outside [/uploads/documents/] are turned down and
    nothing changes.  For a path inside without [..] the place of the
    file is below the documents directory.  When the path has no slash
    at its end, the operating system refuses nothing, no file stands in
    the way of the parent directory and the place is no directory, the
    placeholder of the extension is written at the place, also over a
    file that is there, and the rows and the other files stay as they
    are.  A path without the [/uploads] prefix is handled as the path
    with it. *)
Theorem placeholder_document (E : Env) (documentPath : option string) (w : World) :
  (Js.truthy documentPath = None →
   Server.create_placeholder_document E documentPath w = (Ret DocumentPathRequired, w))
  ∧ (∀ p, Js.truthy documentPath = Some p →
       let normalized := Server.normalizedPath p in
       let fullPath := Path.join (root E) normalized in
       (Js.startsWith "/uploads/documents/" normalized = false →
        Server.create_placeholder_document E documentPath w
        = (Ret (InvalidDocumentPath p normalized), w))
       ∧ (Js.startsWith "/uploads/documents/" normalized = true →
          ((∀ s, s ∈ Js.split_slash normalized → s ≠ "..") →
           documents_dir E `prefix_of` fullPath)
          ∧ (plain_end p → no_io_fault E →
             clear_way (w_fs w) (Path.dirname fullPath) →
             Fs.stat (w_fs w) fullPath ≠ Some Dir →
             (image_ext fullPath = true → asset_apart E (w_fs w) fullPath) →
             ∃ w',
               Server.create_placeholder_document E documentPath w
               = (Ret (PlaceholderCreated normalized fullPath), w')
               ∧ w_db w' = w_db w
               ∧ w_fs w' !! fullPath
                 = Some (File (placeholder_content E (w_fs w) fullPath))
               ∧ (∀ q n, q ≠ fullPath → w_fs w !! q = Some n → w_fs w' !! q = Some n)
               ∧ (∀ q c, q ≠ fullPath →
                    w_fs w' !! q = Some (File c) → w_fs w !! q = Some (File c)))))
  ∧ (∀ rest,
       Server.create_placeholder_document E (Some ("/documents/" +:+ rest)) w
       = Server.create_placeholder_document E (Some ("/uploads/documents/" +:+ rest)) w).
Proof.
  split; [| split].
  - intros Ht. unfold Server.create_placeholder_document. by rewrite Ht.
  - intros p Ht normalized fullPath. split.
    + intros Hs. unfold Server.create_placeholder_document. rewrite Ht.
      fold normalized. by rewrite Hs.
    + intros Hs. split.
      * intros Hplain. unfold fullPath.
        rewrite (prefix_split _ _ Hs) in Hplain |- *.
        set (rest := Js.drop _ normalized) in *.
        rewrite join_uploads_documents. apply steps_below. intros s Hin. apply Hplain.
        change ("/uploads/documents/" +:+ rest) with ("/uploads/documents" +:+ "/" +:+ rest).
        rewrite split_append. apply elem_of_app. by right.
      * intros _ Hf Hc Hnd Hasset.
        destruct (ensure_dir_clear E (Path.dirname fullPath) w Hf Hc)
          as (made & w1 & Hr1 & Hdb1 & Hsub & Hstat & Hnew & _).
        destruct (write_placeholder_run E fullPath w w1 Hf Hnd Hasset Hsub Hstat Hnew)
          as [ev Hw].
        unfold Server.create_placeholder_document. rewrite Ht. fold normalized.
        rewrite Hs. simpl negb. cbv iota. fold fullPath.
        eexists. split.
        { erewrite try_run; [done |].
          erewrite bind_run by exact Hr1. erewrite bind_run by exact Hw. done. }
        simpl. split; [done |]. split; [apply lookup_insert_eq |]. split.
        -- intros q n Hq Hl. rewrite lookup_insert_ne by done.
           by eapply lookup_weaken.
        -- intros q c Hq Hl. rewrite lookup_insert_ne in Hl by done.
           by destruct (Hnew _ _ Hl) as [?|[? _]].
  - intros rest. unfold Server.create_placeholder_document.
    change (Js.truthy (Some ("/documents/" +:+ rest))) with (Some ("/documents/" +:+ rest)).
    change (Js.truthy (Some ("/uploads/documents/" +:+ rest)))
      with (Some ("/uploads/documents/" +:+ rest)).
    cbv iota beta. destruct (normalized_legacy rest) as [-> ->].
    by rewrite (prefix_append "/uploads/documents/" rest : Js.startsWith _ _ = true).
Qed.

(** A clear way, checked on the entries of a file store. *)
Lemma clear_way_check (fsys : gmap path node) (p : path) :
  forallb (λ kv : path * node,
             match kv.2 with
             | File _ => negb (bool_decide (kv.1 `prefix_of` p))
             | Dir => true
             end) (map_to_list fsys) = true →
  clear_way fsys p.
Proof.
  intros H q c Hq Hl. apply elem_of_map_to_list, list_elem_of_In in Hl.
  rewrite forallb_forall in H. specialize (H _ Hl). simpl in H.
  by rewrite bool_decide_eq_true_2 in H.
Qed.

(** X8, on a document that is replaced by its placeholder. *)
Lemma placeholder_document_witness :
  let w := Ex.world [Ex3.nic_client] Ex3.nic_in_folder in
  let fullPath := Ex.docs ++ ["C123"; "nic_proof-ab12.pdf"] in
  w_fs w !! fullPath = Some (File "NIC")
  ∧ ∃ w',
      Server.create_placeholder_document Ex.env (Some "/documents/C123/nic_proof-ab12.pdf") w
      = (Ret (PlaceholderCreated "/uploads/documents/C123/nic_proof-ab12.pdf" fullPath), w')
      ∧ w_db w' = w_db w
      ∧ w_fs w' !! fullPath = Some (File Server.pdf).
Proof.
  intros w fullPath. split; [by vm_compute |].
  destruct (placeholder_document Ex.env (Some "/documents/C123/nic_proof-ab12.pdf") w)
    as (_ & H & _).
  destruct (H "/documents/C123/nic_proof-ab12.pdf" eq_refl) as [_ Hin].
  destruct (Hin eq_refl) as [_ Hrun].
  destruct Hrun as (w' & Hr & Hdb & Hfile & _).
  - by vm_compute.
  - by intros q.
  - apply clear_way_check. by vm_compute.
  - by vm_compute.
  - by vm_compute.
  - exists w'. split; [exact Hr |]. split; [done |]. exact Hfile.
Defined.

Section Middleware.
Variable E : Env.

Lemma lower_hexdash_no_slash (c : ascii) :
  Shape.hexdash (Str.lower c) = true → Ascii.eqb c "/" = false.
Proof. destruct (Ascii.eqb_spec c "/") as [->|]; [by vm_compute | done]. Qed.

Lemma lower_hexdash (c : ascii) : Shape.hexdash c = true → Str.lower c = c.
Proof. destruct c as [[] [] [] [] [] [] [] []]; by vm_compute. Qed.

Lemma lower_hex s : Shape.all_chars Shape.hexdash s = true → Str.toLowerCase s = s.
Proof.
  induction s as [|c s IH]; [done |]. simpl. intros [Hc Hs]%andb_prop.
  by rewrite lower_hexdash, IH.
Qed.

Lemma lower_hex_segment t :
  Shape.all_chars Shape.hexdash (Str.toLowerCase t) = true → Js.split_slash t = [t].
Proof.
  induction t as [|c t IH]; [done |]. simpl. intros [Hc Ht]%andb_prop.
  by rewrite (lower_hexdash_no_slash _ Hc), IH.
Qed.

Lemma drop_lower n s : Js.drop n (Str.toLowerCase s) = Str.toLowerCase (Js.drop n s).
Proof. revert s. induction n as [|n IH]; intros [|c s]; simpl; by rewrite ?IH. Qed.

Lemma split_cons_char c s :
  Ascii.eqb c "/" = false → Js.split_slash s = [s] → Js.split_slash (String c s) = [String c s].
Proof. simpl. by intros -> ->. Qed.

Lemma split_temp t : Js.split_slash t = [t] → Js.split_slash ("temp-" +:+ t) = ["temp-" +:+ t].
Proof.
  intros H.
  change ("temp-" +:+ t) with (String "t" (String "e" (String "m" (String "p" (String "-" t))))).
  by repeat (apply split_cons_char; [done |]).
Qed.

(** The folder that the middleware makes is a plain segment. *)
Lemma match_temp_dir_segment requestPath tempId :
  Server.match_temp_dir requestPath = Some tempId → Path.segment ("temp-" +:+ tempId).
Proof.
  unfold Server.match_temp_dir.
  destruct (Js.split_slash requestPath) as [|e [|seg [|x l]]]; try done.
  destruct (String.eqb e ""); [| done]. simpl.
  destruct (Shape.temp_hex (Str.toLowerCase seg)) eqn:Hhex; [| done].
  intros [= <-]. unfold Shape.temp_hex in Hhex.
  apply andb_prop in Hhex as [_ Hall]. rewrite drop_lower in Hall.
  apply lower_hex_segment in Hall.
  apply temp_prefix_segment; [by apply split_temp | apply prefix_append].
Qed.

(** The request for a staged reference, as the upload handler writes
    it, names its temporary folder. *)
Lemma match_temp_dir_staged u name :
  Shape.temp_hex ("temp-" +:+ u) = true →
  Server.match_temp_dir ("/temp-" +:+ u +:+ "/" +:+ name) = Some u.
Proof.
  intros Hhex. unfold Server.match_temp_dir.
  assert (Hall : Shape.all_chars Shape.hexdash u = true).
  { unfold Shape.temp_hex in Hhex. by apply andb_prop in Hhex as [_ Hall]. }
  assert (Hseg : Js.split_slash ("temp-" +:+ u) = ["temp-" +:+ u]).
  { apply split_temp, lower_hex_segment. by rewrite lower_hex. }
  change ("/temp-" +:+ u +:+ "/" +:+ name)
    with (String "/" (("temp-" +:+ u) +:+ "/" +:+ name)).
  cbn [Js.split_slash]. change (Ascii.eqb "/" "/") with true. cbv iota.
  rewrite split_append, Hseg.
  destruct (Js.split_slash name) as [|x l] eqn:Hn; [by destruct (split_nonempty name) |].
  cbn [app]. change (String.eqb "" "") with true. cbn [andb].
  change (Str.toLowerCase ("temp-" +:+ u)) with ("temp-" +:+ Str.toLowerCase u).
  by rewrite lower_hex, Hhex.
Qed.

Lemma catch_all_returns (m : M unit) w : (try_catch m (λ _, ret tt) w).1 = Ret tt.
Proof. unfold try_catch. by destruct (m w) as [[[]|e] w']. Qed.

Lemma access_read_only requestPath : keeps read_only (Server.uploads_documents E requestPath).
Proof.
  unfold Server.uploads_documents.
  apply keeps_bind; [apply _ | apply keeps_existsSync, _ | intros [|]]; [apply keeps_ret, _ |].
  apply keeps_bind; [apply _ | | intros; apply keeps_ret, _].
  destruct (Server.match_temp_dir requestPath); [| apply keeps_ret, _].
  apply keeps_try; [apply _ | | intros; apply keeps_ret, _].
  apply keeps_bind; [apply _ | apply ensure_dir_read_only | intros; apply keeps_ret, _].
Qed.

Lemma join_rooted (base : path) (rest : string) :
  Path.join base ("/" +:+ rest) = Path.join base rest.
Proof. done. Qed.

End Middleware.

(** X9. The middleware of [/uploads/documents] changes no row and no
    file.  A request for a path that exists is passed on and the world
    stays as it is.  A request for a missing path is answered with
    [Document file not found], also when a directory cannot be made;
    when the path begins with a temporary folder, that folder is made,
    and otherwise the world stays as it is.  The path at which the
    upload handler stores a staged file is such a request. *)
Theorem access_middleware (E : Env) (requestPath : string) (w : World) :
  let fullPath := Path.join (documents_dir E) requestPath in
  let out := Server.uploads_documents E requestPath w in
  read_only w out.2
  ∧ (Fs.existsSync (w_fs w) fullPath = true → out = (Ret Next, w))
  ∧ (Fs.existsSync (w_fs w) fullPath = false →
     out.1 = Ret (DocumentFileNotFound requestPath)
     ∧ (Server.match_temp_dir requestPath = None → out.2 = w)
     ∧ ∀ tempId, Server.match_temp_dir requestPath = Some tempId →
         let tempDir := documents_dir E ++ ["temp-" +:+ tempId] in
         no_io_fault E → clear_way (w_fs w) tempDir →
         Fs.stat (w_fs out.2) tempDir = Some Dir)
  ∧ (∀ u name,
       Shape.temp_hex ("temp-" +:+ u) = true →
       Promotion.staged_path ("temp-" +:+ u) name
       = "/uploads/documents" +:+ ("/temp-" +:+ u +:+ "/" +:+ name)
       ∧ Server.match_temp_dir ("/temp-" +:+ u +:+ "/" +:+ name) = Some u).
Proof.
  intros fullPath out. split; [apply access_read_only |].
  unfold out, Server.uploads_documents. fold fullPath.
  erewrite bind_run by apply existsSync_run.
  split; [by intros -> |]. split.
  - intros ->. split; [| split].
    + unfold bind.
      destruct (Server.match_temp_dir requestPath) as [tempId|]; [| done].
      pose proof (catch_all_returns
        (ensure_dir E (Path.join (documents_dir E) ("temp-" +:+ tempId)) >> ret tt) w) as H.
      by destruct (try_catch _ _ w) as [[[]|e] w'].
    + by intros ->.
    + intros tempId Hm Hf Hc. rewrite Hm.
      rewrite join_segment by (by eapply match_temp_dir_segment).
      set (tempDir := documents_dir E ++ ["temp-" +:+ tempId]) in *.
      destruct (ensure_dir_clear E tempDir w Hf Hc) as (made & w1 & Hr & _ & _ & Hs & _).
      erewrite bind_run; [| erewrite try_run; [done |]; by erewrite bind_run by exact Hr].
      done.
  - intros u name Hhex. split; [| by apply match_temp_dir_staged].
    unfold Promotion.staged_path. by cbn.
Qed.

(** X9, on the request for a staged file whose folder is missing. *)
Lemma access_middleware_witness :
  let out := Server.uploads_documents Ex.env "/temp-ab12/nic_proof-ab12.pdf"
               (Ex.world [] Ex.base) in
  out.1 = Ret (DocumentFileNotFound "/temp-ab12/nic_proof-ab12.pdf")
  ∧ Fs.stat (w_fs out.2) (Ex.docs ++ ["temp-ab12"]) = Some Dir
  ∧ Promotion.staged_path "temp-ab12" "nic_proof-ab12.pdf"
    = "/uploads/documents/temp-ab12/nic_proof-ab12.pdf"
  ∧ Server.match_temp_dir "/temp-ab12/nic_proof-ab12.pdf" = Some "ab12".
Proof.
  intros out.
  destruct (access_middleware Ex.env "/temp-ab12/nic_proof-ab12.pdf" (Ex.world [] Ex.base))
    as (_ & _ & H & Hstaged).
  destruct (H eq_refl) as (Hout & _ & Hdir). split; [exact Hout |]. split.
  - apply (Hdir "ab12" eq_refl); [by intros q |].
    apply clear_way_check. by vm_compute.
  - exact (Hstaged "ab12" "nic_proof-ab12.pdf" eq_refl).
Defined.

Section Redirect.
Variable E : Env.

Lemma join_documents_url url :
  Js.startsWith "/" url = true →
  Path.join (root E) ("/uploads/documents" +:+ url) = Path.join (documents_dir E) url.
Proof.
  intros H%prefix_split. set (rest := Js.drop _ url) in H. clearbody rest. subst url.
  rewrite join_rooted.
  change ("/uploads/documents" +:+ "/" +:+ rest) with ("/uploads/documents/" +:+ rest).
  by rewrite join_uploads_documents.
Qed.

Lemma legacy_url url :
  Js.startsWith "/" url = true →
  Shape.missing_prefix ("/documents" +:+ url) = true
  ∧ Server.normalizedPath ("/documents" +:+ url) = "/uploads/documents" +:+ url.
Proof.
  intros H%prefix_split. set (rest := Js.drop _ url) in H. clearbody rest. subst url.
  change ("/documents" +:+ "/" +:+ rest) with ("/documents/" +:+ rest).
  change ("/uploads/documents" +:+ "/" +:+ rest) with ("/uploads/documents/" +:+ rest).
  split; [| apply normalized_legacy].
  unfold Shape.missing_prefix, Js.startsWith. by rewrite prefix_append.
Qed.

End Redirect.

(** X10. The middleware of [/documents] changes nothing.  The path it
    is asked for lacks the [/uploads] prefix, and it answers with a
    redirect exactly when the file exists in the documents directory:
    the location is the path with the prefix, the path that the repair
    of the prefixes writes in a column that holds the requested path,
    and the middleware of [/uploads/documents] passes the redirected
    request on. *)
Theorem legacy_redirect (E : Env) (url : string) (w : World) :
  Js.startsWith "/" url = true →
  let legacy := "/documents" +:+ url in
  let location := "/uploads/documents" +:+ url in
  let out := Server.documents E url w in
  out.2 = w
  ∧ Shape.missing_prefix legacy = true
  ∧ Server.normalizedPath legacy = location
  ∧ (∀ r fld, Js.truthy (r !! fld) = Some legacy →
       prefix_fix_of r fld = Some (fld, Some location))
  ∧ (Fs.existsSync (w_fs w) (Path.join (root E) location) = true →
     out.1 = Ret (Redirect location)
     ∧ Server.uploads_documents E url w = (Ret Next, w))
  ∧ (Fs.existsSync (w_fs w) (Path.join (root E) location) = false →
     out.1 = Ret (RedirectNotFound legacy location (Path.join (root E) location))).
Proof.
  intros Hurl legacy location out.
  destruct (legacy_url url Hurl) as [Hmiss Hnorm].
  pose proof (join_documents_url E url Hurl) as Hjoin. fold location in Hjoin, Hnorm.
  unfold out, Server.documents. erewrite bind_run by apply existsSync_run.
  rewrite Hjoin.
  split; [by destruct (Fs.existsSync _ _) |]. split; [done |]. split; [done |].
  split.
  { intros r fld Ht. unfold prefix_fix_of. rewrite Ht. fold legacy in Hmiss.
    by rewrite Hmiss. }
  split.
  - intros Hex. rewrite Hex. split; [done |].
    unfold Server.uploads_documents. erewrite bind_run by apply existsSync_run.
    by rewrite Hex.
  - by intros ->.
Qed.

(** X10, on a file of the folder of a client. *)
Lemma legacy_redirect_witness :
  let w := Ex.world [Ex3.nic_client] Ex3.nic_in_folder in
  (Server.documents Ex.env "/C123/nic_proof-ab12.pdf" w).1
    = Ret (Redirect "/uploads/documents/C123/nic_proof-ab12.pdf")
  ∧ Server.uploads_documents Ex.env "/C123/nic_proof-ab12.pdf" w = (Ret Next, w)
  ∧ prefix_fix_of (Ex.client "C123" "nic_proof" "/documents/C123/nic_proof-ab12.pdf")
      "nic_proof"
    = Some ("nic_proof", Some "/uploads/documents/C123/nic_proof-ab12.pdf").
Proof.
  intros w.
  destruct (legacy_redirect Ex.env "/C123/nic_proof-ab12.pdf" w eq_refl)
    as (_ & _ & _ & Hfix & Hthere & _).
  destruct (Hthere eq_refl) as [Hr Hnext]. split; [exact Hr |]. split; [exact Hnext |].
  apply Hfix. by vm_compute.
Defined.

Section FileAccess.
Variable E : Env.

Lemma is_directory_run p w n :
  Fs.stat (w_fs w) p = Some n →
  Server.is_directory p w = (Ret (bool_decide (n = Dir)), w).
Proof. intros H. unfold Server.is_directory. rewrite H. by destruct n. Qed.

Lemma includes_skip (p s : string) c :
  String.prefix p (String c s) = false → Js.includes p (String c s) = Js.includes p s.
Proof. intros H. cbn [Js.includes]. by rewrite H. Qed.

(** A path without the [/uploads] prefix has the alternative only
    when [/documents/] occurs again in it. *)
Lemma legacy_includes rest :
  Js.includes "/documents/" ("documents/" +:+ rest) = Js.includes "/documents/" ("/" +:+ rest).
Proof.
  change ("documents/" +:+ rest)
    with (String "d" (String "o" (String "c" (String "u" (String "m" (String "e"
           (String "n" (String "t" (String "s" ("/" +:+ rest)))))))))).
  by rewrite !includes_skip by done.
Qed.

Lemma legacy_no_alternative p :
  Shape.missing_prefix p = true →
  Js.includes "/documents/" (Js.drop 10 p) = false →
  negb (Js.startsWith "uploads/" (Js.drop 1 p)) && Js.includes "/documents/" (Js.drop 1 p)
  = false.
Proof.
  unfold Shape.missing_prefix, Js.startsWith. intros [Hd _]%andb_prop.
  apply prefix_split in Hd. set (r := Js.drop _ p) in Hd. clearbody r. subst p.
  change (Js.drop 10 ("/documents/" +:+ r)) with ("/" +:+ r).
  change (Js.drop 1 ("/documents/" +:+ r)) with ("documents/" +:+ r).
  rewrite legacy_includes. by intros ->.
Qed.

Lemma test_file_access_pure filePath w :
  ∃ a, Server.test_file_access E filePath w = (Ret a, w).
Proof.
  unfold Server.test_file_access. destruct (Js.truthy filePath) as [p|]; [| by eexists].
  cbv [bind existsSync get_fs ret try_catch Server.is_directory].
  repeat (case_match; simplify_eq/=); by eexists.
Qed.

End FileAccess.

(** X11. [GET /api/test-file-access] always answers and changes
    nothing; without a path it turns the request down.  For a path
    that begins with a slash and does not end with one it looks at the
    place that the scan and the handlers of the documents take for a
    stored path, and when something is there it tells whether it is a
    directory.  For a path without the [/uploads] prefix in which
    [/documents/] does not occur again it has no alternative place:
    such a path is looked for next to the uploads directory and not in
    it. *)
Theorem test_file_access_reads (E : Env) (filePath : option string) (w : World) :
  ∃ a,
    Server.test_file_access E filePath w = (Ret a, w)
    ∧ (Js.truthy filePath = None → a = None)
    ∧ ∀ p, Js.truthy filePath = Some p → Js.startsWith "/" p = true → plain_end p →
        ∃ fa,
          a = Some fa
          ∧ requestedPath fa = p
          ∧ fa_exists fa = Fs.existsSync (w_fs w) (Path.join (root E) p)
          ∧ (∀ n, Fs.stat (w_fs w) (Path.join (root E) p) = Some n →
               fa_fullPath fa = Path.join (root E) p
               ∧ info fa = Some {| isDirectory := bool_decide (n = Dir);
                                   atAlternativePath := false |})
          ∧ (Shape.missing_prefix p = true →
             Js.includes "/documents/" (Js.drop 10 p) = false →
             altPath fa = None ∧ altExists fa = false
             ∧ (fa_exists fa = false → info fa = None)).
Proof.
  destruct (test_file_access_pure E filePath w) as [a Ha]. exists a.
  split; [done |]. split.
  { intros Ht. unfold Server.test_file_access in Ha. rewrite Ht in Ha. by injection Ha. }
  intros p Ht Hslash _. unfold Server.test_file_access in Ha. rewrite Ht, Hslash in Ha.
  assert (Hjoin : Path.join (root E) (Js.drop 1 p) = Path.join (root E) p).
  { apply prefix_split in Hslash as Hp. cbn [String.length] in Hp.
    rewrite Hp at 2. by rewrite join_rooted. }
  rewrite Hjoin in Ha. unfold Fs.existsSync.
  destruct (negb _ && _) eqn:Halt;
    destruct (Fs.stat (w_fs w) (Path.join (root E) p)) as [[|c]|] eqn:Hn;
    destruct (Fs.stat (w_fs w) (Path.join (root E ++ ["uploads"]) (Js.drop 1 p)))
      as [[|c']|] eqn:Hq;
    do 4 (cbv [bind existsSync get_fs ret try_catch Server.is_directory Fs.existsSync] in Ha;
          rewrite ?Hn, ?Hq in Ha);
    injection Ha as <-; (eexists; split; [done |]); cbn;
    (split; [done |]); (split; [done |]); (split; [by intros ? [= <-] |]);
    intros Hmiss Hinc; first [done | by rewrite legacy_no_alternative in Halt].
Qed.

(** X11, on a path without the prefix whose file is in the folder of
    the client. *)
Lemma test_file_access_reads_witness :
  let w := Ex.world [Ex3.nic_client] Ex3.nic_in_folder in
  ∃ fa,
    Server.test_file_access Ex.env (Some "/documents/C123/nic_proof-ab12.pdf") w
    = (Ret (Some fa), w)
    ∧ fa_exists fa = false ∧ altPath fa = None ∧ altExists fa = false ∧ info fa = None.
Proof.
  intros w.
  destruct (test_file_access_reads Ex.env (Some "/documents/C123/nic_proof-ab12.pdf") w)
    as (a & Hrun & _ & Hpath).
  destruct (Hpath "/documents/C123/nic_proof-ab12.pdf") as (fa & -> & _ & Hex & _ & Hlegacy).
  - reflexivity.
  - reflexivity.
  - by vm_compute.
  - exists fa. split; [exact Hrun |].
    destruct Hlegacy as (Halt & Haltex & Hinfo); [reflexivity | reflexivity |].
    split; [exact Hex |]. split; [exact Halt |]. split; [exact Haltex |].
    apply Hinfo. exact Hex.
Defined.

(** ** The handlers of [routes/clients.ts] and the owner of a client *)

Section Owner.
Variable E : Env.

Lemma not_owner_sales user r :
  not_owner user r = true
  ↔ ∃ u, user = Some u ∧ role u = "sales" ∧ r !! "sales_rep_id" ≠ Some (userId u).
Proof.
  unfold not_owner. split.
  - destruct user as [u|]; [| done]. intros [Hr Ho]%andb_prop.
    exists u. split; [done |]. split; [by apply String.eqb_eq |].
    apply negb_true_iff in Ho. by apply bool_decide_eq_false in Ho.
  - intros (u & -> & Hr & Ho). apply andb_true_intro. split; [by apply String.eqb_eq |].
    apply negb_true_iff. by apply bool_decide_eq_false.
Qed.

(** The handlers that take an upload turn the request down when the
    user is not the owner. *)
Lemma foreign_client_facts user id w r :
  row_of id (w_db w) = Some r → not_owner user r = true →
  (∀ documentType name t, Js.truthy documentType = Some t →
     Documents.post_document E user id documentType (Some name) w = (Ret Forbidden, w))
  ∧ (∀ selfCall body fs,
       Documents.put_with_documents E selfCall user id body fs w = (Ret Forbidden, w)).
Proof.
  intros Hrow Hno. split; intros;
    unfold Documents.put_with_documents, Documents.post_document;
    try match goal with H : Js.truthy _ = Some _ |- _ => rewrite H end;
    (erewrite try_run; [done |]);
    erewrite bind_run by apply getById_run; by rewrite Hrow, Hno.
Qed.

End Owner.

(** X12. A request that names a client of which the user, a sales
    representative, is not the owner is answered with [403] by every
    handler of the documents and of the data of a client, and a request
    that names no client of the store is answered with [404]; in both
    cases the handler leaves the rows, the files and the trace as they
    are. *)
Theorem foreign_client_untouched (E : Env) (user : option User) (id : string) (w : World) :
  (∀ r, row_of id (w_db w) = Some r → not_owner user r = true →
     (∃ u, user = Some u ∧ role u = "sales" ∧ r !! "sales_rep_id" ≠ Some (userId u))
     ∧ (∀ clientData, Routes.put E user id clientData w = (Ret Forbidden, w))
     ∧ (∀ selfCall body fs,
          Documents.put_with_documents E selfCall user id body fs w = (Ret Forbidden, w))
     ∧ (∀ documentType name t, Js.truthy documentType = Some t →
          Documents.post_document E user id documentType (Some name) w = (Ret Forbidden, w))
     ∧ (∀ documentType, Documents.delete_document E user id documentType w = (Ret Forbidden, w))
     ∧ (∀ filename, Routes.serve E user id filename w = (Ret DeliveryForbidden, w))
     ∧ (∀ filename, Routes.download E user id filename w = (Ret DeliveryForbidden, w))
     ∧ (∀ protocol host documentType,
          Routes.direct_link user protocol host id documentType w = (Ret LinkForbidden, w)))
  ∧ (row_of id (w_db w) = None →
     (∀ clientData, Routes.put E user id clientData w = (Ret ClientNotFound, w))
     ∧ (∀ selfCall body fs,
          Documents.put_with_documents E selfCall user id body fs w = (Ret ClientNotFound, w))
     ∧ (∀ documentType name t, Js.truthy documentType = Some t →
          Documents.post_document E user id documentType (Some name) w
          = (Ret ClientNotFound, w))
     ∧ (∀ documentType,
          Documents.delete_document E user id documentType w = (Ret ClientNotFound, w))
     ∧ (∀ refused, Routes.delete E refused id w = (Ret RemovalClientNotFound, w))
     ∧ (∀ filename, Routes.serve E user id filename w = (Ret DeliveryClientNotFound, w))
     ∧ (∀ filename, Routes.download E user id filename w = (Ret DeliveryClientNotFound, w))
     ∧ (∀ protocol host documentType,
          Routes.direct_link user protocol host id documentType w
          = (Ret LinkClientNotFound, w))).
Proof.
  split.
  - intros r Hrow Hno. split; [by apply not_owner_sales |].
    repeat split; intros;
      unfold Routes.put, Documents.put_with_documents, Documents.post_document,
        Documents.delete_document, Routes.serve, Routes.download, Routes.direct_link;
      try match goal with H : Js.truthy _ = Some _ |- _ => rewrite H end;
      (erewrite try_run; [done |]);
      erewrite bind_run by apply getById_run; by rewrite Hrow, Hno.
  - intros Hrow.
    repeat split; intros;
      unfold Routes.put, Documents.put_with_documents, Documents.post_document,
        Documents.delete_document, Routes.delete, Routes.serve, Routes.download,
        Routes.direct_link;
      try match goal with H : Js.truthy _ = Some _ |- _ => rewrite H end;
      (erewrite try_run; [done |]);
      erewrite bind_run by apply getById_run; by rewrite Hrow.
Qed.

(** X12, on a sales representative and the client of another. *)
Lemma foreign_client_untouched_witness :
  let w := Ex.world [Ex3.nic_client] Ex3.nic_in_folder in
  let user := Some {| role := "sales"; userId := "7" |} in
  Documents.delete_document Ex.env user "C123" "nic_proof" w = (Ret Forbidden, w)
  ∧ Routes.download Ex.env user "C123" "nic_proof-ab12.pdf" w = (Ret DeliveryForbidden, w)
  ∧ Routes.serve Ex.env user "C9" "nic_proof-ab12.pdf" w = (Ret DeliveryClientNotFound, w).
Proof.
  intros w user.
  destruct (foreign_client_untouched Ex.env user "C123" w) as [Hforeign _].
  destruct (Hforeign Ex3.nic_client eq_refl eq_refl)
    as (_ & _ & _ & _ & Hdel & _ & Hdown & _).
  destruct (foreign_client_untouched Ex.env user "C9" w) as [_ Hnone].
  destruct (Hnone eq_refl) as (_ & _ & _ & _ & _ & Hserve & _).
  split; [apply Hdel |]. split; [apply Hdown | apply Hserve].
Defined.

Section Uploads.
Variable E : Env.

(** The storage writes an uploaded file in its folder, which it makes
    when it is missing. *)
Lemma receive_run paramsId uuid name content w folder :
  folder = match Js.truthy paramsId with
           | Some i => i
           | None => "temp-" +:+ uuid
           end →
  Path.segment folder → Path.segment name → no_io_fault E →
  clear_way (w_fs w) (documents_dir E ++ [folder]) →
  w_fs w !! (documents_dir E ++ [folder; name]) ≠ Some Dir →
  ∃ w1,
    Storage.receive E paramsId uuid name content w
    = (Ret (documents_dir E ++ [folder; name]), w1)
    ∧ w_db w1 = w_db w
    ∧ w_fs w1 !! (documents_dir E ++ [folder; name]) = Some (File content)
    ∧ Fs.stat (w_fs w1) (documents_dir E ++ [folder]) = Some Dir
    ∧ (∀ q n, q ≠ documents_dir E ++ [folder; name] →
         w_fs w !! q = Some n → w_fs w1 !! q = Some n)
    ∧ (∀ q n, q ≠ documents_dir E ++ [folder; name] → w_fs w1 !! q = Some n →
         w_fs w !! q = Some n ∨ (n = Dir ∧ q `prefix_of` documents_dir E ++ [folder])).
Proof.
  intros Hfolder Hseg Hname Hf Hc Hnd.
  unfold Storage.receive, Storage.destination. rewrite <-Hfolder.
  rewrite (join_segment _ folder Hseg).
  destruct (ensure_dir_clear E (documents_dir E ++ [folder]) w Hf Hc)
    as (made & w1 & Hr1 & Hdb1 & Hsub & Hstat & Hnew & _).
  erewrite bind_run by (erewrite bind_run by exact Hr1; done).
  rewrite (join_segment _ name Hname), <-app_assoc. cbn [app].
  set (target := documents_dir E ++ [folder; name]) in *.
  assert (Hparent : removelast target = documents_dir E ++ [folder]).
  { unfold target. change [folder; name] with ([folder] ++ [name]).
    by rewrite app_assoc, removelast_last. }
  assert (Hput : Fs.put (io_fault E) target content (w_fs w1)
                 = (<[target := File content]> (w_fs w1), None)).
  { apply put_ok; [| by rewrite Hparent | done].
    assert (target ≠ []) by (unfold target; by destruct (documents_dir E)).
    rewrite stat_lookup by done. intros Hl.
    destruct (Hnew _ _ Hl) as [?|(_ & _ & Hpre)]; [done |].
    rewrite <-Hparent in Hpre. by apply not_prefix_removelast in Hpre. }
  eexists. split.
  { unfold writeFileSync. erewrite bind_run by (by apply fs_call_ok). done. }
  cbn [w_db w_fs]. split; [done |]. split; [apply lookup_insert_eq |].
  split.
  { rewrite stat_snoc, lookup_insert_ne; [by rewrite <-stat_snoc |].
    intros Heq. assert (Hlen := f_equal length Heq). unfold target in Hlen.
    rewrite !length_app in Hlen. simpl in Hlen. lia. }
  split.
  - intros q n Hq Hl. rewrite lookup_insert_ne by done. by eapply lookup_weaken.
  - intros q n Hq Hl. rewrite lookup_insert_ne in Hl by done.
    destruct (Hnew _ _ Hl) as [?|(? & _ & ?)]; [by left | by right].
Qed.

End Uploads.

(** X13. The storage of the uploads writes the file of a request
    before the handler looks at the owner of the client: when a sales
    representative uploads a document for the client of another, the
    answer is [403] and no row changes, and the file is in the folder
    of that client. *)
Theorem refused_upload_stays (E : Env) (user : option User) (id : string)
    (documentType : option string) (t uuid name content : string) (w : World) (r : row) :
  row_of id (w_db w) = Some r → not_owner user r = true →
  Js.truthy documentType = Some t →
  Path.segment id → Path.segment name → no_io_fault E →
  clear_way (w_fs w) (documents_dir E ++ [id]) →
  w_fs w !! (documents_dir E ++ [id; name]) ≠ Some Dir →
  ∃ w1,
    Storage.receive E (Some id) uuid name content w
    = (Ret (documents_dir E ++ [id; name]), w1)
    ∧ Documents.post_document E user id documentType (Some name) w1 = (Ret Forbidden, w1)
    ∧ (∀ selfCall body field,
         Documents.put_with_documents E selfCall user id body [(field, name)] w1
         = (Ret Forbidden, w1))
    ∧ w_db w1 = w_db w
    ∧ w_fs w1 !! (documents_dir E ++ [id; name]) = Some (File content).
Proof.
  intros Hrow Hno Ht Hid Hname Hf Hc Hnd.
  destruct (receive_run E (Some id) uuid name content w id) as (w1 & Hr & Hdb & Hfile & _);
    try done.
  { destruct Hid as (_ & Hne & _). by destruct id. }
  exists w1. split; [done |].
  destruct (foreign_client_facts E user id w1 r) as (Hpost & Hput); [by rewrite Hdb | done |].
  split; [by eapply Hpost |]. split; [intros; apply Hput | done].
Qed.

(** X13, on a sales representative and the client of another. *)
Lemma refused_upload_stays_witness :
  let w := Ex.world [Ex3.nic_client] Ex3.nic_in_folder in
  let user := Some {| role := "sales"; userId := "7" |} in
  ∃ w1,
    Storage.receive Ex.env (Some "C123") "ffff" "nic_proof-cd34.pdf" "MINE" w
    = (Ret (documents_dir Ex.env ++ ["C123"; "nic_proof-cd34.pdf"]), w1)
    ∧ Documents.post_document Ex.env user "C123" (Some "nic_proof")
        (Some "nic_proof-cd34.pdf") w1 = (Ret Forbidden, w1)
    ∧ (∀ selfCall body field,
         Documents.put_with_documents Ex.env selfCall user "C123" body
           [(field, "nic_proof-cd34.pdf")] w1 = (Ret Forbidden, w1))
    ∧ w_db w1 = [Ex3.nic_client]
    ∧ w_fs w1 !! (documents_dir Ex.env ++ ["C123"; "nic_proof-cd34.pdf"])
      = Some (File "MINE").
Proof.
  intros w user.
  apply (refused_upload_stays Ex.env user "C123" (Some "nic_proof") "nic_proof"
           "ffff" "nic_proof-cd34.pdf" "MINE" w Ex3.nic_client).
  - reflexivity.
  - reflexivity.
  - reflexivity.
  - by vm_compute.
  - by vm_compute.
  - by intros q.
  - apply clear_way_check. by vm_compute.
  - by vm_compute.
Defined.

Section Validation.
Variable E : Env.

Lemma required_not_id f : f ∈ requiredFields → f ≠ "id".
Proof.
  intros Hf ->. unfold requiredFields in Hf.
  repeat (apply elem_of_cons in Hf as [Hf|Hf]; [done |]). by apply elem_of_nil in Hf.
Qed.

Lemma filter_nil_none {A} (P : A → Prop) `{!∀ x, Decision (P x)} (l : list A) x :
  filter P l = [] → x ∈ l → ¬ P x.
Proof.
  intros Hnil Hx HP. assert (Hin : x ∈ filter P l) by (by apply list_elem_of_filter).
  rewrite Hnil in Hin. by apply elem_of_nil in Hin.
Qed.

Lemma with_sales_rep_lookup user body :
  (∀ k, k ≠ "sales_rep_id" → Routes.with_sales_rep user body !! k = body !! k)
  ∧ (∀ u, user = Some u → role u = "sales" → Js.truthy (body !! "sales_rep_id") = None →
       Routes.with_sales_rep user body !! "sales_rep_id" = Some (userId u))
  ∧ (is_Some (Js.truthy (body !! "sales_rep_id")) → Routes.with_sales_rep user body = body).
Proof.
  unfold Routes.with_sales_rep. split; [| split].
  - intros k Hk. destruct (Js.truthy (body !! "sales_rep_id")); [done |].
    destruct user as [u|]; [| done]. destruct (String.eqb (role u) "sales"); [| done].
    by rewrite lookup_insert_ne.
  - intros u -> Hr%String.eqb_eq ->. rewrite Hr. apply lookup_insert_eq.
  - by intros [v ->].
Qed.

End Validation.

(** X14. [POST /api/clients] turns down a request that lacks a
    required field, naming the fields that are missing in the order of
    the list, and creates nothing.  When it answers [201], its id was
    free, the new row is first in the store, it has the id and every
    required field with a value, and the files are as before; the
    client of a sales representative who names no representative is
    theirs.  When it answers [500] nothing has changed. *)
Theorem post_validates (E : Env) (user : option User) (body : row) (uuid : string)
    (w : World) :
  let clientData := Routes.with_sales_rep user body in
  let missingFields := filter (λ f, Js.truthy (clientData !! f) = None) requiredFields in
  let out := Routes.post E user body uuid w in
  (missingFields ≠ [] → out = (Ret (MissingFields missingFields), w))
  ∧ (∀ id, out.1 = Ret (Created id) →
       missingFields = [] ∧ id = new_id clientData uuid
       ∧ row_of id (w_db w) = None
       ∧ w_db out.2 = <["id" := id]> clientData :: w_db w
       ∧ row_of id (w_db out.2) = Some (<["id" := id]> clientData)
       ∧ w_fs out.2 = w_fs w
       ∧ (∀ f, f ∈ requiredFields →
            ∃ v, (<["id" := id]> clientData : row) !! f = Some v ∧ v ≠ "")
       ∧ (∀ u, user = Some u → role u = "sales" →
            Js.truthy (body !! "sales_rep_id") = None →
            (<["id" := id]> clientData : row) !! "sales_rep_id" = Some (userId u)))
  ∧ (∀ e, out.1 = Ret (ServerError e) → out.2 = w)
  ∧ (missingFields = [] →
     row_of (new_id clientData uuid) (w_db w) = None →
     db_fault E (new_id clientData uuid) (Client.set_all (delete "id" clientData)) = false →
     out.1 = Ret (Created (new_id clientData uuid))).
Proof.
  intros clientData missingFields out.
  assert (Hout : out = match missingFields with
                       | _ :: _ => (Ret (MissingFields missingFields), w)
                       | [] =>
                           if existsb (Client.has_id (new_id clientData uuid)) (w_db w)
                              || db_fault E (new_id clientData uuid)
                                   (Client.set_all (delete "id" clientData))
                           then (Ret (ServerError EDB), w)
                           else (Ret (Created (new_id clientData uuid)),
                                 {| w_db := <["id" := new_id clientData uuid]> clientData
                                            :: w_db w;
                                    w_fs := w_fs w;
                                    w_trace := w_trace w
                                               ++ [EvInsert (new_id clientData uuid)] |})
                       end).
  { unfold out, Routes.post. fold clientData. fold missingFields.
    destruct missingFields; [| done].
    unfold try_catch, bind, Client.create. fold (new_id clientData uuid).
    by destruct (existsb _ _ || db_fault _ _ _). }
  split; [| split; [| split]].
  - intros Hne. rewrite Hout. by destruct missingFields.
  - intros id. rewrite Hout. destruct missingFields as [|f l] eqn:Hmiss; [| done].
    destruct (existsb _ _) eqn:Hex; [done |]. simpl orb.
    destruct (db_fault _ _ _); [done |]. cbn [fst snd w_db w_fs].
    intros [= <-]. split; [done |]. split; [done |].
    split; [by apply row_of_None |]. split; [done |].
    split; [apply row_of_head, lookup_insert_eq |]. split; [done |].
    split.
    + intros fld Hfld. rewrite lookup_insert_ne by (symmetry; by apply required_not_id).
      pose proof (filter_nil_none _ _ fld Hmiss Hfld) as Hv. simpl in Hv.
      destruct (clientData !! fld) as [v|]; [| done]. exists v. split; [done |].
      by intros ->.
    + intros u Hu Hr Hs. rewrite lookup_insert_ne by done.
      by eapply with_sales_rep_lookup.
  - intros e. rewrite Hout. destruct missingFields; [| done].
    by destruct (existsb _ _ || db_fault _ _ _).
  - intros Hnil Hfree Hdb. rewrite Hout, Hnil.
    apply row_of_None in Hfree. by rewrite Hfree, Hdb.
Qed.

(** X14, on a request with and without the name of the client. *)
Lemma post_validates_witness :
  let user := Some {| role := "sales"; userId := "7" |} in
  let w := Ex.world [Ex3.plain_client] Ex.base in
  Routes.post Ex.env user (delete "client_name" Ex7.body) "ffff0000-aaaa" w
    = (Ret (MissingFields ["client_name"]), w)
  ∧ (Routes.post Ex.env user Ex7.body "ffff0000-aaaa" w).1 = Ret (Created "Cffff0000")
  ∧ stored_path "Cffff0000" "sales_rep_id"
      (w_db (Routes.post Ex.env user Ex7.body "ffff0000-aaaa" w).2) = Some "7".
Proof.
  intros user w.
  destruct (post_validates Ex.env user (delete "client_name" Ex7.body) "ffff0000-aaaa" w)
    as (Hmissing & _).
  destruct (post_validates Ex.env user Ex7.body "ffff0000-aaaa" w)
    as (_ & Hcreated & _ & Hruns).
  split; [by apply Hmissing |].
  assert (Hout : (Routes.post Ex.env user Ex7.body "ffff0000-aaaa" w).1
                 = Ret (Created "Cffff0000")).
  { apply Hruns; by vm_compute. }
  split; [exact Hout |].
  destruct (Hcreated _ Hout) as (_ & _ & _ & _ & Hrow & _ & _ & Hrep).
  unfold stored_path. rewrite Hrow. by apply (Hrep _ eq_refl).
Defined.

(** ** The references that the upload handlers write *)

Section Recognised.

Lemma includes_prefix (p s : string) : String.prefix p s = true → Js.includes p s = true.
Proof. destruct s; simpl; by intros ->. Qed.

Lemma includes_append (p a b : string) : Js.includes p (a +:+ p +:+ b) = true.
Proof.
  induction a as [|c a IH].
  { change ("" +:+ p +:+ b) with (p +:+ b). apply includes_prefix, prefix_append. }
  change (String c a +:+ p +:+ b) with (String c (a +:+ p +:+ b)).
  cbn [Js.includes]. rewrite IH. by destruct (String.prefix _ _).
Qed.

Lemma temp_hex_segment u :
  Shape.temp_hex ("temp-" +:+ u) = true → Path.segment ("temp-" +:+ u).
Proof.
  intros Hhex. apply temp_prefix_segment; [| apply prefix_append].
  apply split_temp, lower_hex_segment. unfold Shape.temp_hex in Hhex.
  apply andb_prop in Hhex as [_ Hall]. by rewrite lower_hex.
Qed.

Lemma match_repair_staged u name :
  Shape.temp_hex ("temp-" +:+ u) = true → Path.segment name →
  Shape.match_repair (Promotion.staged_path ("temp-" +:+ u) name)
  = Some ("temp-" +:+ u, name).
Proof.
  intros Hhex Hname. pose proof (temp_hex_segment u Hhex) as Hseg.
  unfold Shape.match_repair, Shape.staged.
  rewrite split_staged by (by destruct Hseg, Hname).
  cbn [rev app]. change (String.eqb "documents" "documents") with true.
  change (String.eqb "uploads" "uploads") with true. cbn [andb].
  rewrite Hhex. cbn [andb]. destruct Hname as (_ & Hne & _). by rewrite eqb_empty.
Qed.

End Recognised.

(** X15. The path that [POST /api/clients/with-documents] writes for
    a staged file, with a temporary id made of [temp-] and a uuid, has
    the canonical form and the [/uploads] prefix, and every endpoint
    recognises it as staged: the pattern of [repair-all-documents]
    yields the folder and the file, the pattern of [check-documents]
    the file, the path contains [temp-], it names the file of the
    temporary folder, and the request for it names that folder to the
    middleware of [/uploads/documents]. *)
Theorem staged_reference_recognised (u name : string) :
  Shape.temp_hex ("temp-" +:+ u) = true → Path.segment name →
  let docPath := Promotion.staged_path ("temp-" +:+ u) name in
  Shape.match_repair docPath = Some ("temp-" +:+ u, name)
  ∧ Shape.match_scan docPath = Some name
  ∧ Js.includes "temp-" docPath = true
  ∧ Shape.missing_prefix docPath = false
  ∧ Shape.canonical docPath = true
  ∧ Shape.decode docPath = Some ("temp-" +:+ u, name)
  ∧ (∀ E, Path.join (root E) docPath = documents_dir E ++ ["temp-" +:+ u; name])
  ∧ Server.match_temp_dir (Js.drop (String.length "/uploads/documents") docPath) = Some u.
Proof.
  intros Hhex Hname docPath. subst docPath. pose proof (temp_hex_segment u Hhex) as Hseg.
  pose proof (match_repair_staged u name Hhex Hname) as Hrepair.
  pose proof (decode_staged _ _ Hseg Hname) as Hdecode.
  split; [done |]. split.
  { unfold Shape.match_scan, Shape.staged.
    rewrite split_staged by (by destruct Hseg, Hname). cbn [rev app].
    change (String.eqb "documents" "documents") with true.
    change (String.eqb "uploads" "uploads") with true. cbn [andb].
    unfold Shape.temp_any. unfold Shape.temp_hex in Hhex.
    apply andb_prop in Hhex as [Hhex _]. rewrite Hhex. cbn [andb].
    destruct Hname as (_ & Hne & _). by rewrite eqb_empty. }
  split; [apply (includes_append "temp-" "/uploads/documents/" (u +:+ "/" +:+ name)) |].
  split; [done |]. split.
  { unfold Shape.decode in Hdecode.
    destruct (Js.split_slash _) as [|? [|? [|? [|? [|? [|]]]]]]; try done.
    by destruct (Shape.canonical _). }
  split; [done |]. split; [intros E; by apply join_staged |].
  by apply match_temp_dir_staged.
Qed.

(** X15, on the staged proof of identity. *)
Lemma staged_reference_recognised_witness :
  Shape.match_repair "/uploads/documents/temp-ab12/nic_proof-ab12.pdf"
    = Some ("temp-ab12", "nic_proof-ab12.pdf")
  ∧ Shape.match_scan "/uploads/documents/temp-ab12/nic_proof-ab12.pdf"
    = Some "nic_proof-ab12.pdf"
  ∧ Server.match_temp_dir "/temp-ab12/nic_proof-ab12.pdf" = Some "ab12".
Proof.
  destruct (staged_reference_recognised "ab12" "nic_proof-ab12.pdf")
    as (Hrepair & Hscan & _ & _ & _ & _ & _ & Hdir).
  - reflexivity.
  - by vm_compute.
  - split; [exact Hrepair |]. split; [exact Hscan | exact Hdir].
Defined.

Section Pinned.
Variable E : Env.
Variables (cid field : string).

Global Instance db_same_preorder : PreOrder db_same.
Proof.
  split; [by intros w |]. unfold db_same. intros w1 w2 w3 H1 H2. by rewrite H2.
Qed.

Global Instance pinned_preorder : PreOrder (pinned cid field).
Proof.
  split.
  - intros w r l Hdb Hid Hothers. by exists r, l.
  - intros w1 w2 w3 H1 H2 r l Hdb Hid Hothers.
    destruct (H1 r l Hdb Hid Hothers) as (r' & l' & Hdb' & Hid' & Hf' & Hothers').
    destruct (H2 r' l' Hdb' Hid' Hothers') as (r'' & l'' & Hdb'' & Hid'' & Hf'' & Hothers'').
    exists r'', l''. split; [done |]. split; [done |]. split; [congruence | done].
Qed.

Lemma db_same_pinned w w' : db_same w w' → pinned cid field w w'.
Proof. unfold db_same. intros Hsame r l Hdb Hid Hothers. exists r, l. by rewrite Hsame. Qed.

Lemma keeps_weaken {A} (R R' : relation World) (m : M A) :
  (∀ w w', R w w' → R' w w') → keeps R m → keeps R' m.
Proof. intros Hsub H w. apply Hsub, H. Qed.

Lemma framed_both {A} (R : relation World) (m : M A) w (Q : A → World → Prop) :
  keeps R m → post m w Q (λ _ _, True) → framed R m w Q.
Proof.
  intros Hk Hp. unfold framed, post in *. specialize (Hk w).
  by destruct (m w) as [[a|e] w1].
Qed.

Lemma fs_call_db_same ev op : keeps db_same (fs_call ev op).
Proof. intros w. unfold fs_call. by destruct (op (w_fs w)).2. Qed.

Lemma ensure_dir_db_same p : keeps db_same (ensure_dir E p).
Proof.
  apply keeps_bind; [apply _ | apply keeps_existsSync, _ |].
  intros [|]; [apply keeps_ret, _ |].
  apply keeps_bind; [apply _ | apply fs_call_db_same | intros; apply keeps_ret, _].
Qed.

Lemma repair_field_db_same client acc fld :
  keeps db_same (Repair.field_step E client acc fld).
Proof.
  unfold Repair.field_step. destruct (Js.truthy (client !! fld)); [| apply keeps_ret, _].
  destruct (Shape.match_repair _) as [[tempId filename]|].
  - apply keeps_bind; [apply _ | apply ensure_dir_db_same | intros made].
    apply keeps_bind; [apply _ | apply keeps_existsSync, _ | intros [|]];
      [apply keeps_ret, _ |].
    apply keeps_try; [apply _ | | intros; apply keeps_ret, _].
    apply keeps_bind; [apply _ | apply fs_call_db_same | intros; apply keeps_ret, _].
  - destruct (Shape.missing_prefix _); apply keeps_ret, _.
Qed.

Lemma update_query_pinned id data :
  (id = cid → field ∉ data.*1) → "id" ∉ data.*1 →
  keeps (pinned cid field) (Client.update_query E id data).
Proof.
  intros Hfield Hid w. unfold Client.update_query.
  destruct (db_fault E id data); [reflexivity |]. cbn [snd].
  intros r l Hdb Hr Hothers. cbn [w_db]. rewrite Hdb. cbn [Client.update_rows fmap list_fmap].
  eexists _, _. split; [done |].
  assert (Hids : ∀ x : row,
             (if Client.has_id id x then Client.apply data x else x) !! "id" = x !! "id").
  { intros x. destruct (Client.has_id id x); [by apply apply_other | done]. }
  split; [by rewrite Hids |]. split.
  - unfold Client.has_id. case_bool_decide as Hx; [| done].
    apply apply_other, Hfield. congruence.
  - apply Forall_fmap. eapply Forall_impl; [exact Hothers |].
    intros x Hx. simpl. by rewrite Hids.
Qed.

Lemma fixes_key_fixed (c : row) flds k : k ∈ (fixes c flds).*1 → fix_of c k ≠ None.
Proof.
  intros ([k' v] & -> & Hin)%list_elem_of_fmap.
  apply list_elem_of_omap in Hin as (fld & _ & Hfix).
  pose proof (fix_of_key c fld _ Hfix) as Hk. simpl in *. subst. by rewrite Hfix.
Qed.

Lemma repair_client_pinned res (c : row) :
  (c !! "id" = Some cid → fix_of c field = None) →
  keeps (pinned cid field) (Repair.client_step E res c).
Proof.
  intros Hc w. unfold Repair.client_step.
  destruct (Js.truthy (c !! "id")) as [clientId|] eqn:Hid; [| reflexivity].
  apply truthy_Some in Hid as [Hid _].
  eapply (framed_out _ _ _ (λ _ _, True)).
  frame_bind.
  { frame_keeps. eapply keeps_weaken; [apply db_same_pinned | apply ensure_dir_db_same]. }
  intros made w1 _ _. cbn beta.
  eapply framed_bind with (Q := λ acc _, acc.2 = fixes c documentFields); [apply _ | |].
  { apply framed_both.
    - eapply keeps_weaken; [apply db_same_pinned |].
      apply keeps_foldM; [apply _ |]. intros; apply repair_field_db_same.
    - eapply post_mono; [apply repair_fields_post | | done].
      + apply documentFields_NoDup.
      + intros fld _. apply not_elem_of_nil.
      + by intros acc w' (_ & _ & -> & _). }
  intros acc w2 _ Hacc. destruct acc.2 as [|kv data] eqn:Hdata; [by frame_ret |].
  frame_catch; [| intros; by frame_ret].
  frame_bind; [| intros; by frame_ret].
  frame_keeps. apply update_query_pinned.
  - intros ->. rewrite Hacc. intros Hin%fixes_key_fixed. by apply Hin, Hc.
  - rewrite Hacc. apply fixes_no_id.
Qed.

Lemma repair_run_pinned w (r : row) l :
  w_db w = r :: l → r !! "id" = Some cid → Forall (λ x : row, x !! "id" ≠ Some cid) l →
  fix_of r field = None →
  pinned cid field w (Repair.run E w).2.
Proof.
  intros Hdb Hid Hothers Hfix. unfold Repair.run, bind, get_db. cbn iota beta.
  apply keeps_foldM; [apply _ |]. intros res c Hin. apply repair_client_pinned.
  intros Hc. rewrite Hdb in Hin. apply elem_of_cons in Hin as [->|Hin]; [done |].
  rewrite Forall_forall in Hothers. by destruct (Hothers c Hin).
Qed.

Lemma row_of_None_others db :
  row_of cid db = None → Forall (λ x : row, x !! "id" ≠ Some cid) db.
Proof.
  unfold row_of. induction db as [|x db IH]; [done |]. cbn [find].
  unfold Client.has_id at 1. case_bool_decide as Hx; [done |].
  intros H. apply Forall_cons. split; [done | by apply IH].
Qed.

Lemma promote_absent tempClientId clientId clientData fs w :
  Path.segment tempClientId →
  Fs.existsSync (w_fs w) (documents_dir E ++ [tempClientId]) = false →
  Promotion.promote E tempClientId clientId clientData fs w = (Ret Promotion.TempDirNotFound, w).
Proof.
  intros Hseg Hex. unfold Promotion.promote. rewrite (join_segment _ _ Hseg).
  erewrite try_run; [done |]. erewrite bind_run by apply existsSync_run. by rewrite Hex.
Qed.

End Pinned.

Section Orphan.
Variable E : Env.

Lemma temp_apart u1 u2 (rest : path) :
  u1 ≠ u2 →
  ¬ documents_dir E ++ ["temp-" +:+ u2] `prefix_of` documents_dir E ++ ("temp-" +:+ u1) :: rest.
Proof.
  intros Hne Hpre%prefix_app_inv. apply prefix_cons_inv_1 in Hpre.
  apply (f_equal (Js.drop 5)) in Hpre. by rewrite !(drop_append "temp-") in Hpre.
Qed.

(** The upload of one file to the folder of the storage leaves the
    folder of the handler vacant. *)
Lemma receive_apart u1 u2 name w w1 :
  u1 ≠ u2 →
  vacant (w_fs w) (documents_dir E ++ ["temp-" +:+ u2]) →
  (∀ q n, q ≠ documents_dir E ++ ["temp-" +:+ u1; name] → w_fs w1 !! q = Some n →
     w_fs w !! q = Some n
     ∨ (n = Dir ∧ q `prefix_of` documents_dir E ++ ["temp-" +:+ u1])) →
  vacant (w_fs w1) (documents_dir E ++ ["temp-" +:+ u2]).
Proof.
  intros Hne Hvac Hnew q Hq.
  destruct (w_fs w1 !! q) as [n|] eqn:Hl; [| done]. exfalso.
  destruct (Hnew q n) as [Hold|[_ Hpre]]; [| done | |].
  - intros ->. by apply (temp_apart u1 u2 [name]) in Hq.
  - by rewrite (Hvac q Hq) in Hold.
  - apply (temp_apart u1 u2 [] Hne). by etrans.
Qed.

End Orphan.

(** X16. The upload of [POST /api/clients/with-documents] is written
    by the storage in a temporary folder named with a uuid of its own,
    and the handler names the temporary folder with another uuid.  When
    the two differ and the folder of the handler does not exist, the
    answer is [201], the client is created and its column holds the
    path in the folder of the handler: the uploaded file stays in the
    folder of the storage, no file is moved to the client, and at the
    referenced place there is nothing, or, after the repair that the
    handler requests, a placeholder. *)
Theorem upload_orphaned (E : Env) (selfCall : bool) (user : option User) (body : row)
    (field name content u1 u2 uc : string) (w : World) :
  let clientData := Routes.with_sales_rep user body in
  let staged := Promotion.staged_path ("temp-" +:+ u2) name in
  let cid := new_id (<[field := staged]> clientData) uc in
  let stored := documents_dir E ++ ["temp-" +:+ u1; name] in
  let referenced := documents_dir E ++ ["temp-" +:+ u2; name] in
  filter (λ f, Js.truthy (clientData !! f) = None) requiredFields = [] →
  field ∈ documentFields →
  Shape.temp_hex ("temp-" +:+ u1) = true → Shape.temp_hex ("temp-" +:+ u2) = true →
  u1 ≠ u2 → Path.segment name →
  no_io_fault E →
  db_fault E cid (Client.set_all (delete "id" (<[field := staged]> clientData))) = false →
  row_of cid (w_db w) = None →
  clear_way (w_fs w) (documents_dir E ++ ["temp-" +:+ u1]) →
  w_fs w !! stored ≠ Some Dir →
  vacant (w_fs w) (documents_dir E ++ ["temp-" +:+ u2]) →
  ∃ w1 w' r',
    Storage.receive E None u1 name content w = (Ret stored, w1)
    ∧ Promotion.run E selfCall user body [(field, name)] u2 uc w1 = (Ret (Created cid), w')
    ∧ row_of cid (w_db w') = Some r'
    ∧ r' !! field = Some staged
    ∧ Path.join (root E) staged = referenced
    ∧ w_fs w' !! stored = Some (File content)
    ∧ (∀ c, w_fs w' !! referenced = Some (File c) → c = Repair.placeholder)
    ∧ (selfCall = false → w_fs w' = w_fs w1 ∧ w_fs w' !! referenced = None).
Proof.
  intros clientData staged cid stored referenced
    Hvalid Hfield Hhex1 Hhex2 Hne Hname Hf Hdb Hfree Hc Hnd Hvac.
  pose proof (temp_hex_segment u1 Hhex1) as Hseg1.
  pose proof (temp_hex_segment u2 Hhex2) as Hseg2.
  destruct (receive_run E None u1 name content w ("temp-" +:+ u1))
    as (w1 & Hr & Hdb1 & Hfile & _ & _ & Hnew); try done.
  pose proof (receive_apart E u1 u2 name w w1 Hne Hvac Hnew) as Hvac1.
  set (r0 := (<["id" := cid]> (<[field := staged]> clientData) : row)).
  set (w2 := {| w_db := r0 :: w_db w1; w_fs := w_fs w1;
                w_trace := w_trace w1 ++ [EvInsert cid] |}).
  set (w' := if selfCall then (Repair.run E w2).2 else w2).
  assert (Hfid : field ≠ "id").
  { intros ->. by apply id_not_document_field. }
  assert (Hid0 : r0 !! "id" = Some cid) by apply lookup_insert_eq.
  assert (Hf0 : r0 !! field = Some staged).
  { unfold r0. rewrite lookup_insert_ne by done. apply lookup_insert_eq. }
  assert (Hrun : Promotion.run E selfCall user body [(field, name)] u2 uc w1
                 = (Ret (Created cid), w')).
  { unfold Promotion.run. fold (Routes.with_sales_rep user body). fold clientData.
    rewrite Hvalid. cbn [Promotion.add_paths foldl fst snd]. fold staged.
    erewrite try_run; [done |].
    assert (Hcreate : Client.create E (<[field := staged]> clientData) uc w1 = (Ret cid, w2)).
    { unfold Client.create. fold (new_id (<[field := staged]> clientData) uc). fold cid.
      apply row_of_None in Hfree. rewrite <-Hdb1 in Hfree. by rewrite Hfree, Hdb. }
    erewrite bind_run by exact Hcreate.
    erewrite bind_run; [| apply promote_absent; [done |]].
    2:{ unfold Fs.existsSync. rewrite stat_snoc. cbn [w2 w_fs].
        by rewrite Hvac1. }
    unfold w'. destruct selfCall; [| done].
    unfold bind, try_catch. by destruct (Repair.run E w2) as [[res|e] w3]. }
  assert (Hpin : pinned cid field w2 w').
  { unfold w'. destruct selfCall; [| reflexivity].
    apply (repair_run_pinned E cid field w2 r0 (w_db w1)); try done.
    - rewrite Hdb1. by apply row_of_None_others.
    - unfold fix_of. rewrite Hf0.
      assert (Hs : Js.truthy (Some staged) = Some staged) by done. rewrite Hs.
      unfold staged. by rewrite match_repair_staged. }
  assert (Hframe : repair_frame w2 w').
  { unfold w'. destruct selfCall; [apply repair_run_framed | reflexivity]. }
  destruct (Hpin r0 (w_db w1)) as (r' & l' & Hdb' & Hid' & Hf' & _); try done.
  { rewrite Hdb1. by apply row_of_None_others. }
  destruct Hframe as (Hsub & Hfiles & _).
  exists w1, w', r'. split; [done |]. split; [done |].
  split; [rewrite Hdb'; by apply row_of_head |].
  split; [by rewrite Hf' |].
  split; [by apply join_staged |].
  split; [by apply (lookup_weaken _ _ _ _ Hfile Hsub) |].
  assert (Href : w_fs w2 !! referenced = None).
  { apply Hvac1. unfold referenced. by exists [name]; rewrite <-app_assoc. }
  split.
  - intros c Hl. destruct (Hfiles _ _ Hl) as [Hold|]; [| done]. by rewrite Href in Hold.
  - intros ->. by split.
Qed.

(** A vacant place, checked on the entries of a file store. *)
Lemma vacant_check (fsys : gmap path node) (p : path) :
  forallb (λ kv : path * node, negb (bool_decide (p `prefix_of` kv.1))) (map_to_list fsys)
  = true →
  vacant fsys p.
Proof.
  intros H q Hq. destruct (fsys !! q) as [n|] eqn:Hl; [| done].
  apply elem_of_map_to_list, list_elem_of_In in Hl.
  rewrite forallb_forall in H. specialize (H _ Hl). simpl in H.
  by rewrite bool_decide_eq_true_2 in H.
Qed.

(** X16, on the upload of a proof of identity with the repair. *)
Lemma upload_orphaned_witness :
  ∃ w1 w' r',
    Storage.receive Ex.env None "ab12" "nic_proof-ab12.pdf" "NIC" (Ex.world [] Ex.base)
    = (Ret (Ex.docs ++ ["temp-ab12"; "nic_proof-ab12.pdf"]), w1)
    ∧ Promotion.run Ex.env true None Ex7.body [("nic_proof", "nic_proof-ab12.pdf")]
        "cd34" "ffff0000-aaaa" w1 = (Ret (Created "Cffff0000"), w')
    ∧ row_of "Cffff0000" (w_db w') = Some r'
    ∧ r' !! "nic_proof" = Some "/uploads/documents/temp-cd34/nic_proof-ab12.pdf"
    ∧ w_fs w' !! (Ex.docs ++ ["temp-ab12"; "nic_proof-ab12.pdf"]) = Some (File "NIC")
    ∧ (∀ c, w_fs w' !! (Ex.docs ++ ["temp-cd34"; "nic_proof-ab12.pdf"]) = Some (File c) →
         c = Repair.placeholder).
Proof.
  destruct (upload_orphaned Ex.env true None Ex7.body "nic_proof" "nic_proof-ab12.pdf" "NIC"
              "ab12" "cd34" "ffff0000-aaaa" (Ex.world [] Ex.base))
    as (w1 & w' & r' & Hr & Hrun & Hrow & Hcol & _ & Hfile & Hplace & _).
  - reflexivity.
  - unfold documentFields. repeat constructor.
  - reflexivity.
  - reflexivity.
  - done.
  - by vm_compute.
  - by intros q.
  - reflexivity.
  - reflexivity.
  - apply clear_way_check. by vm_compute.
  - by vm_compute.
  - apply vacant_check. by vm_compute.
  - exists w1, w', r'. repeat split; done.
Defined.

(** ** The names of the stored files and the download *)

Section Names.

Lemma all_chars_app f a b :
  Shape.all_chars f (a +:+ b) = Shape.all_chars f a && Shape.all_chars f b.
Proof. induction a as [|c a IH]; [done |]. simpl. by rewrite IH, andb_assoc. Qed.

Lemma all_chars_impl (f g : ascii → bool) s :
  (∀ c, f c = true → g c = true) → Shape.all_chars f s = true → Shape.all_chars g s = true.
Proof.
  intros H. induction s as [|c s IH]; [done |]. simpl. intros [Hc Hs]%andb_prop.
  by rewrite (H c Hc), IH.
Qed.

Lemma without_split s : without "/" s → Js.split_slash s = [s].
Proof.
  unfold without. induction s as [|c s IH]; [done |]. simpl. intros [Hc Hs]%andb_prop.
  apply negb_true_iff in Hc. by rewrite Hc, IH.
Qed.

Lemma from_last_dot_None s : NodePath.from_last_dot s = None ↔ without "." s.
Proof.
  unfold without. induction s as [|c s IH]; [done |]. simpl.
  destruct (NodePath.from_last_dot s) as [e|].
  - split; [done |]. intros [_ Hs]%andb_prop. by apply IH in Hs.
  - destruct (Ascii.eqb c "."); simpl; [done |]. split; [intros _; by apply IH | done].
Qed.

Lemma from_last_dot_app p s :
  without "." p → NodePath.from_last_dot (p +:+ s) = NodePath.from_last_dot s.
Proof.
  unfold without. induction p as [|c p IH]; [done |]. simpl. intros [Hc Hp]%andb_prop.
  rewrite IH by done. apply negb_true_iff in Hc. rewrite Hc.
  by destruct (NodePath.from_last_dot s).
Qed.

(** The extension of a name is empty, or a dot and then no dot. *)
Lemma from_last_dot_shape b e :
  NodePath.from_last_dot b = Some e →
  ∃ rest, e = String "." rest ∧ without "." rest
          ∧ ∀ f, Shape.all_chars f b = true → Shape.all_chars f e = true.
Proof.
  revert e. induction b as [|c b IH]; intros e; [done |]. simpl.
  destruct (NodePath.from_last_dot b) as [e'|] eqn:Hb.
  - intros [= <-]. destruct (IH e' eq_refl) as (rest & -> & Hrest & Hall).
    exists rest. split; [done |]. split; [done |].
    intros f [_ Hf]%andb_prop. by apply Hall.
  - destruct (Ascii.eqb_spec c ".") as [->|]; [| done]. intros [= <-].
    exists b. split; [done |]. split; [by apply from_last_dot_None | done].
Qed.

Lemma ext_shape b :
  NodePath.ext b = ""
  ∨ ∃ rest, NodePath.ext b = String "." rest ∧ without "." rest
            ∧ ∀ f, Shape.all_chars f b = true → Shape.all_chars f (NodePath.ext b) = true.
Proof.
  unfold NodePath.ext. destruct (NodePath.from_last_dot b) as [e|] eqn:Hb; [| by left].
  destruct (String.eqb e b || String.eqb b ".."); [by left |].
  right. destruct (from_last_dot_shape b e Hb) as (rest & -> & Hrest & Hall).
  by exists rest.
Qed.

Lemma first_nonempty_elem l :
  NodePath.first_nonempty l = "" ∨ NodePath.first_nonempty l ∈ l.
Proof.
  induction l as [|s l IH]; [by left |]. simpl.
  destruct (String.eqb s ""); [| right; by left].
  destruct IH as [?|?]; [by left | right; by right].
Qed.

Lemma basename_without s : without "/" (NodePath.basename s).
Proof.
  unfold NodePath.basename.
  destruct (first_nonempty_elem (rev (Js.split_slash s))) as [->|Hin]; [done |].
  apply list_elem_of_In in Hin. rewrite <-in_rev in Hin. apply list_elem_of_In in Hin.
  by apply segment_no_slash_char, (split_elem s).
Qed.

Lemma extname_without s : without "/" (NodePath.extname s).
Proof.
  unfold NodePath.extname. destruct (ext_shape (NodePath.basename s)) as [->|(r & _ & _ & H)];
    [done |].
  apply H, basename_without.
Qed.

Lemma basename_plain s : without "/" s → NodePath.basename s = s.
Proof.
  intros H. unfold NodePath.basename. rewrite (without_split s H). simpl.
  by destruct s.
Qed.

Lemma append_length a b : String.length (a +:+ b) = String.length a + String.length b.
Proof. induction a as [|c a IH]; [done |]. simpl. by rewrite IH. Qed.

(** A name made of a stem without dots and of an extension has that
    extension. *)
Lemma ext_append stem e :
  stem ≠ "" → without "." stem →
  e = "" ∨ (∃ rest, e = String "." rest ∧ without "." rest) →
  NodePath.ext (stem +:+ e) = e.
Proof.
  intros Hne Hstem He. unfold NodePath.ext. rewrite from_last_dot_app by done.
  destruct He as [->|(rest & -> & Hrest)].
  - by destruct (NodePath.from_last_dot "") eqn:H.
  - assert (Hd : NodePath.from_last_dot (String "." rest) = Some (String "." rest)).
    { simpl. apply from_last_dot_None in Hrest. by rewrite Hrest. }
    rewrite Hd.
    assert (H1 : String.eqb (String "." rest) (stem +:+ String "." rest) = false).
    { apply String.eqb_neq. intros Heq%(f_equal String.length).
      rewrite append_length in Heq. destruct stem; [done |]. simpl in Heq. lia. }
    assert (H2 : String.eqb (stem +:+ String "." rest) ".." = false).
    { apply String.eqb_neq. destruct stem as [|c stem]; [done |]. simpl. intros [= -> _].
      unfold without in Hstem. by simpl in Hstem. }
    by rewrite H1, H2.
Qed.

Lemma split_on_first d t rest :
  without d t → hd "" (Str.split_on d (t +:+ String d rest)) = t.
Proof.
  unfold without. induction t as [|c t IH]; simpl.
  - by rewrite Ascii.eqb_refl.
  - intros [Hc Ht]%andb_prop. apply negb_true_iff in Hc. rewrite Hc.
    specialize (IH Ht). destruct (Str.split_on d (t +:+ String d rest)); simpl in *;
      by subst.
Qed.

Lemma hexdash_plain (d : ascii) :
  (∀ c, Shape.hexdash c = true → negb (Ascii.eqb c d) = true) →
  ∀ s, Shape.all_chars Shape.hexdash s = true → without d s.
Proof. intros H s. by apply all_chars_impl. Qed.

Lemma hexdash_no_dot c : Shape.hexdash c = true → negb (Ascii.eqb c ".") = true.
Proof. destruct (Ascii.eqb_spec c ".") as [->|]; [by vm_compute | done]. Qed.

Lemma hexdash_no_slash c : Shape.hexdash c = true → negb (Ascii.eqb c "/") = true.
Proof. destruct (Ascii.eqb_spec c "/") as [->|]; [by vm_compute | done]. Qed.

Lemma kind_plain t :
  t ∈ documentFields →
  t ≠ "" ∧ without "." t ∧ without "/" t ∧ without "-" t
  ∧ is_Some (Js.truthy (Routes.friendlyNames !! t)).
Proof.
  unfold documentFields. intros Ht.
  repeat (apply elem_of_cons in Ht as [->|Ht];
            [split; [done |]; do 3 (split; [by vm_compute |]); vm_compute; by eexists |]).
  by apply elem_of_nil in Ht.
Qed.

End Names.

Section StoredNames.

Lemma append_assoc (a b c : string) : (a +:+ b) +:+ c = a +:+ b +:+ c.
Proof.
  induction a as [|x a IH]; [done |].
  change (String x ((a +:+ b) +:+ c) = String x (a +:+ b +:+ c)). by rewrite IH.
Qed.

Lemma without_app d a b : without d a → without d b → without d (a +:+ b).
Proof. unfold without. intros Ha Hb. by rewrite all_chars_app, Ha, Hb. Qed.

(** The parts of a stored name. *)
Lemma stored_name_parts documentType fieldname uniqueId original :
  let t := stored_kind documentType fieldname in
  let e := NodePath.extname original in
  let name := Storage.filename documentType fieldname uniqueId e in
  t ∈ documentFields → Shape.all_chars Shape.hexdash uniqueId = true →
  name = (t +:+ "-" +:+ uniqueId) +:+ e
  ∧ name = t +:+ String "-" (uniqueId +:+ e)
  ∧ t +:+ "-" +:+ uniqueId ≠ ""
  ∧ without "." (t +:+ "-" +:+ uniqueId)
  ∧ without "/" name.
Proof.
  intros t e name Ht Huid.
  destruct (kind_plain t Ht) as (Hne & Hdot & Hslash & _).
  assert (Hname : name = t +:+ "-" +:+ uniqueId +:+ e) by done.
  split; [by rewrite Hname, !append_assoc |]. split; [done |].
  split; [by destruct t |]. split.
  - apply without_app; [done |]. apply (without_app "." "-"); [done |].
    by apply (hexdash_plain "." hexdash_no_dot).
  - rewrite Hname. apply without_app; [done |]. apply (without_app "/" "-"); [done |].
    apply without_app; [by apply (hexdash_plain "/" hexdash_no_slash) |].
    apply extname_without.
Qed.

(** A stored name has the extension of the original name. *)
Lemma stored_name_ext documentType fieldname uniqueId original :
  stored_kind documentType fieldname ∈ documentFields →
  Shape.all_chars Shape.hexdash uniqueId = true →
  NodePath.extname
    (Storage.filename documentType fieldname uniqueId (NodePath.extname original))
  = NodePath.extname original.
Proof.
  intros Ht Huid.
  destruct (stored_name_parts documentType fieldname uniqueId original Ht Huid)
    as (Hstem & _ & Hne & Hdot & Hslash).
  unfold NodePath.extname at 1. rewrite (basename_plain _ Hslash), Hstem.
  apply ext_append; [done | done |].
  unfold NodePath.extname. destruct (ext_shape (NodePath.basename original))
    as [->|(rest & -> & Hrest & _)]; [by left | right; by exists rest].
Qed.

(** A stored name is a plain file name. *)
Lemma stored_name_segment documentType fieldname uniqueId original :
  stored_kind documentType fieldname ∈ documentFields →
  Shape.all_chars Shape.hexdash uniqueId = true →
  Path.segment
    (Storage.filename documentType fieldname uniqueId (NodePath.extname original)).
Proof.
  intros Ht Huid.
  destruct (stored_name_parts documentType fieldname uniqueId original Ht Huid)
    as (_ & Hdash & _ & _ & Hslash).
  destruct (kind_plain _ Ht) as (Htne & Htdot & _).
  split; [by apply without_split |]. rewrite Hdash.
  destruct (stored_kind documentType fieldname) as [|c t']; [done |].
  unfold without in Htdot. simpl in Htdot. apply andb_prop in Htdot as [Hc _].
  repeat split; intros [= -> _]; done.
Qed.

End StoredNames.

(** X17. The name that the storage gives to an uploaded file, made of
    the kind of the document, a uuid and the extension of the original
    name, is a plain file name from which the serving routes recover
    what they need: its extension is that of the original name, so the
    content type is that of the original name, and its part before the
    first dash is the kind, so the download is offered under the name
    of the client, the title of the kind and the original extension. *)
Theorem stored_name_round_trip (documentType : option string)
    (fieldname uniqueId original : string) :
  let t := stored_kind documentType fieldname in
  let name := Storage.filename documentType fieldname uniqueId (NodePath.extname original) in
  t ∈ documentFields → Shape.all_chars Shape.hexdash uniqueId = true →
  Path.segment name
  ∧ NodePath.extname name = NodePath.extname original
  ∧ Routes.contentType name = Routes.contentType original
  ∧ hd "" (Str.split_on "-" name) = t
  ∧ ∃ friendly,
      Routes.friendlyNames !! t = Some friendly
      ∧ ∀ r : row,
          Routes.downloadFilename r name
          = default "null" (r !! "client_name") +:+ " - " +:+ friendly
              +:+ NodePath.extname original.
Proof.
  intros t name Ht Huid.
  pose proof (stored_name_ext documentType fieldname uniqueId original Ht Huid) as Hext.
  pose proof (stored_name_segment documentType fieldname uniqueId original Ht Huid) as Hseg.
  destruct (stored_name_parts documentType fieldname uniqueId original Ht Huid)
    as (_ & Hdash & _). fold t name in Hdash, Hext, Hseg.
  destruct (kind_plain t Ht) as (_ & _ & _ & Htdash & [friendly Hfriendly]).
  assert (Hkind : hd "" (Str.split_on "-" name) = t).
  { rewrite Hdash. by apply split_on_first. }
  split; [done |]. split; [done |].
  split; [unfold Routes.contentType; by rewrite Hext |].
  split; [done |]. exists friendly.
  apply truthy_Some in Hfriendly as Hf. destruct Hf as [Hf _]. split; [done |].
  intros r. unfold Routes.downloadFilename, Routes.displayName.
  by rewrite Hkind, Hext, Hfriendly.
Qed.

(** X17, on a proof of identity uploaded as [Scan.of.ID.PDF]. *)
Lemma stored_name_round_trip_witness :
  Storage.filename (Some "nic_proof") "document" "ab12-cd34" (NodePath.extname "Scan.of.ID.PDF")
    = "nic_proof-ab12-cd34.PDF"
  ∧ NodePath.extname "nic_proof-ab12-cd34.PDF" = ".PDF"
  ∧ Routes.contentType "nic_proof-ab12-cd34.PDF" = "application/pdf"
  ∧ Routes.downloadFilename Ex3.nic_client "nic_proof-ab12-cd34.PDF" = "Ann - NIC Proof.PDF".
Proof.
  destruct (stored_name_round_trip (Some "nic_proof") "document" "ab12-cd34" "Scan.of.ID.PDF")
    as (_ & Hext & Htype & _ & friendly & Hfriendly & Hname).
  - unfold documentFields. repeat constructor.
  - reflexivity.
  - split; [reflexivity |]. split; [exact Hext |]. split; [exact Htype |].
    injection Hfriendly as <-. exact (Hname Ex3.nic_client).
Defined.

(** ** From the upload of a document to its download *)

Section Download.
Variable E : Env.

Lemma kind_column t : t ∈ documentFields → t ≠ "id" ∧ t ≠ "sales_rep_id" ∧ t ≠ "client_name".
Proof.
  unfold documentFields. intros Ht.
  repeat (apply elem_of_cons in Ht as [->|Ht]; [done |]). by apply elem_of_nil in Ht.
Qed.

Lemma not_owner_insert user (r : row) k v :
  k ≠ "sales_rep_id" → not_owner user (<[k := v]> r) = not_owner user r.
Proof. intros Hk. unfold not_owner. by rewrite lookup_insert_ne. Qed.

Lemma after_last_slash_staged ns name :
  Path.segment ns → Path.segment name →
  Str.after_last_slash (Promotion.staged_path ns name) = name.
Proof.
  intros (Hns & _) (Hname & _). unfold Str.after_last_slash.
  by rewrite split_staged.
Qed.

(** The two serving routes on a file that exists in the folder of a
    client. *)
Lemma serve_there user id name w (r : row) :
  row_of id (w_db w) = Some r → not_owner user r = false →
  Path.segment id → Path.segment name →
  is_Some (w_fs w !! (documents_dir E ++ [id; name])) →
  Routes.serve E user id name w
  = (Ret (Stream (documents_dir E ++ [id; name]) (Routes.contentType name) (Inline name)), w)
  ∧ Routes.download E user id name w
    = (Ret (Stream (documents_dir E ++ [id; name]) "application/octet-stream"
              (Attachment (Routes.downloadFilename r name))), w).
Proof.
  intros Hrow Hown Hid Hname Hthere.
  assert (Hplace : Path.join (Path.join (documents_dir E) id) name
                   = documents_dir E ++ [id; name]).
  { rewrite !join_segment by done. by rewrite <-app_assoc. }
  assert (Hex : Fs.existsSync (w_fs w) (documents_dir E ++ [id; name]) = true).
  { change [id; name] with ([id] ++ [name]). rewrite app_assoc.
    apply existsSync_snoc. by rewrite <-app_assoc. }
  unfold Routes.serve, Routes.download. rewrite Hplace.
  split; (erewrite try_run; [done |]); erewrite bind_run by apply getById_run;
    rewrite Hrow, Hown; erewrite bind_run by apply existsSync_run; by rewrite Hex.
Qed.

End Download.

(** X18. [POST /api/clients/:id/documents] by a user who may change
    the client, for a file that the storage has written in the folder
    of the client: the column of the kind holds the path of the file,
    the file is kept, the file of the path that the column held before
    is removed, and the answer names the new path.  The link that
    [direct-link] then returns names the file, and the two serving
    routes stream that file: one inline with the content type of the
    original name, the other as a download under the name of the
    client and the title of the kind. *)
Theorem upload_then_download (E : Env) (user : option User)
    (id t uniqueId original content protocol host : string) (w : World) (r : row) :
  let name := Storage.filename (Some t) "document" uniqueId (NodePath.extname original) in
  let relativePath := "/uploads/documents/" +:+ id +:+ "/" +:+ name in
  let place := documents_dir E ++ [id; name] in
  t ∈ documentFields → Shape.all_chars Shape.hexdash uniqueId = true →
  Path.segment id → row_of id (w_db w) = Some r → not_owner user r = false →
  no_io_fault E → db_fault E id [(t, Some relativePath)] = false →
  Fs.stat (w_fs w) (documents_dir E ++ [id]) = Some Dir →
  w_fs w !! place = Some (File content) →
  (∀ old, Js.truthy (r !! t) = Some old →
     plain_end old ∧ Path.join (root E) old ≠ place
     ∧ Fs.stat (w_fs w) (Path.join (root E) old) ≠ Some Dir) →
  ∃ w',
    Documents.post_document E user id (Some t) (Some name) w
    = (Ret (Uploaded relativePath), w')
    ∧ stored_path id t (w_db w') = Some relativePath
    ∧ Path.join (root E) relativePath = place
    ∧ w_fs w' !! place = Some (File content)
    ∧ (∀ old, Js.truthy (r !! t) = Some old → w_fs w' !! Path.join (root E) old = None)
    ∧ Routes.direct_link user protocol host id t w'
      = (Ret (Link t name
                (protocol +:+ "://" +:+ host +:+ "/api/clients/" +:+ id
                   +:+ "/documents/" +:+ name +:+ "/download")
                (protocol +:+ "://" +:+ host +:+ relativePath)), w')
    ∧ Routes.serve E user id name w'
      = (Ret (Stream place (Routes.contentType original) (Inline name)), w')
    ∧ Routes.download E user id name w'
      = (Ret (Stream place "application/octet-stream"
                (Attachment (Routes.downloadFilename r name))), w').
Proof.
  intros name relativePath place Ht Huid Hid Hrow Hown Hf Hdb Hdir Hfile Hold.
  destruct (kind_plain t Ht) as (Hne & _).
  assert (Hkind : stored_kind (Some t) "document" ∈ documentFields).
  { unfold stored_kind. by destruct t. }
  pose proof (stored_name_segment (Some t) "document" uniqueId original Hkind Huid) as Hname.
  assert (Htype : Routes.contentType name = Routes.contentType original).
  { unfold Routes.contentType, name. by rewrite stored_name_ext. }
  fold name in Hname.
  destruct (kind_column t Ht) as (Hnid & Hnrep & Hnname).
  assert (Htt : Js.truthy (Some t) = Some t) by (by destruct t).
  destruct (delete_old_run E r t w) as (w1 & Hdel & Hdb1 & Hfs1).
  { intros old Ho. destruct (Hold old Ho) as (_ & _ & ?). by split. }
  set (r2 := (<[t := relativePath]> r : row)).
  set (w' := {| w_db := Client.update_rows id [(t, Some relativePath)] (w_db w1);
                w_fs := w_fs w1;
                w_trace := w_trace w1 ++ [EvUpdate id [(t, Some relativePath)]] |}).
  assert (Hrow' : row_of id (w_db w') = Some r2).
  { cbn [w' w_db]. rewrite Hdb1.
    apply (row_of_updated id [(t, Some relativePath)] _ r); [| done].
    cbn. intros Heq%list_elem_of_singleton. by symmetry in Heq. }
  assert (Hplace : w_fs w' !! place = Some (File content)).
  { cbn [w' w_fs]. rewrite Hfs1. destruct (Js.truthy (r !! t)) as [old|] eqn:Ho; [| done].
    destruct (Hold old eq_refl) as (_ & Hne' & _). by rewrite lookup_delete_ne. }
  exists w'. split.
  { unfold Documents.post_document. rewrite Htt.
    erewrite try_run; [done |]. erewrite bind_run by apply getById_run.
    rewrite Hrow, Hown. rewrite (join_segment _ id Hid).
    erewrite bind_run.
    2:{ apply ensure_dir_there. unfold Fs.existsSync. by rewrite Hdir. }
    erewrite bind_run by exact Hdel.
    erewrite bind_run;
      [| apply (update_run E id t (Some relativePath) w1 r); [done | by rewrite Hdb1]].
    done. }
  split.
  { unfold stored_path. rewrite Hrow'. apply lookup_insert_eq. }
  split; [by apply (join_staged E id name) |].
  split; [done |].
  split.
  { intros old Ho. cbn [w' w_fs]. rewrite Hfs1, Ho. apply lookup_delete_eq. }
  assert (Hown' : not_owner user r2 = false).
  { unfold r2. by rewrite not_owner_insert. }
  split.
  { unfold Routes.direct_link. erewrite try_run; [done |].
    erewrite bind_run by apply getById_run. rewrite Hrow', Hown'.
    unfold r2. rewrite lookup_insert_eq.
    assert (Hrel : Js.truthy (Some relativePath) = Some relativePath) by done.
    rewrite Hrel. change relativePath with (Promotion.staged_path id name).
    by rewrite after_last_slash_staged. }
  destruct (serve_there E user id name w' r2) as [Hserve Hdown]; try done.
  rewrite Hserve, Hdown, Htype. split; [done |].
  unfold Routes.downloadFilename, r2. by rewrite lookup_insert_ne.
Qed.

(** X18, on the replacement of a proof of identity by its owner. *)
Lemma upload_then_download_witness :
  let w := Ex.world [Ex8.own_client] Ex8.uploaded in
  ∃ w',
    Documents.post_document Ex.env Ex8.rep "C123" (Some "nic_proof")
      (Some "nic_proof-cd34.png") w
    = (Ret (Uploaded "/uploads/documents/C123/nic_proof-cd34.png"), w')
    ∧ w_fs w' !! (Ex.docs ++ ["C123"; "nic_proof-cd34.png"]) = Some (File "NEW")
    ∧ w_fs w' !! (Ex.docs ++ ["C123"; "nic_proof-ab12.pdf"]) = None
    ∧ Routes.download Ex.env Ex8.rep "C123" "nic_proof-cd34.png" w'
      = (Ret (Stream (Ex.docs ++ ["C123"; "nic_proof-cd34.png"]) "application/octet-stream"
                (Attachment "Ann - NIC Proof.png")), w').
Proof.
  intros w.
  destruct (upload_then_download Ex.env Ex8.rep "C123" "nic_proof" "cd34" "id.png" "NEW"
              "https" "broker.example" w Ex8.own_client)
    as (w' & Hpost & _ & _ & Hnew & Hold & _ & _ & Hdown).
  - unfold documentFields. repeat constructor.
  - reflexivity.
  - by vm_compute.
  - reflexivity.
  - reflexivity.
  - by intros q.
  - reflexivity.
  - by vm_compute.
  - by vm_compute.
  - intros old Ho. vm_compute in Ho. injection Ho as <-.
    split; [by vm_compute |]. split; by vm_compute.
  - exists w'. split; [exact Hpost |]. split; [exact Hnew |]. split; [| exact Hdown].
    apply (Hold "/uploads/documents/C123/nic_proof-ab12.pdf"). by vm_compute.
Defined.

(** ** [GET /api/fix-temp-document] *)

Section FixTempCounts.
Variable E : Env.

Lemma copy_failed fault src dst fsys e :
  (Fs.copyFileSync fault src dst fsys).2 = Some e → (Fs.copyFileSync fault src dst fsys).1 = fsys.
Proof.
  unfold Fs.copyFileSync, Fs.put.
  destruct (Fs.stat fsys src) as [[|c]|]; [done | | done].
  destruct (Fs.stat fsys dst) as [[|c']|]; [done | |];
    (destruct (Fs.parent_is_dir fsys dst); [done |]; by destruct (fault dst)).
Qed.

Lemma copy_done fault src dst fsys :
  (Fs.copyFileSync fault src dst fsys).2 = None →
  is_Some ((Fs.copyFileSync fault src dst fsys).1 !! dst)
  ∧ ∀ q, is_Some (fsys !! q) → is_Some ((Fs.copyFileSync fault src dst fsys).1 !! q).
Proof.
  unfold Fs.copyFileSync.
  destruct (Fs.stat fsys src) as [[|c]|]; [done | | done]. intros Hok.
  split; [| intros q; apply put_entries].
  unfold Fs.put in *. destruct (Fs.stat fsys dst) as [[|c']|]; [done | |];
    (destruct (Fs.parent_is_dir fsys dst); [done |]; destruct (fault dst); [done |];
     cbn [fst]; rewrite lookup_insert_eq; by eexists).
Qed.

(** What the loop over the files of the temporary folder keeps. *)
Lemma fix_temp_files tempDir clientDir (db : list row) n names r w :
  FixTemp.totalFiles r = n →
  length (FixTemp.fileDetails r) + length names = n →
  FixTemp.copiedFiles r
    = length (filter (λ d : string * option errno, d.2 = None) (FixTemp.fileDetails r)) →
  w_db w = db →
  (∀ file, (file, None) ∈ FixTemp.fileDetails r →
     is_Some (w_fs w !! Path.join clientDir file)) →
  post (foldM (FixTemp.file_step E tempDir clientDir) names r) w
    (λ r' w',
       FixTemp.totalFiles r' = n
       ∧ length (FixTemp.fileDetails r') = n
       ∧ FixTemp.copiedFiles r'
         = length (filter (λ d : string * option errno, d.2 = None) (FixTemp.fileDetails r'))
       ∧ w_db w' = db
       ∧ ∀ file, (file, None) ∈ FixTemp.fileDetails r' →
           is_Some (w_fs w' !! Path.join clientDir file))
    (λ _ _, False).
Proof.
  revert r w. induction names as [|file names IH]; intros r w Ht Hlen Hcount Hdb Hthere.
  - apply post_ret. simpl in Hlen. repeat split; [done | lia | done..].
  - cbn [foldM]. apply post_bind. unfold FixTemp.file_step.
    apply post_try. unfold post, bind, copyFileSync, fs_call.
    destruct (Fs.copyFileSync (io_fault E) (Path.join tempDir file)
                (Path.join clientDir file) (w_fs w)).2 as [e|] eqn:Hcopy; cbn [ret].
    + apply copy_failed in Hcopy as Hsame. apply IH; cbn.
      * done.
      * rewrite length_app. simpl in *. lia.
      * rewrite filter_app, length_app. rewrite Hcount. rewrite filter_cons_False by done.
        simpl. lia.
      * done.
      * intros f [Hin|Hin%list_elem_of_singleton]%elem_of_app; [| done].
        rewrite Hsame. by apply Hthere.
    + apply copy_done in Hcopy as [Hdst Hkept]. apply IH; cbn.
      * done.
      * rewrite length_app. simpl in *. lia.
      * rewrite filter_app, length_app. rewrite Hcount. rewrite filter_cons_True by done.
        simpl. lia.
      * done.
      * intros f [Hin|Hin%list_elem_of_singleton]%elem_of_app.
        -- by apply Hkept, Hthere.
        -- by injection Hin as ->.
Qed.

Lemma readdirSync_db_same p : keeps db_same (FixTemp.readdirSync p).
Proof. intros w. unfold FixTemp.readdirSync. by destruct (Fs.readdirSync p (w_fs w)). Qed.

Lemma fix_temp_db_same tempId clientId : keeps db_same (FixTemp.run E tempId clientId).
Proof.
  unfold FixTemp.run.
  destruct (Js.truthy tempId) as [t|]; [| apply keeps_ret, _].
  destruct (Js.truthy clientId) as [c|]; [| apply keeps_ret, _].
  apply keeps_try; [apply _ | | intros; apply keeps_ret, _].
  apply keeps_bind; [apply _ | apply keeps_existsSync, _ | intros [|]]; [| apply keeps_ret, _].
  apply keeps_bind; [apply _ | apply ensure_dir_db_same | intros _].
  apply keeps_bind; [apply _ | apply readdirSync_db_same | intros names].
  destruct names as [|file names]; [apply keeps_ret, _ |].
  apply keeps_bind; [apply _ | | intros; apply keeps_ret, _].
  apply keeps_foldM; [apply _ |]. intros r f _. unfold FixTemp.file_step.
  apply keeps_try; [apply _ | | intros; apply keeps_ret, _].
  apply keeps_bind; [apply _ | apply fs_call_db_same | intros; apply keeps_ret, _].
Qed.

Lemma fix_temp_post tempId clientId w :
  post (FixTemp.run E tempId clientId) w
    (λ a w',
       match a with
       | FixTemp.ParametersRequired => Js.truthy tempId = None ∨ Js.truthy clientId = None
       | FixTemp.Copied r =>
           0 < FixTemp.totalFiles r
           ∧ length (FixTemp.fileDetails r) = FixTemp.totalFiles r
           ∧ FixTemp.copiedFiles r
             = length (filter (λ d : string * option errno, d.2 = None)
                         (FixTemp.fileDetails r))
           ∧ ∀ c file, Js.truthy clientId = Some c → (file, None) ∈ FixTemp.fileDetails r →
               is_Some (w_fs w' !! Path.join (Path.join (documents_dir E) c) file)
       | FixTemp.TempDirectoryNotFound => w' = w
       | _ => True
       end)
    (λ _ _, False).
Proof.
  unfold FixTemp.run.
  destruct (Js.truthy tempId) as [t|]; [| apply post_ret; by left].
  destruct (Js.truthy clientId) as [c|]; [| apply post_ret; by right].
  apply post_try. apply post_bind. unfold post at 1. rewrite existsSync_run.
  destruct (Fs.existsSync (w_fs w) _); [| by apply post_ret].
  apply post_bind. eapply post_mono; [apply ensure_dir_post | | done].
  intros _ w1 _. cbn beta. apply post_bind. unfold post at 1, FixTemp.readdirSync.
  destruct (Fs.readdirSync _ (w_fs w1)) as [names|e]; [| done].
  destruct names as [|file names]; [by apply post_ret |].
  apply post_bind.
  eapply post_mono;
    [apply (fix_temp_files _ _ (w_db w1) (length (file :: names))); try done | | done].
  { by intros f Hin%elem_of_nil. }
  intros r w2 (Ht & Hlen & Hcount & _ & Hthere). apply post_ret.
  rewrite Ht. split; [simpl; lia |]. split; [done |]. split; [done |].
  intros c' f [= <-]. apply Hthere.
Qed.

End FixTempCounts.

(** X19. [GET /api/fix-temp-document] always answers, and it changes
    no row: the paths in the store stay as they are.  Without one of
    its parameters it asks for them; when the temporary folder does not
    exist the world is as before.  When it reports copies, the folder
    had files, there is one detail for each of them, the number of
    copied files is the number of details without an error, and every
    file reported as copied exists in the folder of the client. *)
Theorem fix_temp_report (E : Env) (tempId clientId : option string) (w : World) :
  let out := FixTemp.run E tempId clientId w in
  w_db out.2 = w_db w
  ∧ (∃ a, out.1 = Ret a)
  ∧ (out.1 = Ret FixTemp.ParametersRequired →
     Js.truthy tempId = None ∨ Js.truthy clientId = None)
  ∧ (out.1 = Ret FixTemp.TempDirectoryNotFound → out.2 = w)
  ∧ (∀ r, out.1 = Ret (FixTemp.Copied r) →
       0 < FixTemp.totalFiles r
       ∧ length (FixTemp.fileDetails r) = FixTemp.totalFiles r
       ∧ FixTemp.copiedFiles r
         = length (filter (λ d : string * option errno, d.2 = None) (FixTemp.fileDetails r))
       ∧ FixTemp.copiedFiles r <= FixTemp.totalFiles r
       ∧ ∀ c file, Js.truthy clientId = Some c → (file, None) ∈ FixTemp.fileDetails r →
           is_Some (w_fs out.2 !! Path.join (Path.join (documents_dir E) c) file)).
Proof.
  intros out. pose proof (fix_temp_post E tempId clientId w) as Hpost.
  unfold post in Hpost. fold out in Hpost.
  split; [apply fix_temp_db_same |].
  destruct out as [[a|e] w']; [| done]. cbn [fst snd].
  split; [by exists a |]. split; [by intros [= ->] |]. split; [by intros [= ->] |].
  intros r [= ->]. destruct Hpost as (Hpos & Hlen & Hcount & Hthere).
  repeat split; try done.
  rewrite Hcount, <-Hlen. apply length_filter.
Qed.

(** X19, on the temporary folder of a staged proof of identity. *)
Lemma fix_temp_report_witness :
  let out := FixTemp.run Ex.env (Some "temp-ab12") (Some "C123")
               (Ex.world [Ex.nic_data] Ex.staged_nic) in
  out.1 = Ret (FixTemp.Copied {| FixTemp.totalFiles := 1; FixTemp.copiedFiles := 1;
                                 FixTemp.fileDetails := [("nic_proof-ab12.pdf", None)] |})
  ∧ is_Some (w_fs out.2 !! (Ex.docs ++ ["C123"; "nic_proof-ab12.pdf"]))
  ∧ w_db out.2 = [Ex.nic_data].
Proof.
  intros out.
  destruct (fix_temp_report Ex.env (Some "temp-ab12") (Some "C123")
              (Ex.world [Ex.nic_data] Ex.staged_nic)) as (Hdb & _ & _ & _ & Hcopied).
  assert (Hout : out.1 = Ret (FixTemp.Copied
                   {| FixTemp.totalFiles := 1; FixTemp.copiedFiles := 1;
                      FixTemp.fileDetails := [("nic_proof-ab12.pdf", None)] |}))
    by (by vm_compute).
  split; [exact Hout |]. split; [| exact Hdb].
  destruct (Hcopied _ Hout) as (_ & _ & _ & _ & Hthere).
  apply (Hthere "C123" "nic_proof-ab12.pdf" eq_refl). left.
Defined.

(** ** The scan and the paths without the prefix *)

Section ScanLegacy.
Variable E : Env.

Lemma includes_cons p c s : Js.includes p s = true → Js.includes p (String c s) = true.
Proof. intros H. cbn [Js.includes]. rewrite H. apply orb_true_r. Qed.

Lemma includes_app p a s : Js.includes p s = true → Js.includes p (a +:+ s) = true.
Proof.
  intros H. induction a as [|c a IH]; [done |].
  change (String c a +:+ s) with (String c (a +:+ s)). by apply includes_cons.
Qed.

Lemma legacy_places docPath :
  Shape.missing_prefix docPath = true →
  Path.join (root E) docPath = Path.join (root E ++ ["documents"]) (Js.drop 11 docPath)
  ∧ Path.join (root E) ("/uploads" +:+ docPath)
    = Path.join (documents_dir E) (Js.drop 11 docPath).
Proof.
  unfold Shape.missing_prefix, Js.startsWith. intros [Hd _]%andb_prop.
  apply prefix_split in Hd. cbn [String.length] in Hd. set (r := Js.drop 11 docPath) in *.
  clearbody r. subst docPath. split.
  - change ("/documents/" +:+ r) with ("/documents" +:+ "/" +:+ r).
    rewrite join_append. f_equal.
  - change ("/uploads" +:+ "/documents/" +:+ r) with ("/uploads/documents/" +:+ r).
    apply join_uploads_documents.
Qed.

End ScanLegacy.

(** X20. [check-documents] looks for a path without the [/uploads]
    prefix next to the uploads directory: when nothing is there it
    counts the document as missing and changes nothing, although the
    file is in the documents directory.  After the repair of the
    prefixes the column holds the path with the prefix, and the scan
    finds the file and reports the document as in order. *)
Theorem scan_after_prefix_repair (E : Env) (cid : string) (client : row) (acc : Scan.Acc)
    (fld docPath : string) (w : World) :
  let outside := Path.join (root E) docPath in
  let inside := Path.join (root E) ("/uploads" +:+ docPath) in
  fld ∈ documentFields →
  Js.truthy (client !! fld) = Some docPath →
  Shape.missing_prefix docPath = true →
  Js.includes "temp-" ("/uploads" +:+ docPath) = false →
  Fs.existsSync (w_fs w) outside = false →
  Fs.existsSync (w_fs w) inside = true →
  outside = Path.join (root E ++ ["documents"]) (Js.drop 11 docPath)
  ∧ inside = Path.join (documents_dir E) (Js.drop 11 docPath)
  ∧ Scan.field_step E cid client acc fld w
    = (Ret {| Scan.res := Scan.missing (Scan.checked (Scan.res acc));
              Scan.cres :=
                Scan.client_doc
                  {| Scan.field := fld; Scan.originalPath := docPath;
                     Scan.newPath := None; Scan.doc_status := Scan.StMissingFile;
                     Scan.error := Some (MsgFileNotFound outside) |}
                  (Scan.client_missing (Scan.cres acc)) |}, w)
  ∧ with_prefixes client !! fld = Some ("/uploads" +:+ docPath)
  ∧ Scan.field_step E cid (with_prefixes client) acc fld w
    = (Ret {| Scan.res := Scan.checked (Scan.res acc);
              Scan.cres :=
                Scan.client_doc
                  {| Scan.field := fld; Scan.originalPath := "/uploads" +:+ docPath;
                     Scan.newPath := None; Scan.doc_status := Scan.StOk;
                     Scan.error := None |}
                  (Scan.cres acc) |}, w).
Proof.
  intros outside inside Hfld Ht Hmiss Htemp Hout Hin.
  destruct (legacy_places E docPath Hmiss) as [Ho Hi].
  assert (Htemp' : Js.includes "temp-" docPath = false).
  { destruct (Js.includes "temp-" docPath) eqn:Hinc; [| done].
    by rewrite (includes_app "temp-" "/uploads" docPath Hinc) in Htemp. }
  assert (Hfixed : with_prefixes client !! fld = Some ("/uploads" +:+ docPath)).
  { destruct (with_prefixes_lookup client) as [Hl _]. by rewrite (Hl fld Hfld), Ht, Hmiss. }
  split; [done |]. split; [done |]. split.
  - unfold Scan.field_step. rewrite Ht, Htemp'.
    erewrite bind_run; [| erewrite bind_run by apply existsSync_run; fold outside;
                          by rewrite Hout]. done.
  - split; [done |]. unfold Scan.field_step. rewrite Hfixed, truthy_fixed, Htemp.
    erewrite bind_run; [| erewrite bind_run by apply existsSync_run; fold inside;
                          by rewrite Hin]. done.
Qed.

(** X20, on a proof of identity in the folder of its client. *)
Lemma scan_after_prefix_repair_witness :
  let client := Ex.client "C123" "nic_proof" "/documents/C123/nic_proof-ab12.pdf" in
  let w := Ex.world [client] Ex3.nic_in_folder in
  (∃ acc', Scan.field_step Ex.env "C123" client Ex5.start "nic_proof" w = (Ret acc', w)
           ∧ Scan.missingFiles (Scan.res acc') = 1)
  ∧ with_prefixes client !! "nic_proof" = Some "/uploads/documents/C123/nic_proof-ab12.pdf".
Proof.
  intros client w.
  destruct (scan_after_prefix_repair Ex.env "C123" client Ex5.start "nic_proof"
              "/documents/C123/nic_proof-ab12.pdf" w)
    as (_ & _ & Hbefore & Hfixed & _).
  - unfold documentFields. repeat constructor.
  - reflexivity.
  - reflexivity.
  - reflexivity.
  - by vm_compute.
  - by vm_compute.
  - split; [| exact Hfixed]. eexists. split; [exact Hbefore | reflexivity].
Defined.
